(** * A persisted key-value store behind a reader-writer gate

    Shallow embedding of the Python sources
    - [Database.py]       : the in-memory store,
    - [file_Database.py]  : the pickle-backed store,
    - [sync_Database.py]  : the semaphore/lock gate (bounded variant),
    - [winapi.py]         : the win32 store and the event/mutex gate,
    - [threads_test.py], [prosses_test.py] : the harness, for the serial
      runs of its threads and processes and the interleaved runs of its
      threads.

    Methods are state transformers in a small state-and-exception monad;
    the gates are in addition given an interleaving semantics, one atomic
    step per synchronisation primitive. *)

From stdpp Require Import base option list gmap.
From Stdlib Require Import ZArith Lia.

Set Default Proof Using "Type".

(** ** Python values, exceptions, log records *)

(** What [self.DB] can hold.  The constructor only accepts a [dict], but
    [pickle.load] returns whatever object the file holds; [PyOther] stands
    for any unpickled object that supports neither subscription, item
    assignment nor item deletion ([None], an [int], ...). *)
Inductive pyobj :=
| PyDict (d : gmap Z Z)
| PyOther.

Inductive exn :=
| KeyError
| TypeError
| ValueError
| AttributeError
| OSError
| FileNotFoundError
| EOFError
| UnpicklingError
| RuntimeError
| PyWinError (winerror : Z).

(** How a call ends: it returns, it raises, or it never returns because it
    waits on a synchronisation primitive nobody will signal. *)
Inductive outcome (A : Type) :=
| Return (a : A)
| Raise (e : exn)
| Blocked.
Arguments Return {A} a.
Arguments Raise {A} e.
Arguments Blocked {A}.

(** [get_value] returns the stored integer or the string ["doesn't exist"]. *)
Inductive get_result :=
| Value (v : Z)
| DoesntExist.

Inductive level := DEBUG | INFO | WARNING | ERROR.

(** The messages the sources pass to [logging], with their arguments. *)
Inductive msg :=
| DatabaseInitialized (db : pyobj)
| ValueSet (key val : Z)
| ErrorSettingValue (key : Z) (e : exn)
| FetchedValue (key val : Z)
| KeyNotFound (key : Z)
| DeletedKey (key : Z)
| KeyNotFoundForDeletion (key : Z)
| FileDatabaseInitialized
| FileDatabaseInitializedWith (db : pyobj)
| DatabaseSaved
| ErrorSaving (e : exn)
| DatabaseLoaded
| ErrorLoading (e : exn)
| ErrorCreatingFile
| ModeEnabled (threading : bool) (max_readers : nat)
| UsingWin32Event
| MaxReaders (max_readers : nat)
| AcquiringReadLock
| ErrorAcquiringReadLock (e : exn)
| ReleasingReadSemaphore
| ErrorReleasingReadSemaphore (e : exn)
| AcquiringWriteLock
| ErrorAcquiringWriteLock (e : exn)
| ReleasingWriteLock
| ErrorReleasingWriteLock (e : exn)
| ReaderAcquired
| ReaderReleased
| WriterAcquired
| WriterReleased.

Definition entry : Type := level * msg.

Global Instance pyobj_eq_dec : EqDecision pyobj.
Proof. solve_decision. Defined.
Global Instance exn_eq_dec : EqDecision exn.
Proof. solve_decision. Defined.
Global Instance level_eq_dec : EqDecision level.
Proof. solve_decision. Defined.
Global Instance msg_eq_dec : EqDecision msg.
Proof. solve_decision. Defined.

(** ** The state-and-exception monad *)

Definition M (S A : Type) : Type := S -> outcome A * S.

Definition ret {S A} (a : A) : M S A := fun s => (Return a, s).
Definition raise {S A} (e : exn) : M S A := fun s => (Raise e, s).
Definition block {S A} : M S A := fun s => (Blocked, s).

Definition bind {S A B} (m : M S A) (k : A -> M S B) : M S B :=
  fun s =>
    match m s with
    | (Return a, s') => k a s'
    | (Raise e, s') => (Raise e, s')
    | (Blocked, s') => (Blocked, s')
    end.

Global Instance M_ret {S} : MRet (M S) := fun A a => ret a.
Global Instance M_bind {S} : MBind (M S) := fun A B k m => bind m k.

Definition gets {S A} (f : S -> A) : M S A := fun s => (Return (f s), s).
Definition modify {S} (f : S -> S) : M S unit := fun s => (Return tt, f s).

(** [try: body except <caught>: handler]. *)
Definition try_except {S A} (body : M S A) (caught : exn -> bool)
    (handler : exn -> M S A) : M S A :=
  fun s =>
    match body s with
    | (Raise e, s') => if caught e then handler e s' else (Raise e, s')
    | r => r
    end.

(** [try: body finally: fin].  The [finally] suite runs when the body
    returns and when it raises; an exception of the suite itself replaces
    the body's outcome. *)
Definition try_finally {S A} (body : M S A) (fin : M S unit) : M S A :=
  fun s =>
    match body s with
    | (Blocked, s') => (Blocked, s')
    | (o, s') =>
        match fin s' with
        | (Return _, s'') => (o, s'')
        | (Raise e, s'') => (Raise e, s'')
        | (Blocked, s'') => (Blocked, s'')
        end
    end.

Definition except_Exception (e : exn) : bool := true.
Definition except_KeyError (e : exn) : bool := bool_decide (e = KeyError).
Definition except_pywintypes_error (e : exn) : bool :=
  match e with PyWinError _ => true | _ => false end.

(** [for _ in range(n): body]. *)
Fixpoint for_range {S} (n : nat) (body : M S unit) : M S unit :=
  match n with
  | O => ret tt
  | S n' => body;; for_range n' body
  end.

(** Subscription, item assignment and item deletion on a Python object. *)
Definition getitem (o : pyobj) (key : Z) : outcome Z :=
  match o with
  | PyDict d => match d !! key with Some v => Return v | None => Raise KeyError end
  | PyOther => Raise TypeError
  end.

Definition setitem (o : pyobj) (key val : Z) : outcome pyobj :=
  match o with
  | PyDict d => Return (PyDict (<[key:=val]> d))
  | PyOther => Raise TypeError
  end.

Definition delitem (o : pyobj) (key : Z) : outcome pyobj :=
  match o with
  | PyDict d =>
      match d !! key with
      | Some _ => Return (PyDict (delete key d))
      | None => Raise KeyError
      end
  | PyOther => Raise TypeError
  end.

(** ** Database.py *)

Module Database.

(** A [Database] object together with the log of its process.  [DB] is
    [None] as long as the attribute [self.DB] has not been assigned. *)
Record t := mk { DB : option pyobj; log : list entry }.

Definition logging (l : level) (m : msg) : M t unit :=
  modify (fun s => mk (DB s) (log s ++ [(l, m)])).

(** [self.DB = db]. *)
Definition assign_DB (db : pyobj) : M t unit :=
  modify (fun s => mk (Some db) (log s)).

(** Reading [self.DB]: an [AttributeError] while it is unassigned. *)
Definition self_DB : M t pyobj :=
  fun s => match DB s with
           | Some db => (Return db, s)
           | None => (Raise AttributeError, s)
           end.

(** An outcome computed by the interpreter, as a step of the monad. *)
Definition eval {A} (o : outcome A) : M t A := fun s => (o, s).

Definition isinstance_dict (o : pyobj) : bool :=
  match o with PyDict _ => true | PyOther => false end.

(** [__init__]: the argument must be a [dict]. *)
Definition init (db : pyobj) : M t unit :=
  if isinstance_dict db then
    assign_DB db;;
    logging INFO (DatabaseInitialized db)
  else raise ValueError.

Definition set_value (key val : Z) : M t bool :=
  try_except
    (db ← self_DB;
     db' ← eval (setitem db key val);
     assign_DB db';;
     logging INFO (ValueSet key val);;
     ret true)
    except_Exception
    (fun e => logging ERROR (ErrorSettingValue key e);; ret false).

Definition get_value (key : Z) : M t get_result :=
  try_except
    (db ← self_DB;
     value ← eval (getitem db key);
     logging INFO (FetchedValue key value);;
     ret (Value value))
    except_KeyError
    (fun _ => logging WARNING (KeyNotFound key);; ret DoesntExist).

Definition del_value (key : Z) : M t bool :=
  try_except
    (db ← self_DB;
     db' ← eval (delitem db key);
     assign_DB db';;
     logging INFO (DeletedKey key);;
     ret true)
    except_KeyError
    (fun _ => logging WARNING (KeyNotFoundForDeletion key);; ret false).

End Database.

(** ** The file system and the persisted object *)

(** Content of [database.pickle] as [pickle] reads it: nothing at all, the
    pickle of an object, or bytes that do not unpickle ([UnpicklingError];
    on a truncated pickle the exception is [EOFError], which changes the
    exception a log record names and nothing else). *)
Inductive blob :=
| Empty
| Pickled (o : pyobj)
| Garbage.

Global Instance blob_eq_dec : EqDecision blob.
Proof. solve_decision. Defined.

(** A [FileDatabase] object with the environment it runs in: [file] is
    the content of [database.pickle] ([None] when the file does not
    exist); [faults] is the fate of the coming attempts to open it, in
    order, [true] for an attempt the operating system refuses (no entry
    left: no refusal).  A file that has been opened is read or written
    to its end: a failure in the middle of a write is not modelled. *)
Record file_database := FileDatabaseObj {
  base : Database.t;
  file : option blob;
  faults : list bool
}.

Definition set_base (b : Database.t) (s : file_database) : file_database :=
  FileDatabaseObj b (file s) (faults s).
Definition set_file (f : option blob) (s : file_database) : file_database :=
  FileDatabaseObj (base s) f (faults s).
Definition set_faults (l : list bool) (s : file_database) : file_database :=
  FileDatabaseObj (base s) (file s) l.

(** Running a method of the parent class on the embedded parent object. *)
Definition lift {S T A} (get : T -> S) (set : S -> T -> T) (m : M S A) : M T A :=
  fun s => let '(o, b) := m (get s) in (o, set b s).

(** Whether the operating system refuses the next attempt. *)
Definition next_fault : M file_database bool :=
  fun s => match faults s with
           | [] => (Return false, s)
           | f :: l => (Return f, set_faults l s)
           end.

Definition os_path_exists : M file_database bool :=
  gets (fun s => bool_decide (file s <> None)).

Definition pickle_load (b : blob) : outcome pyobj :=
  match b with
  | Pickled o => Return o
  | Empty => Raise EOFError
  | Garbage => Raise UnpicklingError
  end.

(** The four operations of a gate, and the state a primitive leaves when
    it returns. *)
Inductive gate_op :=
| acquire_read
| release_read
| acquire_write
| release_write.

Definition returns {S A} (m : M S A) (s : S) : option S :=
  match m s with
  | (Return _, s') => Some s'
  | _ => None
  end.

(** ** file_Database.py and sync_Database.py *)

Module Pickle.

Module FileDatabase.

Definition super {A} : M Database.t A -> M file_database A := lift base set_base.

Definition logging (l : level) (m : msg) : M file_database unit :=
  super (Database.logging l m).

(** [open(self.file_path, 'rb')], with what the file holds. *)
Definition open_rb : M file_database blob :=
  fault ← next_fault;
  if (fault : bool) then raise OSError
  else
    f ← gets file;
    match f with
    | Some b => ret b
    | None => raise FileNotFoundError
    end.

(** [open(self.file_path, 'wb')]: creates the file or truncates it. *)
Definition open_wb : M file_database unit :=
  fault ← next_fault;
  if (fault : bool) then raise OSError
  else modify (set_file (Some Empty)).

(** [pickle.dump(obj, file)] into the file just opened. *)
Definition pickle_dump (o : pyobj) : M file_database unit :=
  modify (set_file (Some (Pickled o))).

Definition save_to_file : M file_database unit :=
  try_except
    (open_wb;;
     db ← super Database.self_DB;
     pickle_dump db;;
     logging INFO DatabaseSaved)
    except_Exception
    (fun e => logging ERROR (ErrorSaving e)).

Definition load_from_file : M file_database unit :=
  try_except
    (b ← open_rb;
     db ← super (Database.eval (pickle_load b));
     super (Database.assign_DB db);;
     logging INFO DatabaseLoaded)
    except_Exception
    (fun e => logging ERROR (ErrorLoading e)).

Definition init (db : pyobj) : M file_database unit :=
  super (Database.init db);;
  ex ← os_path_exists;
  (if (ex : bool) then load_from_file else ret tt);;
  logging INFO FileDatabaseInitialized.

Definition set_value (key val : Z) : M file_database bool :=
  load_from_file;;
  success ← super (Database.set_value key val);
  (if (success : bool) then save_to_file else ret tt);;
  ret success.

Definition get_value (key : Z) : M file_database get_result :=
  load_from_file;;
  super (Database.get_value key).

Definition del_value (key : Z) : M file_database bool :=
  load_from_file;;
  success ← super (Database.del_value key);
  (if (success : bool) then save_to_file else ret tt);;
  ret success.

End FileDatabase.

(** *** The gate of sync_Database.py: a counting semaphore and a lock *)

(** [semaphore] is the number of units a [threading.Semaphore] (or
    [multiprocessing.Semaphore]) currently has; [write_lock] tells whether
    the [Lock] is held. *)
Record gate := Gate {
  semaphore : nat;
  write_lock : bool;
  max_readers : nat
}.

Definition Semaphore_acquire : M gate unit :=
  fun g => match semaphore g with
           | O => (Blocked, g)
           | S v => (Return tt, Gate v (write_lock g) (max_readers g))
           end.

Definition Semaphore_release : M gate unit :=
  modify (fun g => Gate (S (semaphore g)) (write_lock g) (max_readers g)).

Definition Lock_acquire : M gate unit :=
  fun g => if write_lock g then (Blocked, g)
           else (Return tt, Gate (semaphore g) true (max_readers g)).

(** Releasing a lock that is not held raises: [RuntimeError] for a
    [threading.Lock], as here; a [multiprocessing.Lock] raises
    [ValueError], which changes the exception a log record names and
    nothing else. *)
Definition Lock_release : M gate unit :=
  fun g => if write_lock g
           then (Return tt, Gate (semaphore g) false (max_readers g))
           else (Raise RuntimeError, g).

(** [SynchronizedDatabase(db, mode, max_readers)] builds this gate. *)
Definition new_gate (max_readers : nat) : gate := Gate max_readers false max_readers.

Module SynchronizedDatabase.

Record t := mk { fbase : file_database; mode : bool; the_gate : gate }.

Definition set_fbase (b : file_database) (s : t) : t := mk b (mode s) (the_gate s).
Definition set_gate (g : gate) (s : t) : t := mk (fbase s) (mode s) g.

Definition super {A} : M file_database A -> M t A := lift fbase set_fbase.
Definition on_gate {A} : M gate A -> M t A := lift the_gate set_gate.

Definition logging (l : level) (m : msg) : M t unit :=
  super (FileDatabase.logging l m).

Definition init (db : pyobj) (mode : bool) (max_readers : nat) : M t unit :=
  super (FileDatabase.init db);;
  modify (fun s => mk (fbase s) mode (new_gate max_readers));;
  logging INFO (ModeEnabled mode max_readers).

Definition acquire_read_lock : M t unit :=
  try_except
    (logging DEBUG AcquiringReadLock;;
     on_gate Semaphore_acquire)
    except_Exception
    (fun e => logging ERROR (ErrorAcquiringReadLock e)).

Definition release_read_semaphore : M t unit :=
  try_except
    (logging DEBUG ReleasingReadSemaphore;;
     on_gate Semaphore_release)
    except_Exception
    (fun e => logging ERROR (ErrorReleasingReadSemaphore e)).

Definition acquire_write_lock : M t unit :=
  try_except
    (logging DEBUG AcquiringWriteLock;;
     on_gate Lock_acquire;;
     n ← gets (fun s => max_readers (the_gate s));
     for_range n (on_gate Semaphore_acquire))
    except_Exception
    (fun e => logging ERROR (ErrorAcquiringWriteLock e)).

Definition release_write_lock : M t unit :=
  try_except
    (logging DEBUG ReleasingWriteLock;;
     n ← gets (fun s => max_readers (the_gate s));
     for_range n (on_gate Semaphore_release);;
     on_gate Lock_release)
    except_Exception
    (fun e => logging ERROR (ErrorReleasingWriteLock e)).

Definition set_value (key value : Z) : M t bool :=
  acquire_write_lock;;
  try_finally (super (FileDatabase.set_value key value)) release_write_lock.

Definition get_value (key : Z) : M t get_result :=
  acquire_read_lock;;
  try_finally (super (FileDatabase.get_value key)) release_read_semaphore.

Definition delete_value (key : Z) : M t bool :=
  acquire_write_lock;;
  try_finally (super (FileDatabase.del_value key)) release_write_lock.

End SynchronizedDatabase.

(** *** Actors sharing one gate

    An actor uses the gate the way [get_value], [set_value] and
    [delete_value] do: an acquire, its critical section, the matching
    release.  Its program counter names the primitive it is about to
    call; one step of the system is one primitive of one actor. *)

Inductive pc :=
| Idle
| AcquireRead_semaphore          (* acquire_read_lock: before semaphore.acquire() *)
| Reading                        (* between acquire_read_lock and release_read_semaphore *)
| ReleaseRead_semaphore          (* release_read_semaphore: before semaphore.release() *)
| AcquireWrite_lock              (* acquire_write_lock: before write_lock.acquire() *)
| AcquireWrite_loop (k : nat)    (* in the for loop, k iterations done *)
| Writing                        (* between acquire_write_lock and release_write_lock *)
| ReleaseWrite_loop (k : nat)    (* release_write_lock: in the for loop, k iterations done *)
| ReleaseWrite_lock.             (* before write_lock.release() *)

Global Instance pc_eq_dec : EqDecision pc.
Proof. solve_decision. Defined.

(** One atomic step of an actor at [p] inside gate operation [o]; [None]
    when the primitive blocks, or when [o] is not the operation the actor
    is in (or may start). *)
Definition thread_step (o : gate_op) (p : pc) (g : gate) : option (pc * gate) :=
  match o, p with
  | acquire_read, Idle => Some (AcquireRead_semaphore, g)
  | acquire_read, AcquireRead_semaphore =>
      g' ← returns Semaphore_acquire g; Some (Reading, g')
  | release_read, Reading => Some (ReleaseRead_semaphore, g)
  | release_read, ReleaseRead_semaphore =>
      g' ← returns Semaphore_release g; Some (Idle, g')
  | acquire_write, Idle => Some (AcquireWrite_lock, g)
  | acquire_write, AcquireWrite_lock =>
      g' ← returns Lock_acquire g; Some (AcquireWrite_loop 0, g')
  | acquire_write, AcquireWrite_loop k =>
      if (k <? max_readers g)%nat
      then g' ← returns Semaphore_acquire g; Some (AcquireWrite_loop (S k), g')
      else Some (Writing, g)
  | release_write, Writing => Some (ReleaseWrite_loop 0, g)
  | release_write, ReleaseWrite_loop k =>
      if (k <? max_readers g)%nat
      then g' ← returns Semaphore_release g; Some (ReleaseWrite_loop (S k), g')
      else Some (ReleaseWrite_lock, g)
  | release_write, ReleaseWrite_lock =>
      g' ← returns Lock_release g; Some (Idle, g')
  | _, _ => None
  end.

Record system := System { shared : gate; threads : list pc }.

(** Actor [i] takes a step of operation [o]. *)
Definition step (ev : nat * gate_op) (s : system) : option system :=
  p ← threads s !! ev.1;
  '(p', g') ← thread_step ev.2 p (shared s);
  Some (System g' (<[ev.1:=p']> (threads s))).

(** A schedule: which actor moves next, and in which operation. *)
Fixpoint exec (sched : list (nat * gate_op)) (s : system) : option system :=
  match sched with
  | [] => Some s
  | ev :: sched' => s' ← step ev s; exec sched' s'
  end.

Definition initial (actors max_readers : nat) : system :=
  System (new_gate max_readers) (replicate actors Idle).

Definition count_pc (p : pc) (ts : list pc) : nat :=
  length (filter (fun q => q = p) ts).

(** Actors inside a read, respectively write, critical section. *)
Definition readers (s : system) : nat := count_pc Reading (threads s).
Definition writers (s : system) : nat := count_pc Writing (threads s).

End Pickle.

(** ** winapi.py *)

Module WinApi.

Definition ERROR_FILE_NOT_FOUND : Z := 2.
Definition ERROR_SHARING_VIOLATION : Z := 32.
Definition ERROR_FILE_EXISTS : Z := 80.
Definition ERROR_NOT_OWNER : Z := 288.

Module FileDatabase.

Definition super {A} : M Database.t A -> M file_database A := lift base set_base.

Definition logging (l : level) (m : msg) : M file_database unit :=
  super (Database.logging l m).

(** [win32file.CreateFile(..., CREATE_NEW, ...)]: creates the empty file,
    error 80 when it exists.  The file is opened without sharing, so an
    attempt the system refuses is a sharing violation. *)
Definition CreateFile_CREATE_NEW : M file_database unit :=
  fault ← next_fault;
  if (fault : bool) then raise (PyWinError ERROR_SHARING_VIOLATION)
  else
    f ← gets file;
    match f with
    | Some _ => raise (PyWinError ERROR_FILE_EXISTS)
    | None => modify (set_file (Some Empty))
    end.

(** [win32file.CreateFile(..., OPEN_EXISTING, ...)], with what the file
    holds. *)
Definition CreateFile_OPEN_EXISTING : M file_database blob :=
  fault ← next_fault;
  if (fault : bool) then raise (PyWinError ERROR_SHARING_VIOLATION)
  else
    f ← gets file;
    match f with
    | Some b => ret b
    | None => raise (PyWinError ERROR_FILE_NOT_FOUND)
    end.

(** [open(self.file_path, 'wb')]: creates the file or truncates it. *)
Definition open_wb : M file_database unit :=
  fault ← next_fault;
  if (fault : bool) then raise OSError
  else modify (set_file (Some Empty)).

(** [pickle.dump(obj, file)] into the file just opened. *)
Definition pickle_dump (o : pyobj) : M file_database unit :=
  modify (set_file (Some (Pickled o))).

(** [win32file.WriteFile(handle, pickle.dumps(obj))] on a handle just
    opened: the pickle goes to the start of the file, which is not
    truncated; [pickle.loads] stops at the end of the pickle, so the file
    then unpickles to [obj] whatever it held. *)
Definition WriteFile_dumps (o : pyobj) : M file_database unit :=
  modify (set_file (Some (Pickled o))).

Definition save_to_file : M file_database unit :=
  try_except
    (CreateFile_OPEN_EXISTING;;
     db ← super Database.self_DB;
     WriteFile_dumps db;;
     logging INFO DatabaseSaved)
    except_Exception
    (fun e => logging ERROR (ErrorSaving e)).

Definition load_from_file : M file_database unit :=
  try_except
    (b ← CreateFile_OPEN_EXISTING;
     match b with
     | Empty => super (Database.assign_DB (PyDict ∅))
     | _ =>
         db ← super (Database.eval (pickle_load b));
         super (Database.assign_DB db)
     end;;
     logging INFO DatabaseLoaded)
    except_Exception
    (fun e => logging ERROR (ErrorLoading e)).

(** [__init__]: the argument [db] is not used. *)
Definition init (db : pyobj) : M file_database unit :=
  try_except
    (CreateFile_CREATE_NEW;;
     open_wb;;
     pickle_dump (PyDict ∅))
    except_pywintypes_error
    (fun e => if bool_decide (e = PyWinError ERROR_FILE_EXISTS) then ret tt
              else logging ERROR ErrorCreatingFile);;
  load_from_file;;
  loaded ← super Database.self_DB;
  super (Database.init loaded);;
  logging INFO (FileDatabaseInitializedWith loaded).

Definition set_value (key val : Z) : M file_database bool :=
  load_from_file;;
  success ← super (Database.set_value key val);
  (if (success : bool) then save_to_file else ret tt);;
  ret success.

Definition get_value (key : Z) : M file_database get_result :=
  load_from_file;;
  super (Database.get_value key).

Definition del_value (key : Z) : M file_database bool :=
  load_from_file;;
  success ← super (Database.del_value key);
  (if (success : bool) then save_to_file else ret tt);;
  ret success.

End FileDatabase.

(** *** The gate of winapi.py: an auto-reset event, a mutex, a counter *)

(** [read_event] tells whether the event is signalled; [write_mutex]
    whether the mutex is owned (no method waits for it while owning it,
    so its recursion count is not kept). *)
Record gate := Gate {
  read_event : bool;
  write_mutex : bool;
  reader_count : Z;
  max_readers : nat
}.

(** [WaitForSingleObject(self.read_event, -1)]: consumes the signal. *)
Definition Wait_read_event : M gate unit :=
  fun g => if read_event g
           then (Return tt, Gate false (write_mutex g) (reader_count g) (max_readers g))
           else (Blocked, g).

Definition SetEvent : M gate unit :=
  modify (fun g => Gate true (write_mutex g) (reader_count g) (max_readers g)).

(** [WaitForSingleObject(self.write_mutex, -1)]. *)
Definition Wait_write_mutex : M gate unit :=
  fun g => if write_mutex g
           then (Blocked, g)
           else (Return tt, Gate (read_event g) true (reader_count g) (max_readers g)).

Definition ReleaseMutex : M gate unit :=
  fun g => if write_mutex g
           then (Return tt, Gate (read_event g) false (reader_count g) (max_readers g))
           else (Raise (PyWinError ERROR_NOT_OWNER), g).

Definition add_reader_count (n : Z) : M gate unit :=
  modify (fun g => Gate (read_event g) (write_mutex g) (reader_count g + n) (max_readers g)).

(** The event is created signalled, the mutex free, the counter 0. *)
Definition new_gate (max_readers : nat) : gate := Gate true false 0 max_readers.

Module SynchronizedDatabase.

Record t := mk { fbase : file_database; the_gate : gate }.

Definition set_fbase (b : file_database) (s : t) : t := mk b (the_gate s).
Definition set_gate (g : gate) (s : t) : t := mk (fbase s) g.

Definition super {A} : M file_database A -> M t A := lift fbase set_fbase.
Definition on_gate {A} : M gate A -> M t A := lift the_gate set_gate.

Definition logging (l : level) (m : msg) : M t unit :=
  super (FileDatabase.logging l m).

(** [__init__]: [mode] is accepted and ignored. *)
Definition init (db : pyobj) (mode : bool) (max_readers : nat) : M t unit :=
  super (FileDatabase.init db);;
  modify (fun s => mk (fbase s) (new_gate max_readers));;
  logging INFO UsingWin32Event;;
  logging INFO (MaxReaders max_readers).

Definition acquire_read_lock : M t unit :=
  on_gate Wait_write_mutex;;
  on_gate (add_reader_count 1);;
  c ← gets (fun s => reader_count (the_gate s));
  (if (c =? 1)%Z then on_gate Wait_read_event else ret tt);;
  on_gate ReleaseMutex;;
  logging DEBUG ReaderAcquired.

Definition release_read_semaphore : M t unit :=
  on_gate Wait_write_mutex;;
  on_gate (add_reader_count (-1));;
  c ← gets (fun s => reader_count (the_gate s));
  (if (c =? 0)%Z then on_gate SetEvent else ret tt);;
  on_gate ReleaseMutex;;
  logging DEBUG ReaderReleased.

Definition acquire_write_lock : M t unit :=
  on_gate Wait_read_event;;
  on_gate Wait_write_mutex;;
  logging DEBUG WriterAcquired.

Definition release_write_lock : M t unit :=
  on_gate ReleaseMutex;;
  on_gate SetEvent;;
  logging DEBUG WriterReleased.

Definition set_value (key value : Z) : M t bool :=
  acquire_write_lock;;
  try_finally (super (FileDatabase.set_value key value)) release_write_lock.

Definition get_value (key : Z) : M t get_result :=
  acquire_read_lock;;
  try_finally (super (FileDatabase.get_value key)) release_read_semaphore.

Definition del_value (key : Z) : M t bool :=
  acquire_write_lock;;
  try_finally (super (FileDatabase.del_value key)) release_write_lock.

End SynchronizedDatabase.

(** *** Actors sharing one gate *)

Inductive pc :=
| Idle
| AcquireRead_mutex       (* acquire_read_lock: before WaitForSingleObject(write_mutex) *)
| AcquireRead_incr        (* before reader_count += 1 *)
| AcquireRead_test        (* before if reader_count == 1 *)
| AcquireRead_event       (* before WaitForSingleObject(read_event) *)
| AcquireRead_unlock      (* before ReleaseMutex(write_mutex) *)
| Reading                 (* between acquire_read_lock and release_read_semaphore *)
| ReleaseRead_mutex       (* release_read_semaphore: before WaitForSingleObject(write_mutex) *)
| ReleaseRead_decr        (* before reader_count -= 1 *)
| ReleaseRead_test        (* before if reader_count == 0 *)
| ReleaseRead_event       (* before SetEvent(read_event) *)
| ReleaseRead_unlock      (* before ReleaseMutex(write_mutex) *)
| AcquireWrite_event      (* acquire_write_lock: before WaitForSingleObject(read_event) *)
| AcquireWrite_mutex      (* before WaitForSingleObject(write_mutex) *)
| Writing                 (* between acquire_write_lock and release_write_lock *)
| ReleaseWrite_unlock     (* release_write_lock: before ReleaseMutex(write_mutex) *)
| ReleaseWrite_event.     (* before SetEvent(read_event) *)

Global Instance pc_eq_dec : EqDecision pc.
Proof. solve_decision. Defined.

Definition thread_step (o : gate_op) (p : pc) (g : gate) : option (pc * gate) :=
  match o, p with
  | acquire_read, Idle => Some (AcquireRead_mutex, g)
  | acquire_read, AcquireRead_mutex =>
      g' ← returns Wait_write_mutex g; Some (AcquireRead_incr, g')
  | acquire_read, AcquireRead_incr =>
      g' ← returns (add_reader_count 1) g; Some (AcquireRead_test, g')
  | acquire_read, AcquireRead_test =>
      if (reader_count g =? 1)%Z then Some (AcquireRead_event, g)
      else Some (AcquireRead_unlock, g)
  | acquire_read, AcquireRead_event =>
      g' ← returns Wait_read_event g; Some (AcquireRead_unlock, g')
  | acquire_read, AcquireRead_unlock =>
      g' ← returns ReleaseMutex g; Some (Reading, g')
  | release_read, Reading => Some (ReleaseRead_mutex, g)
  | release_read, ReleaseRead_mutex =>
      g' ← returns Wait_write_mutex g; Some (ReleaseRead_decr, g')
  | release_read, ReleaseRead_decr =>
      g' ← returns (add_reader_count (-1)) g; Some (ReleaseRead_test, g')
  | release_read, ReleaseRead_test =>
      if (reader_count g =? 0)%Z then Some (ReleaseRead_event, g)
      else Some (ReleaseRead_unlock, g)
  | release_read, ReleaseRead_event =>
      g' ← returns SetEvent g; Some (ReleaseRead_unlock, g')
  | release_read, ReleaseRead_unlock =>
      g' ← returns ReleaseMutex g; Some (Idle, g')
  | acquire_write, Idle => Some (AcquireWrite_event, g)
  | acquire_write, AcquireWrite_event =>
      g' ← returns Wait_read_event g; Some (AcquireWrite_mutex, g')
  | acquire_write, AcquireWrite_mutex =>
      g' ← returns Wait_write_mutex g; Some (Writing, g')
  | release_write, Writing => Some (ReleaseWrite_unlock, g)
  | release_write, ReleaseWrite_unlock =>
      g' ← returns ReleaseMutex g; Some (ReleaseWrite_event, g')
  | release_write, ReleaseWrite_event =>
      g' ← returns SetEvent g; Some (Idle, g')
  | _, _ => None
  end.

Record system := System { shared : gate; threads : list pc }.

Definition step (ev : nat * gate_op) (s : system) : option system :=
  p ← threads s !! ev.1;
  '(p', g') ← thread_step ev.2 p (shared s);
  Some (System g' (<[ev.1:=p']> (threads s))).

Fixpoint exec (sched : list (nat * gate_op)) (s : system) : option system :=
  match sched with
  | [] => Some s
  | ev :: sched' => s' ← step ev s; exec sched' s'
  end.

Definition initial (actors max_readers : nat) : system :=
  System (new_gate max_readers) (replicate actors Idle).

Definition count_pc (p : pc) (ts : list pc) : nat :=
  length (filter (fun q => q = p) ts).

Definition readers (s : system) : nat := count_pc Reading (threads s).
Definition writers (s : system) : nat := count_pc Writing (threads s).

End WinApi.

(** ** threads_test.py *)

Module ThreadsTest.
Import Pickle.

Definition MAX_READERS : nat := 10.
Definition READERS_NUM : Z := 10.
Definition WRITERS_NUM : Z := 20.
Definition DELETERS_NUM : Z := 5.
Definition DATABASE_LENGTH : Z := 20.

(** The messages the harness passes to [logging]; its records are kept
    apart from those of the store. *)
Inductive client_msg :=
| ReaderGot (key : Z) (value : get_result)
| ErrorInReader (key : Z) (e : exn)
| WriterSet (key value : Z)
| ErrorInWriter (key value : Z) (e : exn)
| DeleterRemoved (key : Z)
| DeleterMissed (key : Z)
| ErrorInDeleter (key : Z) (e : exn)
| FinalState (key : Z) (value : get_result)
| ErrorDuringTest (e : exn).

Definition client_entry : Type := level * client_msg.

Record t := mk { sync_db : SynchronizedDatabase.t; client_log : list client_entry }.

Definition set_sync_db (d : SynchronizedDatabase.t) (h : t) : t := mk d (client_log h).

Definition on_db {A} : M SynchronizedDatabase.t A -> M t A := lift sync_db set_sync_db.

Definition logging (l : level) (m : client_msg) : M t unit :=
  modify (fun h => mk (sync_db h) (client_log h ++ [(l, m)])).

Definition reader_work (key : Z) : M t unit :=
  try_except
    (value ← on_db (SynchronizedDatabase.get_value key);
     logging INFO (ReaderGot key value))
    except_Exception
    (fun e => logging ERROR (ErrorInReader key e)).

Definition writer_work (key value : Z) : M t unit :=
  try_except
    (on_db (SynchronizedDatabase.set_value key value);;
     logging INFO (WriterSet key value))
    except_Exception
    (fun e => logging ERROR (ErrorInWriter key value e)).

Definition deleter_work (key : Z) : M t unit :=
  try_except
    (success ← on_db (SynchronizedDatabase.delete_value key);
     if (success : bool) then logging INFO (DeleterRemoved key)
     else logging WARNING (DeleterMissed key))
    except_Exception
    (fun e => logging ERROR (ErrorInDeleter key e)).

(** [threading.Thread(target=..., args=...)]. *)
Inductive thread :=
| Reader (key : Z)
| Writer (key value : Z)
| Deleter (key : Z).

Definition target (th : thread) : M t unit :=
  match th with
  | Reader key => reader_work key
  | Writer key value => writer_work key value
  | Deleter key => deleter_work key
  end.

Definition range (n : Z) : list Z := map Z.of_nat (seq 0 (Z.to_nat n)).

(** [{i: i + 20 for i in range(DATABASE_LENGTH)}]. *)
Definition db : gmap Z Z :=
  list_to_map (map (fun i => (i, i + 20)%Z) (range DATABASE_LENGTH)).

(** The list [threads] the three loops build. *)
Definition threads : list thread :=
  map (fun i => Reader (i mod DATABASE_LENGTH)) (range READERS_NUM) ++
  map (fun i => Writer (i mod (DATABASE_LENGTH / 2) + DATABASE_LENGTH / 2) i)
    (range WRITERS_NUM) ++
  map (fun i => Deleter (i mod DATABASE_LENGTH)) (range DELETERS_NUM).

(** The threads, each run to its end before the next one starts, in the
    order [order]. *)
Fixpoint serially (order : list thread) : M t unit :=
  match order with
  | [] => ret tt
  | th :: rest => target th;; serially rest
  end.

Fixpoint final_state (keys : list Z) : M t unit :=
  match keys with
  | [] => ret tt
  | i :: rest =>
      value ← on_db (SynchronizedDatabase.get_value i);
      logging INFO (FinalState i value);;
      final_state rest
  end.

(** [assert_synchronizer_threading], for the serial runs of its threads:
    [order] is the order in which the started threads get to run. *)
Definition assert_synchronizer_threading (order : list thread) : M t unit :=
  try_except
    (on_db (SynchronizedDatabase.init (PyDict db) false MAX_READERS);;
     serially order;;
     final_state (range DATABASE_LENGTH))
    except_Exception
    (fun e => logging ERROR (ErrorDuringTest e)).

End ThreadsTest.

(** ** prosses_test.py *)

Module ProcessTest.
Import Pickle.

(** [multiprocessing.Process(target=..., args=(sync_db, ...))], started
    and joined: the target runs on the child's copy of the parent's
    object.  The file, the semaphore, the lock and the log are shared with
    the parent; what the child assigns to [self.DB] is lost with it, and
    so is an exception of the target. *)
Definition in_child (target : M ThreadsTest.t unit) : M ThreadsTest.t unit :=
  fun h =>
    let '(o, h') := target h in
    let child := SynchronizedDatabase.fbase (ThreadsTest.sync_db h') in
    let parent := SynchronizedDatabase.fbase (ThreadsTest.sync_db h) in
    (match o with Blocked => Blocked | _ => Return tt end,
     ThreadsTest.mk
       (SynchronizedDatabase.mk
          (FileDatabaseObj
             (Database.mk (Database.DB (base parent)) (Database.log (base child)))
             (file child) (faults child))
          (SynchronizedDatabase.mode (ThreadsTest.sync_db h))
          (SynchronizedDatabase.the_gate (ThreadsTest.sync_db h')))
       (ThreadsTest.client_log h')).

(** The workers are those of threads_test.py, word for word but for
    "process" in place of "thread" in the error messages; the constants
    and the three loops are the same. *)
Fixpoint serially (order : list ThreadsTest.thread) : M ThreadsTest.t unit :=
  match order with
  | [] => ret tt
  | p :: rest => in_child (ThreadsTest.target p);; serially rest
  end.

(** [assert_synchronizer_multiprocessing], for the serial runs of its
    processes. *)
Definition assert_synchronizer_multiprocessing (order : list ThreadsTest.thread) :
    M ThreadsTest.t unit :=
  try_except
    (ThreadsTest.on_db
       (SynchronizedDatabase.init (PyDict ThreadsTest.db) false ThreadsTest.MAX_READERS);;
     serially order;;
     ThreadsTest.final_state (ThreadsTest.range ThreadsTest.DATABASE_LENGTH))
    except_Exception
    (fun e => ThreadsTest.logging ERROR (ThreadsTest.ErrorDuringTest e)).

End ProcessTest.

(** ** Threads that share the store behind the gate

    The threads of the harness, each running its one call on the shared
    object, interleaved: a step is a primitive of the gate, as before,
    or, inside a critical section, one of the calls the [FileDatabase]
    method makes ([self.load_from_file()], the method of [Database],
    [self.save_to_file()]).  The records the gate methods and the workers
    log are not kept. *)

Module Concurrent.
Import Pickle.

(** What a call returns. *)
Inductive reply :=
| Got (value : get_result)
| Did (success : bool).

(** How far a thread is inside the [FileDatabase] method of its call:
    before [self.load_from_file()], after it, with the save pending,
    returned. *)
Inductive progress := Before | Loaded | Saving | Done.

Global Instance progress_eq_dec : EqDecision progress.
Proof. solve_decision. Defined.

Definition acquire_of (th : ThreadsTest.thread) : gate_op :=
  match th with ThreadsTest.Reader _ => acquire_read | _ => acquire_write end.

Definition release_of (th : ThreadsTest.thread) : gate_op :=
  match th with ThreadsTest.Reader _ => release_read | _ => release_write end.

(** The program point between the acquire and the release of a call. *)
Definition section_of (th : ThreadsTest.thread) : pc :=
  match th with ThreadsTest.Reader _ => Reading | _ => Writing end.

(** [history] lists the calls that have returned, in that order, each
    with what it returned. *)
Record world := World {
  gate_system : system;
  shared_store : file_database;
  inside : list progress;
  history : list (ThreadsTest.thread * outcome reply)
}.

Inductive event :=
| Gate (i : nat)      (* thread [i] performs the next primitive of its gate operation *)
| Store (i : nat).    (* thread [i] performs the next call of its FileDatabase method *)

(** The release starts when the method has returned. *)
Definition gate_step (calls : list ThreadsTest.thread) (i : nat) (w : world) : option world :=
  th ← calls !! i;
  pr ← inside w !! i;
  let o := if decide (pr = Done) then release_of th else acquire_of th in
  s' ← step (i, o) (gate_system w);
  Some (World s' (shared_store w) (inside w) (history w)).

(** The method of [Database] a call runs on the reloaded mapping. *)
Definition operate (th : ThreadsTest.thread) : M file_database reply :=
  match th with
  | ThreadsTest.Reader key =>
      value ← FileDatabase.super (Database.get_value key); ret (Got value)
  | ThreadsTest.Writer key value =>
      success ← FileDatabase.super (Database.set_value key value); ret (Did success)
  | ThreadsTest.Deleter key =>
      success ← FileDatabase.super (Database.del_value key); ret (Did success)
  end.

Definition returned (th : ThreadsTest.thread) (o : outcome reply) (i : nat)
    (st : file_database) (w : world) : world :=
  World (gate_system w) st (<[i:=Done]> (inside w)) (history w ++ [(th, o)]).

Definition store_step (calls : list ThreadsTest.thread) (i : nat) (w : world) : option world :=
  th ← calls !! i;
  pr ← inside w !! i;
  p ← threads (gate_system w) !! i;
  if decide (p = section_of th) then
    match pr with
    | Before =>
        match FileDatabase.load_from_file (shared_store w) with
        | (Return _, st) =>
            Some (World (gate_system w) st (<[i:=Loaded]> (inside w)) (history w))
        | (Raise e, st) => Some (returned th (Raise e) i st w)
        | (Blocked, _) => None
        end
    | Loaded =>
        match operate th (shared_store w) with
        | (Return (Did true), st) =>
            Some (World (gate_system w) st (<[i:=Saving]> (inside w)) (history w))
        | (Blocked, _) => None
        | (o, st) => Some (returned th o i st w)
        end
    | Saving =>
        match FileDatabase.save_to_file (shared_store w) with
        | (Return _, st) => Some (returned th (Return (Did true)) i st w)
        | (Raise e, st) => Some (returned th (Raise e) i st w)
        | (Blocked, _) => None
        end
    | Done => None
    end
  else None.

Definition step_world (calls : list ThreadsTest.thread) (ev : event) (w : world) :
    option world :=
  match ev with
  | Gate i => gate_step calls i w
  | Store i => store_step calls i w
  end.

Fixpoint run (calls : list ThreadsTest.thread) (sched : list event) (w : world) :
    option world :=
  match sched with
  | [] => Some w
  | ev :: sched' => w' ← step_world calls ev w; run calls sched' w'
  end.

(** All the threads idle, none started, on the store [st]. *)
Definition start (calls : list ThreadsTest.thread) (max_readers : nat)
    (st : file_database) : world :=
  World (initial (length calls) max_readers) st (replicate (length calls) Before) [].

(** Every thread has returned and released the gate. *)
Definition finished (calls : list ThreadsTest.thread) (w : world) : Prop :=
  threads (gate_system w) = replicate (length calls) Idle /\
  inside w = replicate (length calls) Done.

End Concurrent.

(** ** Observations used to state the properties *)

(** What a log record reports: a reload, an operation of the in-memory
    store, a save, or something else. *)
Inductive record_kind := LoadRecord | StoreRecord | SaveRecord | OtherRecord.

Definition kind (e : entry) : record_kind :=
  match e.2 with
  | DatabaseLoaded | ErrorLoading _ => LoadRecord
  | DatabaseSaved | ErrorSaving _ => SaveRecord
  | ValueSet _ _ | ErrorSettingValue _ _ | FetchedValue _ _ | KeyNotFound _
  | DeletedKey _ | KeyNotFoundForDeletion _ => StoreRecord
  | _ => OtherRecord
  end.

(** The records a public operation may leave, by kind: the reload first,
    then the store operation if it returned, then the save when the
    operation mutates and the store operation answered [True]. *)
Definition expected_trace {A} (mutating : bool) (success : A -> bool)
    (o : outcome A) : list record_kind :=
  LoadRecord ::
  match o with
  | Return a => StoreRecord :: (if mutating && success a then [SaveRecord] else [])
  | _ => []
  end.

(** An operation keeps the persistence discipline when, from every
    state, the records it adds to the log are of these kinds, in this
    order. *)
Definition discipline {A} (mutating : bool) (success : A -> bool)
    (m : M file_database A) : Prop :=
  forall s, exists recs,
    Database.log (base (m s).2) = Database.log (base s) ++ recs /\
    map kind recs = expected_trace mutating success (m s).1.

(** The failure a reload meets in a given state, if any: the system
    refuses the file, the file is missing, or its content does not
    unpickle. *)
Definition pickle_load_failure (s : file_database) : option exn :=
  match faults s with
  | true :: _ => Some OSError
  | _ =>
      match file s with
      | None => Some FileNotFoundError
      | Some Empty => Some EOFError
      | Some Garbage => Some UnpicklingError
      | Some (Pickled _) => None
      end
  end.

Definition win32_load_failure (s : file_database) : option exn :=
  match faults s with
  | true :: _ => Some (PyWinError WinApi.ERROR_SHARING_VIOLATION)
  | _ =>
      match file s with
      | None => Some (PyWinError WinApi.ERROR_FILE_NOT_FOUND)
      | Some Garbage => Some UnpicklingError
      | Some Empty | Some (Pickled _) => None
      end
  end.

(** The state a failed reload leaves: one error record more, one attempt
    on the file used up, the mapping and the file as they were. *)
Definition after_failed_load (e : exn) (s : file_database) : file_database :=
  FileDatabaseObj
    (Database.mk (Database.DB (base s))
       (Database.log (base s) ++ [(ERROR, ErrorLoading e)]))
    (file s) (tail (faults s)).

(** The state a reload of file_Database.py leaves: when the attempt is
    not refused and the file holds the pickle of an object, that object
    replaces [DB]; otherwise [DB] stays.  One record is logged, one
    attempt on the file is used up, the file is as it was. *)
Definition pickle_reloaded (s : file_database) : file_database :=
  match pickle_load_failure s with
  | Some e => after_failed_load e s
  | None =>
      FileDatabaseObj
        (Database.mk
           (match file s with Some (Pickled o) => Some o | _ => Database.DB (base s) end)
           (Database.log (base s) ++ [(INFO, DatabaseLoaded)]))
        (file s) (tail (faults s))
  end.

(** The same for winapi.py, where an empty file gives the empty
    mapping. *)
Definition win32_reloaded (s : file_database) : file_database :=
  match win32_load_failure s with
  | Some e => after_failed_load e s
  | None =>
      FileDatabaseObj
        (Database.mk
           (match file s with Some (Pickled o) => Some o | _ => Some (PyDict ∅) end)
           (Database.log (base s) ++ [(INFO, DatabaseLoaded)]))
        (file s) (tail (faults s))
  end.

(** The state a save of file_Database.py leaves: when the attempt is not
    refused the file holds the pickle of the object in memory, whatever
    it held; a refused attempt leaves the file as it was.  ([open] has
    truncated the file when [self.DB] turns out to be unassigned.) *)
Definition pickle_saved (s : file_database) : file_database :=
  match faults s with
  | true :: fl =>
      FileDatabaseObj
        (Database.mk (Database.DB (base s))
           (Database.log (base s) ++ [(ERROR, ErrorSaving OSError)]))
        (file s) fl
  | _ =>
      match Database.DB (base s) with
      | Some db =>
          FileDatabaseObj
            (Database.mk (Some db) (Database.log (base s) ++ [(INFO, DatabaseSaved)]))
            (Some (Pickled db)) (tail (faults s))
      | None =>
          FileDatabaseObj
            (Database.mk None
               (Database.log (base s) ++ [(ERROR, ErrorSaving AttributeError)]))
            (Some Empty) (tail (faults s))
      end
  end.

(** The same for winapi.py, which opens the file with OPEN_EXISTING: a
    missing file is not created. *)
Definition win32_saved (s : file_database) : file_database :=
  let failed e :=
    FileDatabaseObj
      (Database.mk (Database.DB (base s))
         (Database.log (base s) ++ [(ERROR, ErrorSaving e)]))
      (file s) (tail (faults s)) in
  match faults s with
  | true :: _ => failed (PyWinError WinApi.ERROR_SHARING_VIOLATION)
  | _ =>
      match file s, Database.DB (base s) with
      | None, _ => failed (PyWinError WinApi.ERROR_FILE_NOT_FOUND)
      | Some _, None => failed AttributeError
      | Some _, Some db =>
          FileDatabaseObj
            (Database.mk (Some db) (Database.log (base s) ++ [(INFO, DatabaseSaved)]))
            (Some (Pickled db)) (tail (faults s))
      end
  end.

(** An operation follows the persistence discipline when, from every
    state, it is made of these three steps: the reload; then the
    operation [inner] of the in-memory store, on the object the reload
    left in memory; then the save, exactly when the operation mutates and
    [inner] answered [True].  It answers (or raises) what [inner] does. *)
Definition follows_discipline {A} (reloaded saved : file_database -> file_database)
    (mutating : bool) (success : A -> bool) (inner : M Database.t A)
    (m : M file_database A) : Prop :=
  forall s,
    let s1 := reloaded s in
    let r := inner (base s1) in
    let s2 := set_base r.2 s1 in
    m s =
    (r.1,
     if mutating && match r.1 with Return a => success a | _ => false end
     then saved s2 else s2).

(** A store whose visible mapping is [m], in an environment that refuses
    nothing: the snapshot holds [m], or there is no snapshot and the
    object holds [m] in memory. *)
Definition holds_mapping (m : gmap Z Z) (s : file_database) : Prop :=
  faults s = [] /\
  match file s with
  | Some b => b = Pickled (PyDict m)
  | None => Database.DB (base s) = Some (PyDict m)
  end.

(** The object before [__init__] runs, with the file and the log it
    finds; no attempt on the file will be refused. *)
Definition fresh (f : option blob) (l : list entry) : file_database :=
  FileDatabaseObj (Database.mk None l) f [].

(** A call that ends, by returning or by raising, leaves the gate as it
    found it, and the last record of the log is the one of the release. *)
Definition releases_gate {T G A} (gate_of : T -> G) (log_of : T -> list entry)
    (release_record : entry) (m : M T A) : Prop :=
  forall s o s', m s = (o, s') -> o <> Blocked ->
    gate_of s' = gate_of s /\ last (log_of s') = Some release_record.

Definition pickle_log (s : Pickle.SynchronizedDatabase.t) : list entry :=
  Database.log (base (Pickle.SynchronizedDatabase.fbase s)).
Definition win32_log (s : WinApi.SynchronizedDatabase.t) : list entry :=
  Database.log (base (WinApi.SynchronizedDatabase.fbase s)).

(** A call on a gate that lets the caller in does end. *)
Definition exits_when {T G A} (gate_of : T -> G) (free : G -> bool) (m : M T A) : Prop :=
  forall s, free (gate_of s) = true -> (m s).1 <> Blocked.

(** When a gate lets a lone reader, respectively writer, in: a unit is
    left; the lock is free and [max_readers] units are left; the mutex is
    free and the event is set or readers are counted already; the mutex
    is free and the event is set. *)
Definition pickle_read_free (g : Pickle.gate) : bool :=
  bool_decide (0 < Pickle.semaphore g).
Definition pickle_write_free (g : Pickle.gate) : bool :=
  negb (Pickle.write_lock g) && bool_decide (Pickle.max_readers g <= Pickle.semaphore g).
Definition win32_read_free (g : WinApi.gate) : bool :=
  negb (WinApi.write_mutex g) &&
  (WinApi.read_event g || negb (bool_decide (WinApi.reader_count g = 0%Z))).
Definition win32_write_free (g : WinApi.gate) : bool :=
  negb (WinApi.write_mutex g) && WinApi.read_event g.

(** A call is scoped by [acquire] and [release] when every run of it that
    ends, by returning or by raising, is made of these three steps: the
    acquire, which returns with the gate held; the protected operation
    [body], which ends the way the call ends and does not touch the gate;
    the release, run on the state [body] left, which returns and gives
    the gate back as the call found it. *)
Definition scoped_by {T G A} (gate_of : T -> G) (acquire release : M T unit)
    (held : G -> G -> Prop) (body m : M T A) : Prop :=
  forall s o s', m s = (o, s') -> o <> Blocked ->
    exists s1 s2,
      acquire s = (Return tt, s1) /\ held (gate_of s) (gate_of s1) /\
      body s1 = (o, s2) /\ gate_of s2 = gate_of s1 /\
      release s2 = (Return tt, s') /\ gate_of s' = gate_of s.

(** The gate [g1] a reader, respectively a writer, holds once it has got
    through the gate [g]: one unit taken; the lock and [max_readers]
    units taken; one reader more counted, the signal consumed by the
    first; the signal consumed and the mutex owned. *)
Definition pickle_read_held (g g1 : Pickle.gate) : Prop :=
  0 < Pickle.semaphore g /\
  g1 = Pickle.Gate (Pickle.semaphore g - 1) (Pickle.write_lock g) (Pickle.max_readers g).

Definition pickle_write_held (g g1 : Pickle.gate) : Prop :=
  Pickle.write_lock g = false /\ Pickle.max_readers g <= Pickle.semaphore g /\
  g1 = Pickle.Gate (Pickle.semaphore g - Pickle.max_readers g) true (Pickle.max_readers g).

Definition win32_read_held (g g1 : WinApi.gate) : Prop :=
  WinApi.write_mutex g = false /\
  (WinApi.reader_count g = 0%Z -> WinApi.read_event g = true) /\
  g1 = WinApi.Gate (if (WinApi.reader_count g =? 0)%Z then false else WinApi.read_event g)
         false (WinApi.reader_count g + 1) (WinApi.max_readers g).

Definition win32_write_held (g g1 : WinApi.gate) : Prop :=
  WinApi.read_event g = true /\ WinApi.write_mutex g = false /\
  g1 = WinApi.Gate false true (WinApi.reader_count g) (WinApi.max_readers g).

(** Updates of a [SynchronizedDatabase] of sync_Database.py: one more log
    record. *)
Definition pickle_logged (e : entry) (s : Pickle.SynchronizedDatabase.t) :
    Pickle.SynchronizedDatabase.t :=
  Pickle.SynchronizedDatabase.mk
    (FileDatabaseObj
       (Database.mk (Database.DB (base (Pickle.SynchronizedDatabase.fbase s)))
          (Database.log (base (Pickle.SynchronizedDatabase.fbase s)) ++ [e]))
       (file (Pickle.SynchronizedDatabase.fbase s))
       (faults (Pickle.SynchronizedDatabase.fbase s)))
    (Pickle.SynchronizedDatabase.mode s)
    (Pickle.SynchronizedDatabase.the_gate s).

(** Updates of a [SynchronizedDatabase] of winapi.py: one more log
    record. *)
Definition win32_logged (e : entry) (s : WinApi.SynchronizedDatabase.t) :
    WinApi.SynchronizedDatabase.t :=
  WinApi.SynchronizedDatabase.mk
    (FileDatabaseObj
       (Database.mk (Database.DB (base (WinApi.SynchronizedDatabase.fbase s)))
          (Database.log (base (WinApi.SynchronizedDatabase.fbase s)) ++ [e]))
       (file (WinApi.SynchronizedDatabase.fbase s))
       (faults (WinApi.SynchronizedDatabase.fbase s)))
    (WinApi.SynchronizedDatabase.the_gate s).

(** A store whose file holds the pickle of an object that is no mapping,
    behind a free gate. *)
Definition pickle_store_of_other : Pickle.SynchronizedDatabase.t :=
  Pickle.SynchronizedDatabase.mk
    (FileDatabaseObj (Database.mk (Some (PyDict ∅)) []) (Some (Pickled PyOther)) [])
    true (Pickle.new_gate 2).

Definition win32_store_of_other : WinApi.SynchronizedDatabase.t :=
  WinApi.SynchronizedDatabase.mk
    (FileDatabaseObj (Database.mk (Some (PyDict ∅)) []) (Some (Pickled PyOther)) [])
    (WinApi.new_gate 2).

Definition b2n (b : bool) : nat := if b then 1 else 0.

Module PickleInvariant.
Import Pickle.

(** Units of the semaphore an actor holds at a program point. *)
Definition units (N : nat) (p : pc) : nat :=
  match p with
  | Reading | ReleaseRead_semaphore => 1
  | AcquireWrite_loop k => k
  | Writing => N
  | ReleaseWrite_loop k => N - k
  | _ => 0
  end.

(** Whether an actor holds the lock at a program point. *)
Definition holder (p : pc) : nat :=
  match p with
  | AcquireWrite_loop _ | Writing | ReleaseWrite_loop _ | ReleaseWrite_lock => 1
  | _ => 0
  end.

Definition in_range (N : nat) (p : pc) : Prop :=
  match p with
  | AcquireWrite_loop k | ReleaseWrite_loop k => k <= N
  | _ => True
  end.

(** The invariant of the semaphore/lock gate: every unit is in the
    semaphore or with an actor, and the lock is with at most one. *)
Definition inv (s : system) : Prop :=
  let g := shared s in
  semaphore g + sum_list_with (units (max_readers g)) (threads s) = max_readers g /\
  sum_list_with holder (threads s) = b2n (write_lock g) /\
  Forall (in_range (max_readers g)) (threads s).

End PickleInvariant.

Module Win32Invariant.
Import WinApi.

(** 1 when the two program points are the same one, else 0. *)
Definition at_pc (p r : pc) : nat := if decide (p = r) then 1 else 0.

(** The invariant of the event/mutex gate, over the number of actors at
    each program point. *)
Definition inv (s : system) : Prop :=
  let n p := count_pc p (threads s) in
  let g := shared s in
  (* the mutex has one owner, who is between its wait and its release *)
  n AcquireRead_incr + n AcquireRead_test + n AcquireRead_event +
    n AcquireRead_unlock + n ReleaseRead_decr + n ReleaseRead_test +
    n ReleaseRead_event + n ReleaseRead_unlock + n Writing +
    n ReleaseWrite_unlock = b2n (write_mutex g) /\
  (* the counter counts the actors between the increment and the decrement *)
  reader_count g =
    Z.of_nat (n AcquireRead_test + n AcquireRead_event + n AcquireRead_unlock +
              n Reading + n ReleaseRead_mutex + n ReleaseRead_decr) /\
  (* the signal is with the event, with one writer, or with the readers *)
  (let readers_in := n AcquireRead_unlock + n Reading + n ReleaseRead_mutex +
                     n ReleaseRead_decr + n ReleaseRead_test + n ReleaseRead_event in
   let writers_in := n AcquireWrite_mutex + n Writing + n ReleaseWrite_unlock +
                     n ReleaseWrite_event in
   (readers_in = 0 -> writers_in + b2n (read_event g) = 1) /\
   (0 < readers_in -> writers_in + b2n (read_event g) = 0)) /\
  (0 < n ReleaseRead_event -> reader_count g = 0%Z) /\
  (0 < n AcquireRead_event -> reader_count g = 1%Z).

End Win32Invariant.

(** ** Observations used to state the further properties *)

(** What [get_value] answers on a mapping. *)
Definition answer (m : gmap Z Z) (key : Z) : get_result :=
  match m !! key with
  | Some v => Value v
  | None => DoesntExist
  end.

(** The snapshot holds exactly the object the store has in memory. *)
Definition snapshot_is_memory (s : file_database) : Prop :=
  exists db, Database.DB (base s) = Some db /\ file s = Some (Pickled db).

Definition last_record (s : file_database) : option entry :=
  last (Database.log (base s)).

(** A mutation that answered [True] is either saved, and the snapshot is
    then the object in memory, or its save failed, and the file is as the
    operation found it. *)
Definition persisted_or_untouched (before : file_database)
    (r : outcome bool * file_database) : Prop :=
  r.1 = Return true ->
  (last_record r.2 = Some (INFO, DatabaseSaved) /\ snapshot_is_memory r.2) \/
  ((exists e, last_record r.2 = Some (ERROR, ErrorSaving e)) /\ file r.2 = file before).

(** Another object on the same file: its own memory and log, the file as
    [s] leaves it, nothing refused. *)
Definition other_object (b : Database.t) (s : file_database) : file_database :=
  FileDatabaseObj b (file s) [].

(** The state a scoped call of sync_Database.py leaves on a gate that lets
    the caller in: the acquisition is logged, the protected operation
    runs on the store, the release is logged, the gate is as before. *)
Definition pickle_scoped {A} (acquire release : entry) (body : M file_database A)
    (s : Pickle.SynchronizedDatabase.t) : outcome A * Pickle.SynchronizedDatabase.t :=
  let r := body (Pickle.SynchronizedDatabase.fbase (pickle_logged acquire s)) in
  (r.1,
   pickle_logged release
     (Pickle.SynchronizedDatabase.mk r.2 (Pickle.SynchronizedDatabase.mode s)
        (Pickle.SynchronizedDatabase.the_gate s))).

(** The same for winapi.py, where the acquisition is logged once it is
    made and the release once it is done. *)
Definition win32_scoped {A} (acquire release : entry) (body : M file_database A)
    (s : WinApi.SynchronizedDatabase.t) : outcome A * WinApi.SynchronizedDatabase.t :=
  let r := body (WinApi.SynchronizedDatabase.fbase (win32_logged acquire s)) in
  (r.1,
   win32_logged release
     (WinApi.SynchronizedDatabase.mk r.2 (WinApi.SynchronizedDatabase.the_gate s))).

(** An actor that is inside a gate operation or a critical section. *)
Definition pickle_busy (p : Pickle.pc) : Prop := p <> Pickle.Idle.

(** Whether an actor at this program point is past every wait of the
    operation it is in. *)
Definition pickle_past_waits (p : Pickle.pc) : nat :=
  match p with
  | Pickle.Reading | Pickle.ReleaseRead_semaphore | Pickle.Writing
  | Pickle.ReleaseWrite_loop _ | Pickle.ReleaseWrite_lock => 1
  | _ => 0
  end.

Definition pickle_draining (p : Pickle.pc) : nat :=
  match p with Pickle.AcquireWrite_loop _ => 1 | _ => 0 end.

(** The events of one actor that runs one gate operation [n] steps
    long. *)
Definition alone (j : nat) (o : gate_op) (n : nat) : list (nat * gate_op) :=
  replicate n (j, o).

(** The gate after [j] readers have entered. *)
Definition win32_entered (j N : nat) : WinApi.gate :=
  WinApi.Gate (bool_decide (j = 0)) false (Z.of_nat j) N.

(** What a thread of the harness does to a mapping, and the record it
    leaves when it finds that mapping. *)
Definition effect (th : ThreadsTest.thread) (m : gmap Z Z) : gmap Z Z :=
  match th with
  | ThreadsTest.Reader _ => m
  | ThreadsTest.Writer key value => <[key:=value]> m
  | ThreadsTest.Deleter key => delete key m
  end.

Definition record_of (th : ThreadsTest.thread) (m : gmap Z Z) : ThreadsTest.client_entry :=
  match th with
  | ThreadsTest.Reader key => (INFO, ThreadsTest.ReaderGot key (answer m key))
  | ThreadsTest.Writer key value => (INFO, ThreadsTest.WriterSet key value)
  | ThreadsTest.Deleter key =>
      match m !! key with
      | Some _ => (INFO, ThreadsTest.DeleterRemoved key)
      | None => (WARNING, ThreadsTest.DeleterMissed key)
      end
  end.

Fixpoint effects (order : list ThreadsTest.thread) (m : gmap Z Z) : gmap Z Z :=
  match order with
  | [] => m
  | th :: rest => effects rest (effect th m)
  end.

Fixpoint records_of (order : list ThreadsTest.thread) (m : gmap Z Z) :
    list ThreadsTest.client_entry :=
  match order with
  | [] => []
  | th :: rest => record_of th m :: records_of rest (effect th m)
  end.

(** The last write to [k] among the threads of [order]: [Some (Some v)]
    for a writer of [v], [Some None] for a deleter, [None] when no thread
    writes to [k]. *)
Fixpoint last_write (k : Z) (order : list ThreadsTest.thread) : option (option Z) :=
  match order with
  | [] => None
  | th :: rest =>
      match last_write k rest with
      | Some w => Some w
      | None =>
          match th with
          | ThreadsTest.Writer key value =>
              if decide (key = k) then Some (Some value) else None
          | ThreadsTest.Deleter key =>
              if decide (key = k) then Some None else None
          | ThreadsTest.Reader _ => None
          end
      end
  end.

(** A store of sync_Database.py behind a gate that lets a reader and a
    writer in, whose visible mapping is [m]. *)
Definition serves (m : gmap Z Z) (s : Pickle.SynchronizedDatabase.t) : Prop :=
  pickle_read_free (Pickle.SynchronizedDatabase.the_gate s) = true /\
  pickle_write_free (Pickle.SynchronizedDatabase.the_gate s) = true /\
  holds_mapping m (Pickle.SynchronizedDatabase.fbase s).

(** Where a thread of the harness leaves the file: holding the mapping
    it made; a reader and a deleter that removed nothing leave it as it
    was. *)
Definition persisted_effect (th : ThreadsTest.thread) (m : gmap Z Z)
    (before after : option blob) : Prop :=
  match th with
  | ThreadsTest.Writer _ _ => after = Some (Pickled (PyDict (effect th m)))
  | _ =>
      after = Some (Pickled (PyDict (effect th m))) \/
      after = before /\ effect th m = m
  end.

Definition has_writer (order : list ThreadsTest.thread) : Prop :=
  exists key value, ThreadsTest.Writer key value ∈ order.

(** The actors of a stuck event/mutex gate: a writer that waits for the
    mutex, the first reader that waits for the event, and [k] readers
    that wait for the mutex, [r] actors being idle still. *)
Definition win32_stuck (k r : nat) : list WinApi.pc :=
  [WinApi.AcquireWrite_mutex; WinApi.AcquireRead_event] ++
  replicate k WinApi.AcquireRead_mutex ++ replicate r WinApi.Idle.

(** The mapping every serial run of the harness ends with. *)
Definition outcome_of_threads (m : gmap Z Z) : Prop :=
  forall k : Z,
    ((0 <= k < 5)%Z -> m !! k = None) /\
    ((5 <= k < 10)%Z -> m !! k = Some (k + 20)%Z) /\
    ((10 <= k < 20)%Z -> m !! k = Some (k - 10)%Z \/ m !! k = Some k) /\
    ((k < 0 \/ 20 <= k)%Z -> m !! k = None).

(** What a call returns when it finds the mapping [m]. *)
Definition reply_of (th : ThreadsTest.thread) (m : gmap Z Z) : outcome Concurrent.reply :=
  Return match th with
         | ThreadsTest.Reader key => Concurrent.Got (answer m key)
         | ThreadsTest.Writer _ _ => Concurrent.Did true
         | ThreadsTest.Deleter key => Concurrent.Did (bool_decide (is_Some (m !! key)))
         end.

(** What the calls of [order] return when they run one after another
    from the mapping [m]. *)
Fixpoint replies_of (order : list ThreadsTest.thread) (m : gmap Z Z) :
    list (outcome Concurrent.reply) :=
  match order with
  | [] => []
  | th :: rest => reply_of th m :: replies_of rest (effect th m)
  end.

(** The mapping the calls that have returned leave. *)
Definition mapping_now (m : gmap Z Z) (w : Concurrent.world) : gmap Z Z :=
  effects (map fst (Concurrent.history w)) m.

(** The file holds [m], or there is no file; nothing is refused. *)
Definition file_holds (m : gmap Z Z) (st : file_database) : Prop :=
  faults st = [] /\ (file st = Some (Pickled (PyDict m)) \/ file st = None).

Definition in_method (pr : Concurrent.progress) : Prop :=
  pr = Concurrent.Loaded \/ pr = Concurrent.Saving.

(** The invariant of the threads that share the store: the one of the
    gate; a thread inside its method is inside its critical section; the
    store serves the mapping the returned calls leave, a writer that has
    not saved yet having its own mapping in memory; the calls returned
    what they return one after another. *)
Definition concurrent_inv (calls : list ThreadsTest.thread) (m : gmap Z Z)
    (w : Concurrent.world) : Prop :=
  let st := Concurrent.shared_store w in
  PickleInvariant.inv (Concurrent.gate_system w) /\
  length (Concurrent.inside w) = length calls /\
  (forall i th pr,
     calls !! i = Some th -> Concurrent.inside w !! i = Some pr -> in_method pr ->
     Pickle.threads (Concurrent.gate_system w) !! i = Some (Concurrent.section_of th)) /\
  ((forall i, Concurrent.inside w !! i <> Some Concurrent.Saving) ->
   holds_mapping (mapping_now m w) st) /\
  (forall i th,
     calls !! i = Some th -> Concurrent.inside w !! i = Some Concurrent.Saving ->
     Concurrent.section_of th = Pickle.Writing /\
     file_holds (mapping_now m w) st /\
     Database.DB (base st) = Some (PyDict (effect th (mapping_now m w))) /\
     reply_of th (mapping_now m w) = Return (Concurrent.Did true)) /\
  (forall i,
     Concurrent.inside w !! i = Some Concurrent.Loaded ->
     Database.DB (base st) = Some (PyDict (mapping_now m w))) /\
  map snd (Concurrent.history w) = replies_of (map fst (Concurrent.history w)) m.

(** The threads that have returned are those of the history. *)
Definition history_inv (calls : list ThreadsTest.thread) (w : Concurrent.world) : Prop :=
  exists ids : list nat,
    NoDup ids /\
    (forall i, i ∈ ids <-> Concurrent.inside w !! i = Some Concurrent.Done) /\
    Forall2 (fun i e => calls !! i = Some e.1) ids (Concurrent.history w).

(** The program points at which a thread that is this far inside its
    method can be. *)
Definition phase_ok (th : ThreadsTest.thread) (pr : Concurrent.progress) (p : Pickle.pc) :
    Prop :=
  match pr with
  | Concurrent.Before =>
      match th, p with
      | ThreadsTest.Reader _, (Pickle.Idle | Pickle.AcquireRead_semaphore | Pickle.Reading) =>
          True
      | (ThreadsTest.Writer _ _ | ThreadsTest.Deleter _),
        (Pickle.Idle | Pickle.AcquireWrite_lock | Pickle.AcquireWrite_loop _ | Pickle.Writing) =>
          True
      | _, _ => False
      end
  | Concurrent.Loaded | Concurrent.Saving => p = Concurrent.section_of th
  | Concurrent.Done =>
      match th, p with
      | ThreadsTest.Reader _, (Pickle.Reading | Pickle.ReleaseRead_semaphore | Pickle.Idle) =>
          True
      | (ThreadsTest.Writer _ _ | ThreadsTest.Deleter _),
        (Pickle.Writing | Pickle.ReleaseWrite_loop _ | Pickle.ReleaseWrite_lock | Pickle.Idle) =>
          True
      | _, _ => False
      end
  end.

Definition phase_inv (calls : list ThreadsTest.thread) (w : Concurrent.world) : Prop :=
  length (Pickle.threads (Concurrent.gate_system w)) = length calls /\
  forall i th pr p,
    calls !! i = Some th -> Concurrent.inside w !! i = Some pr ->
    Pickle.threads (Concurrent.gate_system w) !! i = Some p -> phase_ok th pr p.

(** The steps a thread has left, at most: the primitives of its release
    once its method has returned; before, those of its acquire, the calls
    of its method and the whole release. *)
Definition release_steps (N : nat) (th : ThreadsTest.thread) : nat :=
  match th with ThreadsTest.Reader _ => 2 | _ => N + 3 end.

Definition steps_left (N : nat) (th : ThreadsTest.thread) (pr : Concurrent.progress)
    (p : Pickle.pc) : nat :=
  match pr with
  | Concurrent.Done =>
      match p with
      | Pickle.Reading => 2
      | Pickle.ReleaseRead_semaphore => 1
      | Pickle.Writing => N + 3
      | Pickle.ReleaseWrite_loop k => (N - k) + 2
      | Pickle.ReleaseWrite_lock => 1
      | _ => 0
      end
  | _ =>
      match p with
      | Pickle.Idle => release_steps N th
      | Pickle.AcquireRead_semaphore => 1
      | Pickle.AcquireWrite_lock => N + 2
      | Pickle.AcquireWrite_loop k => (N - k) + 1
      | _ => 0
      end +
      match pr with
      | Concurrent.Before => 3
      | Concurrent.Loaded => 2
      | Concurrent.Saving => 1
      | Concurrent.Done => 0
      end +
      release_steps N th
  end.

Fixpoint steps_left_all (N : nat) (calls : list ThreadsTest.thread)
    (prs : list Concurrent.progress) (ps : list Pickle.pc) : nat :=
  match calls, prs, ps with
  | th :: calls', pr :: prs', p :: ps' =>
      steps_left N th pr p + steps_left_all N calls' prs' ps'
  | _, _, _ => 0
  end.

Definition steps_of (calls : list ThreadsTest.thread) (w : Concurrent.world) : nat :=
  steps_left_all (Pickle.max_readers (Pickle.shared (Concurrent.gate_system w))) calls
    (Concurrent.inside w) (Pickle.threads (Concurrent.gate_system w)).

(** What holds of every world the threads reach from a store that serves
    [m], on a gate of [N] units. *)
Definition ready (calls : list ThreadsTest.thread) (m : gmap Z Z) (N : nat)
    (w : Concurrent.world) : Prop :=
  concurrent_inv calls m w /\ phase_inv calls w /\
  Pickle.max_readers (Pickle.shared (Concurrent.gate_system w)) = N.

(** A writer, a reader and a deleter of an absent key on a gate of two
    slots: the reader is inside while the writer collects the slots. *)
Definition sample_calls : list ThreadsTest.thread :=
  [ThreadsTest.Writer 1 5; ThreadsTest.Reader 1; ThreadsTest.Deleter 7]%Z.

Definition sample_store : file_database :=
  FileDatabaseObj (Database.mk None []) (Some (Pickled (PyDict {[1%Z := 10%Z]}))) [].

Definition sample_schedule : list Concurrent.event :=
  [Concurrent.Gate 1; Concurrent.Gate 0; Concurrent.Gate 2; Concurrent.Gate 1;
   Concurrent.Gate 0; Concurrent.Gate 0; Concurrent.Store 1; Concurrent.Store 1;
   Concurrent.Gate 1; Concurrent.Gate 1; Concurrent.Gate 0; Concurrent.Gate 0] ++
  replicate 3 (Concurrent.Store 0) ++ replicate 5 (Concurrent.Gate 0) ++
  replicate 4 (Concurrent.Gate 2) ++ replicate 2 (Concurrent.Store 2) ++
  replicate 5 (Concurrent.Gate 2).

(** The ten readers inside together, then the writers and the deleters
    one by one. *)
Definition readers_together : list Concurrent.event :=
  map Concurrent.Gate (seq 0 35) ++
  map Concurrent.Gate (seq 0 10) ++
  map Concurrent.Store (seq 0 10) ++ map Concurrent.Store (seq 0 10) ++
  map Concurrent.Gate (seq 0 10) ++ map Concurrent.Gate (seq 0 10) ++
  flat_map (fun i => replicate 12 (Concurrent.Gate i) ++ replicate 3 (Concurrent.Store i) ++
                     replicate 13 (Concurrent.Gate i)) (seq 10 25).

(** * Properties *)

(** Unfolding the monad down to plain pattern matching. *)
Ltac unfold_monad :=
  unfold mbind, mret, M_bind, M_ret, bind, ret, raise, block, gets, modify,
    try_except, try_finally, lift, except_Exception, except_KeyError in *.

Ltac unfold_database :=
  unfold Database.set_value, Database.get_value, Database.del_value,
    Database.init, Database.logging, Database.assign_DB, Database.self_DB,
    Database.eval in *.

(** ** The in-memory store *)

Section DatabaseFacts.

Implicit Types (d : gmap Z Z) (key val : Z) (l : list entry).

Lemma set_value_dict d key val l :
  Database.set_value key val (Database.mk (Some (PyDict d)) l) =
  (Return true,
   Database.mk (Some (PyDict (<[key:=val]> d))) (l ++ [(INFO, ValueSet key val)])).
Proof. reflexivity. Qed.

Lemma get_value_dict d key l :
  Database.get_value key (Database.mk (Some (PyDict d)) l) =
  match d !! key with
  | Some v => (Return (Value v),
               Database.mk (Some (PyDict d)) (l ++ [(INFO, FetchedValue key v)]))
  | None => (Return DoesntExist,
             Database.mk (Some (PyDict d)) (l ++ [(WARNING, KeyNotFound key)]))
  end.
Proof.
  unfold_database; unfold_monad; simpl.
  destruct (d !! key); reflexivity.
Qed.

Lemma del_value_dict d key l :
  Database.del_value key (Database.mk (Some (PyDict d)) l) =
  match d !! key with
  | Some _ => (Return true,
               Database.mk (Some (PyDict (delete key d))) (l ++ [(INFO, DeletedKey key)]))
  | None => (Return false,
             Database.mk (Some (PyDict d)) (l ++ [(WARNING, KeyNotFoundForDeletion key)]))
  end.
Proof.
  unfold_database; unfold_monad; simpl.
  destruct (d !! key); reflexivity.
Qed.

(** [set_value] answers [True] only on a [dict]. *)
Lemma set_value_true_inv (s s' : Database.t) key val :
  Database.set_value key val s = (Return true, s') ->
  exists d, Database.DB s = Some (PyDict d) /\
            s' = Database.mk (Some (PyDict (<[key:=val]> d)))
                   (Database.log s ++ [(INFO, ValueSet key val)]).
Proof.
  destruct s as [[[d|]|] l]; unfold_database; unfold_monad; simpl;
    intros H; inversion H; subst.
  exists d. split; reflexivity.
Qed.

(** C6. [del_value] on a mapping returns normally; it answers [True]
    exactly when the key was present, and the mapping afterwards is the
    old one without the key; on an absent key it answers [False] and
    leaves the mapping as it was; a second deletion of the same key
    answers [False]. *)
Theorem del_value_result d key l :
  exists (b : bool) (s' : Database.t),
    Database.del_value key (Database.mk (Some (PyDict d)) l) = (Return b, s') /\
    (b = true <-> is_Some (d !! key)) /\
    Database.DB s' = Some (PyDict (delete key d)) /\
    (b = false -> Database.DB s' = Some (PyDict d)) /\
    exists s'', Database.del_value key s' = (Return false, s'') /\
                Database.DB s'' = Database.DB s'.
Proof.
  rewrite del_value_dict.
  destruct (d !! key) as [v|] eqn:Hk.
  - exists true; eexists; split; [reflexivity|]. simpl.
    split; [split; eauto|]. split; [reflexivity|]. split; [discriminate|].
    rewrite del_value_dict, lookup_delete_eq. eexists; split; reflexivity.
  - exists false; eexists; split; [reflexivity|]. simpl.
    split; [split; [discriminate|intros [? ?]; discriminate]|].
    rewrite delete_id by assumption.
    split; [reflexivity|]. split; [reflexivity|].
    rewrite del_value_dict, Hk. eexists; split; reflexivity.
Qed.

(** C10. When [set_value key val] answers [True], the store held a
    mapping, the mapping afterwards binds [key] to [val], and every other
    key is bound as before. *)
Theorem set_value_frame (s s' : Database.t) key val :
  Database.set_value key val s = (Return true, s') ->
  exists d d',
    Database.DB s = Some (PyDict d) /\
    Database.DB s' = Some (PyDict d') /\
    d' !! key = Some val /\
    forall k, k <> key -> d' !! k = d !! k.
Proof.
  intros H. apply set_value_true_inv in H as (d & Hd & ->).
  exists d, (<[key:=val]> d). simpl. split; [assumption|]. split; [reflexivity|].
  split; [apply lookup_insert_eq|].
  intros k Hk. apply lookup_insert_ne. congruence.
Qed.

Lemma set_value_frame_witness :
  exists d d',
    Database.DB (Database.mk (Some (PyDict {[1%Z := 10%Z; 2%Z := 20%Z]})) []) =
      Some (PyDict d) /\
    Database.DB (Database.mk (Some (PyDict (<[3%Z := 30%Z]> {[1%Z := 10%Z; 2%Z := 20%Z]})))
                   [(INFO, ValueSet 3 30)]) = Some (PyDict d') /\
    d' !! 3%Z = Some 30%Z /\
    forall k, k <> 3%Z -> d' !! k = d !! k.
Proof.
  apply (set_value_frame
           (Database.mk (Some (PyDict {[1%Z := 10%Z; 2%Z := 20%Z]})) [])
           _ 3 30).
  reflexivity.
Defined.

End DatabaseFacts.

(** ** The persisted store *)

Ltac unfold_file_database :=
  unfold Pickle.FileDatabase.set_value, Pickle.FileDatabase.get_value,
    Pickle.FileDatabase.del_value, Pickle.FileDatabase.load_from_file,
    Pickle.FileDatabase.save_to_file, Pickle.FileDatabase.init,
    Pickle.FileDatabase.open_rb, Pickle.FileDatabase.open_wb,
    Pickle.FileDatabase.pickle_dump, Pickle.FileDatabase.logging,
    Pickle.FileDatabase.super,
    WinApi.FileDatabase.set_value, WinApi.FileDatabase.get_value,
    WinApi.FileDatabase.del_value, WinApi.FileDatabase.load_from_file,
    WinApi.FileDatabase.save_to_file, WinApi.FileDatabase.init,
    WinApi.FileDatabase.CreateFile_CREATE_NEW,
    WinApi.FileDatabase.CreateFile_OPEN_EXISTING,
    WinApi.FileDatabase.open_wb, WinApi.FileDatabase.pickle_dump,
    WinApi.FileDatabase.WriteFile_dumps, WinApi.FileDatabase.logging,
    WinApi.FileDatabase.super, next_fault, os_path_exists, pickle_load,
    except_pywintypes_error, set_base, set_file, set_faults in *.

(** Every shape of the coming attempt, of the file and of the mapping in
    memory. *)
Ltac file_database_cases s :=
  destruct s as [[[[?d|]|] ?l] [[|[?d|]|]|] [|[] ?fl]].

Ltac run_file_database :=
  unfold_file_database; unfold_database; unfold_monad; simpl;
  repeat (case_match; simpl in *; simplify_eq; simpl in *); simplify_eq.

Lemma bind_run {S A B} (m : M S A) (k : A -> M S B) (s : S) :
  (m ≫= k) s =
  match m s with
  | (Return a, s') => k a s'
  | (Raise e, s') => (Raise e, s')
  | (Blocked, s') => (Blocked, s')
  end.
Proof. reflexivity. Qed.

(** An operation that starts with a reload, run up to the end of the
    reload; what remains is decided by the mapping then in memory and by
    the fate of the next attempt on the file. *)
Ltac after_load shape s :=
  let db := fresh "db" in
  let e := fresh "e" in
  let H := fresh "Hload" in
  destruct (shape s) as (db & e & H & ?Hkind);
  rewrite bind_run, H; clear H;
  generalize (tail (faults s)) (file s) (Database.log (base s));
  let fl := fresh "fl" in
  let f := fresh "f" in
  let l := fresh "l" in
  intros fl f l;
  destruct db as [[?d|]|], fl as [|[] ?fl].

Section FileDatabaseFacts.

Implicit Types (s : file_database) (key val : Z).

Lemma pickle_load_from_file_eq s :
  Pickle.FileDatabase.load_from_file s =
  (Return tt,
   match pickle_load_failure s with
   | Some e => after_failed_load e s
   | None =>
       match file s with
       | Some (Pickled o) =>
           FileDatabaseObj
             (Database.mk (Some o) (Database.log (base s) ++ [(INFO, DatabaseLoaded)]))
             (file s) (tail (faults s))
       | _ => s
       end
   end).
Proof.
  unfold pickle_load_failure, after_failed_load.
  file_database_cases s; reflexivity.
Qed.

Lemma win32_load_from_file_eq s :
  WinApi.FileDatabase.load_from_file s =
  (Return tt,
   match win32_load_failure s with
   | Some e => after_failed_load e s
   | None =>
       FileDatabaseObj
         (Database.mk
            (match file s with Some (Pickled o) => Some o | _ => Some (PyDict ∅) end)
            (Database.log (base s) ++ [(INFO, DatabaseLoaded)]))
         (file s) (tail (faults s))
   end).
Proof.
  unfold win32_load_failure, after_failed_load.
  file_database_cases s; reflexivity.
Qed.

(** A reload returns, adds one load record, uses up one attempt on the
    file and leaves the file as it was. *)
Lemma pickle_load_from_file_shape s :
  exists db e,
    Pickle.FileDatabase.load_from_file s =
      (Return tt,
       FileDatabaseObj (Database.mk db (Database.log (base s) ++ [e]))
         (file s) (tail (faults s))) /\
    kind e = LoadRecord.
Proof. file_database_cases s; do 2 eexists; split; reflexivity. Qed.

Lemma win32_load_from_file_shape s :
  exists db e,
    WinApi.FileDatabase.load_from_file s =
      (Return tt,
       FileDatabaseObj (Database.mk db (Database.log (base s) ++ [e]))
         (file s) (tail (faults s))) /\
    kind e = LoadRecord.
Proof. file_database_cases s; do 2 eexists; split; reflexivity. Qed.

Ltac solve_discipline shape :=
  let s := fresh "s" in
  intros s; unfold expected_trace;
  unfold Pickle.FileDatabase.set_value, Pickle.FileDatabase.get_value,
    Pickle.FileDatabase.del_value, WinApi.FileDatabase.set_value,
    WinApi.FileDatabase.get_value, WinApi.FileDatabase.del_value;
  after_load shape s; run_file_database;
  (eexists; split;
   [rewrite <- ?app_assoc; reflexivity
   | cbn [map app];
     match goal with Hk : kind _ = LoadRecord |- _ => rewrite Hk end;
     reflexivity]).

Lemma pickle_get_value_discipline key :
  discipline false (fun _ => false) (Pickle.FileDatabase.get_value key).
Proof. solve_discipline pickle_load_from_file_shape. Qed.

Lemma pickle_set_value_discipline key val :
  discipline true id (Pickle.FileDatabase.set_value key val).
Proof. solve_discipline pickle_load_from_file_shape. Qed.

Lemma pickle_del_value_discipline key :
  discipline true id (Pickle.FileDatabase.del_value key).
Proof. solve_discipline pickle_load_from_file_shape. Qed.

Lemma win32_get_value_discipline key :
  discipline false (fun _ => false) (WinApi.FileDatabase.get_value key).
Proof. solve_discipline win32_load_from_file_shape. Qed.

Lemma win32_set_value_discipline key val :
  discipline true id (WinApi.FileDatabase.set_value key val).
Proof. solve_discipline win32_load_from_file_shape. Qed.

Lemma win32_del_value_discipline key :
  discipline true id (WinApi.FileDatabase.del_value key).
Proof. solve_discipline win32_load_from_file_shape. Qed.

(** The reload and the save of either store always return, and leave the
    states [pickle_reloaded], [pickle_saved], [win32_reloaded] and
    [win32_saved] describe. *)
Lemma pickle_load_from_file_reloaded s :
  Pickle.FileDatabase.load_from_file s = (Return tt, pickle_reloaded s).
Proof.
  unfold pickle_reloaded, pickle_load_failure, after_failed_load.
  file_database_cases s; reflexivity.
Qed.

Lemma win32_load_from_file_reloaded s :
  WinApi.FileDatabase.load_from_file s = (Return tt, win32_reloaded s).
Proof.
  unfold win32_reloaded, win32_load_failure, after_failed_load.
  file_database_cases s; reflexivity.
Qed.

Lemma pickle_save_to_file_saved s :
  Pickle.FileDatabase.save_to_file s = (Return tt, pickle_saved s).
Proof. unfold pickle_saved. file_database_cases s; reflexivity. Qed.

Lemma win32_save_to_file_saved s :
  WinApi.FileDatabase.save_to_file s = (Return tt, win32_saved s).
Proof. unfold win32_saved. file_database_cases s; reflexivity. Qed.

(** The shape of [get_value], and the shape of [set_value] and
    [del_value], follow the discipline whatever the reload and the save
    are, as long as these return. *)
Lemma reading_follows_discipline {A} (load : M file_database unit)
    (reloaded saved : file_database -> file_database) (inner : M Database.t A) :
  (forall s, load s = (Return tt, reloaded s)) ->
  follows_discipline reloaded saved false (fun _ => false) inner
    (load;; lift base set_base inner).
Proof.
  intros load_eq s. cbn zeta. rewrite bind_run, load_eq. unfold lift.
  destruct (inner (base (reloaded s))) as [o b]. reflexivity.
Qed.

Lemma mutating_follows_discipline (load save : M file_database unit)
    (reloaded saved : file_database -> file_database) (inner : M Database.t bool) :
  (forall s, load s = (Return tt, reloaded s)) ->
  (forall s, save s = (Return tt, saved s)) ->
  follows_discipline reloaded saved true id inner
    (load;;
     success ← lift base set_base inner;
     (if (success : bool) then save else ret tt);;
     ret success).
Proof.
  intros load_eq save_eq s. cbn zeta. rewrite bind_run, load_eq, bind_run. unfold lift.
  destruct (inner (base (reloaded s))) as [[[]|e|] b]; cbn [fst snd andb id].
  - rewrite bind_run, save_eq. reflexivity.
  - reflexivity.
  - reflexivity.
  - reflexivity.
Qed.

(** C2. In both stores [get_value], [set_value] and [del_value] are,
    from every state, these steps in this order: the reload; the
    operation of [Database] on the object the reload left in memory; the
    save, exactly when the operation is [set_value] or [del_value] and
    the operation of [Database] answered [True].  They answer, or raise,
    what the operation of [Database] does, and the state they leave is
    the one these steps leave.  [load_from_file] and [save_to_file] are
    that reload and that save: they always return, the reload with the
    object of a readable file in memory, the save with the pickle of the
    object in memory in the file when the attempt is not refused (and,
    in winapi.py, the file exists).  The records logged are, by kind, the
    reload first, then the operation of the in-memory store, then the
    save under the same condition. *)
Theorem persistence_discipline key val :
  ((forall s, Pickle.FileDatabase.load_from_file s = (Return tt, pickle_reloaded s)) /\
   (forall s, Pickle.FileDatabase.save_to_file s = (Return tt, pickle_saved s)) /\
   follows_discipline pickle_reloaded pickle_saved false (fun _ => false)
     (Database.get_value key) (Pickle.FileDatabase.get_value key) /\
   follows_discipline pickle_reloaded pickle_saved true id
     (Database.set_value key val) (Pickle.FileDatabase.set_value key val) /\
   follows_discipline pickle_reloaded pickle_saved true id
     (Database.del_value key) (Pickle.FileDatabase.del_value key)) /\
  ((forall s, WinApi.FileDatabase.load_from_file s = (Return tt, win32_reloaded s)) /\
   (forall s, WinApi.FileDatabase.save_to_file s = (Return tt, win32_saved s)) /\
   follows_discipline win32_reloaded win32_saved false (fun _ => false)
     (Database.get_value key) (WinApi.FileDatabase.get_value key) /\
   follows_discipline win32_reloaded win32_saved true id
     (Database.set_value key val) (WinApi.FileDatabase.set_value key val) /\
   follows_discipline win32_reloaded win32_saved true id
     (Database.del_value key) (WinApi.FileDatabase.del_value key)) /\
  (discipline false (fun _ => false) (Pickle.FileDatabase.get_value key) /\
   discipline true id (Pickle.FileDatabase.set_value key val) /\
   discipline true id (Pickle.FileDatabase.del_value key) /\
   discipline false (fun _ => false) (WinApi.FileDatabase.get_value key) /\
   discipline true id (WinApi.FileDatabase.set_value key val) /\
   discipline true id (WinApi.FileDatabase.del_value key)).
Proof.
  split; [|split].
  - split; [exact pickle_load_from_file_reloaded|].
    split; [exact pickle_save_to_file_saved|].
    split; [|split].
    + apply reading_follows_discipline, pickle_load_from_file_reloaded.
    + apply mutating_follows_discipline;
        [exact pickle_load_from_file_reloaded|exact pickle_save_to_file_saved].
    + apply mutating_follows_discipline;
        [exact pickle_load_from_file_reloaded|exact pickle_save_to_file_saved].
  - split; [exact win32_load_from_file_reloaded|].
    split; [exact win32_save_to_file_saved|].
    split; [|split].
    + apply reading_follows_discipline, win32_load_from_file_reloaded.
    + apply mutating_follows_discipline;
        [exact win32_load_from_file_reloaded|exact win32_save_to_file_saved].
    + apply mutating_follows_discipline;
        [exact win32_load_from_file_reloaded|exact win32_save_to_file_saved].
  - repeat split.
    + apply pickle_get_value_discipline.
    + apply pickle_set_value_discipline.
    + apply pickle_del_value_discipline.
    + apply win32_get_value_discipline.
    + apply win32_set_value_discipline.
    + apply win32_del_value_discipline.
Qed.

(** What the discipline says about saving: a save record appears if and
    only if the operation mutates and answered [True]. *)
Lemma discipline_save_iff {A} mutating (success : A -> bool) m s :
  discipline mutating success m ->
  exists recs,
    Database.log (base (m s).2) = Database.log (base s) ++ recs /\
    head (map kind recs) = Some LoadRecord /\
    (SaveRecord ∈ map kind recs <->
     exists a, (m s).1 = Return a /\ mutating = true /\ success a = true).
Proof.
  intros H. destruct (H s) as (recs & Hlog & Hk).
  exists recs. split; [assumption|]. rewrite Hk. unfold expected_trace.
  split; [reflexivity|].
  assert (Hno : forall k ks, SaveRecord ∈ LoadRecord :: k :: ks ->
                 k = StoreRecord -> SaveRecord ∈ ks).
  { intros k ks Hin ->. apply elem_of_cons in Hin as [Hin|Hin]; [discriminate|].
    apply elem_of_cons in Hin as [Hin|Hin]; [discriminate|assumption]. }
  destruct (m s).1 as [a| |]; simpl.
  - split.
    + intros Hin. apply Hno in Hin; [|reflexivity].
      destruct mutating, (success a) eqn:Hs; simpl in Hin;
        try (apply elem_of_nil in Hin; contradiction).
      exists a; auto.
    + intros (a' & Ha & -> & Hs). injection Ha as <-. rewrite Hs. simpl.
      do 2 apply list_elem_of_further. apply list_elem_of_here.
  - split.
    + intros Hin. apply elem_of_cons in Hin as [Hin|Hin]; [discriminate|].
      apply elem_of_nil in Hin; contradiction.
    + intros (a' & ? & _); discriminate.
  - split.
    + intros Hin. apply elem_of_cons in Hin as [Hin|Hin]; [discriminate|].
      apply elem_of_nil in Hin; contradiction.
    + intros (a' & ? & _); discriminate.
Qed.

(** The answer of an operation of the in-memory store does not depend on
    the log. *)
Lemma database_outcome_log (db : option pyobj) (l l' : list entry) key val :
  (Database.get_value key (Database.mk db l)).1 =
    (Database.get_value key (Database.mk db l')).1 /\
  (Database.set_value key val (Database.mk db l)).1 =
    (Database.set_value key val (Database.mk db l')).1 /\
  (Database.del_value key (Database.mk db l)).1 =
    (Database.del_value key (Database.mk db l')).1.
Proof.
  destruct db as [[d|]|]; unfold_database; unfold_monad; simpl;
    repeat case_match; simplify_eq; auto.
Qed.

Ltac solve_after_failed_load eq Hf :=
  unfold Pickle.FileDatabase.set_value, Pickle.FileDatabase.get_value,
    Pickle.FileDatabase.del_value, WinApi.FileDatabase.set_value,
    WinApi.FileDatabase.get_value, WinApi.FileDatabase.del_value;
  rewrite bind_run, eq, Hf; unfold after_failed_load;
  match goal with
  | s : file_database |- _ =>
      destruct s as [[[[?d|]|] ?l] ?f [|? [|[] ?fl]]]
  end;
  run_file_database; reflexivity.

(** C5. When a reload meets a failure (the system refuses the file, the
    file is missing, its content does not unpickle), [load_from_file]
    returns normally, logs the failure as its last record, and leaves the
    mapping in memory and the file as they were; the operation that
    follows answers what the in-memory store answers on that mapping. *)
Theorem reload_silent_degrade s e key val :
  (pickle_load_failure s = Some e ->
   Pickle.FileDatabase.load_from_file s = (Return tt, after_failed_load e s) /\
   Database.DB (base (after_failed_load e s)) = Database.DB (base s) /\
   file (after_failed_load e s) = file s /\
   last (Database.log (base (after_failed_load e s))) = Some (ERROR, ErrorLoading e) /\
   (Pickle.FileDatabase.get_value key s).1 = (Database.get_value key (base s)).1 /\
   (Pickle.FileDatabase.set_value key val s).1 = (Database.set_value key val (base s)).1 /\
   (Pickle.FileDatabase.del_value key s).1 = (Database.del_value key (base s)).1) /\
  (win32_load_failure s = Some e ->
   WinApi.FileDatabase.load_from_file s = (Return tt, after_failed_load e s) /\
   Database.DB (base (after_failed_load e s)) = Database.DB (base s) /\
   file (after_failed_load e s) = file s /\
   last (Database.log (base (after_failed_load e s))) = Some (ERROR, ErrorLoading e) /\
   (WinApi.FileDatabase.get_value key s).1 = (Database.get_value key (base s)).1 /\
   (WinApi.FileDatabase.set_value key val s).1 = (Database.set_value key val (base s)).1 /\
   (WinApi.FileDatabase.del_value key s).1 = (Database.del_value key (base s)).1).
Proof.
  split; intros Hf.
  - split; [rewrite pickle_load_from_file_eq, Hf; reflexivity|].
    split; [reflexivity|]. split; [reflexivity|].
    split; [apply last_snoc|].
    repeat split; solve_after_failed_load pickle_load_from_file_eq Hf.
  - split; [rewrite win32_load_from_file_eq, Hf; reflexivity|].
    split; [reflexivity|]. split; [reflexivity|].
    split; [apply last_snoc|].
    repeat split; solve_after_failed_load win32_load_from_file_eq Hf.
Qed.

Lemma reload_silent_degrade_witness :
  Pickle.FileDatabase.load_from_file (fresh None []) =
    (Return tt, after_failed_load FileNotFoundError (fresh None [])) /\
  WinApi.FileDatabase.load_from_file (fresh (Some Garbage) []) =
    (Return tt, after_failed_load UnpicklingError (fresh (Some Garbage) [])).
Proof.
  split.
  - apply (proj1 (reload_silent_degrade (fresh None []) FileNotFoundError 0 0)).
    reflexivity.
  - apply (proj2 (reload_silent_degrade (fresh (Some Garbage) []) UnpicklingError 0 0)).
    reflexivity.
Defined.

(** C7. When the mapping [del_value] works on, the one in memory after
    the reload, does not bind the key, [del_value] answers [False], logs
    the reload and the failed deletion and no save, and leaves the file
    exactly as it was. *)
Theorem failed_delete_keeps_snapshot s key m :
  Database.DB (base (Pickle.FileDatabase.load_from_file s).2) = Some (PyDict m) ->
  m !! key = None ->
  exists s' recs,
    Pickle.FileDatabase.del_value key s = (Return false, s') /\
    file s' = file s /\
    Database.DB (base s') = Some (PyDict m) /\
    Database.log (base s') = Database.log (base s) ++ recs /\
    map kind recs = [LoadRecord; StoreRecord].
Proof.
  intros Hm Hk. unfold Pickle.FileDatabase.del_value.
  destruct (pickle_load_from_file_shape s) as (db & e & Hload & Hkind).
  rewrite Hload in Hm. cbn in Hm. subst db.
  rewrite bind_run, Hload. clear Hload.
  destruct s as [[db0 l] f fl]. cbn [base file faults Database.log] in *.
  run_file_database.
  do 2 eexists. split; [reflexivity|]. cbn.
  split; [reflexivity|]. split; [reflexivity|].
  split; [rewrite <- ?app_assoc; reflexivity|].
  cbn [map app]. rewrite Hkind. reflexivity.
Qed.

Lemma failed_delete_keeps_snapshot_witness :
  exists s' recs,
    Pickle.FileDatabase.del_value 42
      (FileDatabaseObj (Database.mk None []) (Some (Pickled (PyDict {[1%Z := 10%Z]}))) []) =
      (Return false, s') /\
    file s' = Some (Pickled (PyDict {[1%Z := 10%Z]})) /\
    Database.DB (base s') = Some (PyDict {[1%Z := 10%Z]}) /\
    Database.log (base s') = [] ++ recs /\
    map kind recs = [LoadRecord; StoreRecord].
Proof.
  apply (failed_delete_keeps_snapshot
           (FileDatabaseObj (Database.mk None []) (Some (Pickled (PyDict {[1%Z := 10%Z]}))) [])
           42 {[1%Z := 10%Z]}).
  - reflexivity.
  - reflexivity.
Defined.


Lemma holds_mapping_get_value m s key :
  holds_mapping m s ->
  exists s',
    Pickle.FileDatabase.get_value key s =
      (Return (match m !! key with Some v => Value v | None => DoesntExist end), s') /\
    holds_mapping m s'.
Proof.
  intros [Hf Hm]. unfold holds_mapping.
  destruct s as [[db l] f fl]; simpl in *; subst fl.
  destruct f as [b|]; subst; run_file_database;
    (eexists; split; [reflexivity | split; reflexivity]).
Qed.

Lemma holds_mapping_set_value m s key val :
  holds_mapping m s ->
  exists s',
    Pickle.FileDatabase.set_value key val s = (Return true, s') /\
    holds_mapping (<[key:=val]> m) s'.
Proof.
  intros [Hf Hm]. unfold holds_mapping.
  destruct s as [[db l] f fl]; simpl in *; subst fl.
  destruct f as [b|]; subst; run_file_database;
    (eexists; split; [reflexivity | split; reflexivity]).
Qed.

Lemma init_holds_mapping m l :
  exists s,
    Pickle.FileDatabase.init (PyDict m) (fresh None l) = (Return tt, s) /\
    holds_mapping m s.
Proof. eexists; split; [reflexivity|]. split; reflexivity. Qed.

(** C4. From a store whose visible mapping is [{1: 10, 2: 20}], in an
    environment that refuses nothing, [set_value(3, 30)] answers [True],
    then [get_value(3)] answers [30] and [get_value(99)] answers
    ["doesn't exist"]. *)
Theorem round_trip s :
  holds_mapping {[1%Z := 10%Z; 2%Z := 20%Z]} s ->
  exists s1 s2 s3,
    Pickle.FileDatabase.set_value 3 30 s = (Return true, s1) /\
    Pickle.FileDatabase.get_value 3 s1 = (Return (Value 30), s2) /\
    Pickle.FileDatabase.get_value 99 s2 = (Return DoesntExist, s3).
Proof.
  intros H.
  destruct (holds_mapping_set_value _ _ 3 30 H) as (s1 & E1 & H1).
  destruct (holds_mapping_get_value _ _ 3 H1) as (s2 & E2 & H2).
  destruct (holds_mapping_get_value _ _ 99 H2) as (s3 & E3 & H3).
  exists s1, s2, s3. split; [assumption|].
  rewrite lookup_insert_eq in E2. split; [assumption|].
  rewrite E3. reflexivity.
Qed.

Lemma round_trip_witness :
  exists s1 s2 s3,
    Pickle.FileDatabase.set_value 3 30
      (Pickle.FileDatabase.init (PyDict {[1%Z := 10%Z; 2%Z := 20%Z]}) (fresh None [])).2 =
      (Return true, s1) /\
    Pickle.FileDatabase.get_value 3 s1 = (Return (Value 30), s2) /\
    Pickle.FileDatabase.get_value 99 s2 = (Return DoesntExist, s3).
Proof.
  apply (round_trip
           (Pickle.FileDatabase.init (PyDict {[1%Z := 10%Z; 2%Z := 20%Z]}) (fresh None [])).2).
  split; reflexivity.
Defined.

(** C9 as stated fails for the pickle store: constructed with [{1: 10}],
    it answers [10] for key 1 when the file is missing, and
    ["doesn't exist"] when the file holds the empty mapping. *)
Lemma absent_target_counterexample :
  (Pickle.FileDatabase.get_value 1
     (Pickle.FileDatabase.init (PyDict {[1%Z := 10%Z]}) (fresh None [])).2).1 =
    Return (Value 10) /\
  (Pickle.FileDatabase.get_value 1
     (Pickle.FileDatabase.init (PyDict {[1%Z := 10%Z]})
        (fresh (Some (Pickled (PyDict ∅))) [])).2).1 =
    Return DoesntExist.
Proof. split; reflexivity. Qed.

(** C9, as the code has it.  The win32 store creates a missing file with
    the empty mapping in it and ends exactly where it ends from a file
    that holds the empty mapping.  The pickle store leaves a missing
    file missing and keeps the constructor's mapping in memory, where a
    file holding the empty mapping makes it start empty: the two
    constructions agree on the mapping exactly when the constructor's
    mapping is empty. *)
Theorem absent_target_initialization (db : pyobj) m l :
  WinApi.FileDatabase.init db (fresh None l) =
    WinApi.FileDatabase.init db (fresh (Some (Pickled (PyDict ∅))) l) /\
  (exists s, WinApi.FileDatabase.init db (fresh None l) = (Return tt, s) /\
             Database.DB (base s) = Some (PyDict ∅) /\
             file s = Some (Pickled (PyDict ∅))) /\
  (exists s, Pickle.FileDatabase.init (PyDict m) (fresh None l) = (Return tt, s) /\
             Database.DB (base s) = Some (PyDict m) /\
             file s = None) /\
  (exists s, Pickle.FileDatabase.init (PyDict m) (fresh (Some (Pickled (PyDict ∅))) l) =
               (Return tt, s) /\
             Database.DB (base s) = Some (PyDict ∅) /\
             file s = Some (Pickled (PyDict ∅))) /\
  (Database.DB (base (Pickle.FileDatabase.init (PyDict m) (fresh None l)).2) =
   Database.DB (base (Pickle.FileDatabase.init (PyDict m)
                        (fresh (Some (Pickled (PyDict ∅))) l)).2)
   <-> m = ∅).
Proof.
  split; [reflexivity|].
  repeat split; try (eexists; (split; [reflexivity|]); split; reflexivity).
  - intros H. change (Some (PyDict m) = Some (PyDict ∅)) in H. congruence.
  - intros ->. reflexivity.
Qed.


End FileDatabaseFacts.

(** ** The gate, one caller at a time *)

Ltac solve_ends shape :=
  unfold Pickle.FileDatabase.set_value, Pickle.FileDatabase.get_value,
    Pickle.FileDatabase.del_value, WinApi.FileDatabase.set_value,
    WinApi.FileDatabase.get_value, WinApi.FileDatabase.del_value;
  match goal with
  | s : file_database |- _ => after_load shape s
  end;
  run_file_database; discriminate.

Section NeverBlocks.
Implicit Types (s : file_database) (key val : Z).

Lemma pickle_get_value_ends key s : (Pickle.FileDatabase.get_value key s).1 <> Blocked.
Proof. solve_ends pickle_load_from_file_shape. Qed.
Lemma pickle_set_value_ends key val s : (Pickle.FileDatabase.set_value key val s).1 <> Blocked.
Proof. solve_ends pickle_load_from_file_shape. Qed.
Lemma pickle_del_value_ends key s : (Pickle.FileDatabase.del_value key s).1 <> Blocked.
Proof. solve_ends pickle_load_from_file_shape. Qed.
Lemma win32_get_value_ends key s : (WinApi.FileDatabase.get_value key s).1 <> Blocked.
Proof. solve_ends win32_load_from_file_shape. Qed.
Lemma win32_set_value_ends key val s : (WinApi.FileDatabase.set_value key val s).1 <> Blocked.
Proof. solve_ends win32_load_from_file_shape. Qed.
Lemma win32_del_value_ends key s : (WinApi.FileDatabase.del_value key s).1 <> Blocked.
Proof. solve_ends win32_load_from_file_shape. Qed.

End NeverBlocks.

Module PickleGateFacts.
Import Pickle Pickle.SynchronizedDatabase.

Ltac unfold_sync :=
  unfold acquire_read_lock, release_read_semaphore, acquire_write_lock,
    release_write_lock, logging, FileDatabase.logging, FileDatabase.super,
    super, on_gate, Semaphore_acquire, Semaphore_release, Lock_acquire,
    Lock_release, set_fbase, set_gate, set_base in *.

Lemma on_gate_Semaphore_acquire (s : t) :
  on_gate Semaphore_acquire s =
  match semaphore (the_gate s) with
  | O => (Blocked, set_gate (the_gate s) s)
  | S v => (Return tt,
            set_gate (Gate v (write_lock (the_gate s)) (max_readers (the_gate s))) s)
  end.
Proof. destruct s as [fb md [[|v] w N]]; reflexivity. Qed.

Lemma on_gate_Semaphore_release (s : t) :
  on_gate Semaphore_release s =
  (Return tt,
   set_gate (Gate (S (semaphore (the_gate s))) (write_lock (the_gate s))
                (max_readers (the_gate s))) s).
Proof. reflexivity. Qed.

Lemma for_range_acquire n (s : t) :
  for_range n (on_gate Semaphore_acquire) s =
  if (n <=? semaphore (the_gate s))%nat
  then (Return tt,
        set_gate (Gate (semaphore (the_gate s) - n) (write_lock (the_gate s))
                     (max_readers (the_gate s))) s)
  else (Blocked,
        set_gate (Gate 0 (write_lock (the_gate s)) (max_readers (the_gate s))) s).
Proof.
  revert s. induction n as [|n IH]; intros [fb md [v w N]].
  - simpl. rewrite Nat.sub_0_r. reflexivity.
  - cbn [for_range]. rewrite bind_run, on_gate_Semaphore_acquire.
    destruct v as [|v]; [reflexivity|]. cbn -[for_range Nat.leb].
    rewrite IH. reflexivity.
Qed.

Lemma for_range_release n (s : t) :
  for_range n (on_gate Semaphore_release) s =
  (Return tt,
   set_gate (Gate (semaphore (the_gate s) + n) (write_lock (the_gate s))
                (max_readers (the_gate s))) s).
Proof.
  revert s. induction n as [|n IH]; intros [fb md [v w N]].
  - simpl. rewrite Nat.add_0_r. reflexivity.
  - cbn [for_range]. rewrite bind_run, on_gate_Semaphore_release.
    cbn -[for_range]. rewrite IH. cbn. unfold set_gate. cbn.
    do 3 f_equal. lia.
Qed.

Lemma logging_run l m (s : t) : logging l m s = (Return tt, pickle_logged (l, m) s).
Proof. reflexivity. Qed.

Lemma on_gate_Lock_acquire (s : t) :
  on_gate Lock_acquire s =
  if write_lock (the_gate s) then (Blocked, set_gate (the_gate s) s)
  else (Return tt,
        set_gate (Gate (semaphore (the_gate s)) true (max_readers (the_gate s))) s).
Proof. destruct s as [fb md [v [] N]]; reflexivity. Qed.

Lemma on_gate_Lock_release (s : t) :
  on_gate Lock_release s =
  if write_lock (the_gate s)
  then (Return tt,
        set_gate (Gate (semaphore (the_gate s)) false (max_readers (the_gate s))) s)
  else (Raise RuntimeError, set_gate (the_gate s) s).
Proof. destruct s as [fb md [v [] N]]; reflexivity. Qed.

Lemma pickle_acquire_write_lock_eq (s : t) :
  acquire_write_lock s =
  let g := the_gate s in
  let s1 := pickle_logged (DEBUG, AcquiringWriteLock) s in
  if write_lock g then (Blocked, s1)
  else if (max_readers g <=? semaphore g)%nat
       then (Return tt, set_gate (Gate (semaphore g - max_readers g) true (max_readers g)) s1)
       else (Blocked, set_gate (Gate 0 true (max_readers g)) s1).
Proof.
  unfold acquire_write_lock, try_except.
  rewrite bind_run, logging_run, bind_run, on_gate_Lock_acquire.
  cbn [the_gate pickle_logged]. destruct (write_lock (the_gate s)) eqn:Hw.
  - destruct s; reflexivity.
  - rewrite bind_run. unfold gets at 1. cbn [the_gate set_gate max_readers].
    rewrite for_range_acquire. cbn [the_gate set_gate max_readers semaphore write_lock].
    destruct (max_readers (the_gate s) <=? semaphore (the_gate s))%nat; reflexivity.
Qed.

Lemma pickle_release_write_lock_eq (s : t) :
  release_write_lock s =
  let g := the_gate s in
  let s1 := pickle_logged (DEBUG, ReleasingWriteLock) s in
  if write_lock g
  then (Return tt, set_gate (Gate (semaphore g + max_readers g) false (max_readers g)) s1)
  else (Return tt,
        pickle_logged (ERROR, ErrorReleasingWriteLock RuntimeError)
          (set_gate (Gate (semaphore g + max_readers g) false (max_readers g)) s1)).
Proof.
  unfold release_write_lock, try_except.
  rewrite bind_run, logging_run, bind_run. unfold gets at 1.
  cbn [the_gate pickle_logged]. rewrite bind_run, for_range_release.
  cbn [the_gate set_gate pickle_logged max_readers semaphore write_lock].
  rewrite on_gate_Lock_release.
  cbn [the_gate set_gate pickle_logged max_readers semaphore write_lock].
  destruct (write_lock (the_gate s)) eqn:Hw; [reflexivity|].
  unfold except_Exception. rewrite logging_run. reflexivity.
Qed.

Lemma pickle_acquire_read_lock_eq (s : t) :
  acquire_read_lock s =
  let g := the_gate s in
  let s1 := pickle_logged (DEBUG, AcquiringReadLock) s in
  match semaphore g with
  | O => (Blocked, s1)
  | S v => (Return tt, set_gate (Gate v (write_lock g) (max_readers g)) s1)
  end.
Proof.
  unfold acquire_read_lock, try_except.
  rewrite bind_run, logging_run, on_gate_Semaphore_acquire.
  cbn [the_gate pickle_logged]. destruct (semaphore (the_gate s)); [|reflexivity].
  destruct s; reflexivity.
Qed.

Lemma pickle_release_read_semaphore_eq (s : t) :
  release_read_semaphore s =
  let g := the_gate s in
  (Return tt,
   set_gate (Gate (S (semaphore g)) (write_lock g) (max_readers g))
     (pickle_logged (DEBUG, ReleasingReadSemaphore) s)).
Proof. reflexivity. Qed.

Lemma pickle_super_run {A} (m : M file_database A) (s : t) :
  super m s = ((m (fbase s)).1, mk (m (fbase s)).2 (mode s) (the_gate s)).
Proof. unfold super, lift, set_fbase. destruct (m (fbase s)); reflexivity. Qed.

(** Whatever the protected operation does, a write scope that was entered
    is left with the gate as it was found. *)
Lemma pickle_write_scope_releases {A} (body : M file_database A) :
  releases_gate the_gate pickle_log (DEBUG, ReleasingWriteLock)
    (acquire_write_lock;; try_finally (super body) release_write_lock).
Proof.
  intros s o s' H Ho. rewrite bind_run, pickle_acquire_write_lock_eq in H. cbn zeta in H.
  destruct (write_lock (the_gate s)) eqn:Hw; [simplify_eq|].
  destruct (max_readers (the_gate s) <=? semaphore (the_gate s))%nat eqn:Hle;
    [|simplify_eq].
  apply Nat.leb_le in Hle.
  unfold try_finally in H. rewrite pickle_super_run in H.
  rewrite pickle_release_write_lock_eq in H. cbn in H.
  destruct s as [fb md [v w N]]; cbn in *; subst w.
  replace (v - N + N) with v in H by lia.
  destruct (body _) as [[a|e|] fb']; cbn in H; simplify_eq; cbn.
  - split; [reflexivity|]. apply last_snoc.
  - split; [reflexivity|]. apply last_snoc.
Qed.

Lemma pickle_read_scope_releases {A} (body : M file_database A) :
  releases_gate the_gate pickle_log (DEBUG, ReleasingReadSemaphore)
    (acquire_read_lock;; try_finally (super body) release_read_semaphore).
Proof.
  intros s o s' H Ho. rewrite bind_run, pickle_acquire_read_lock_eq in H. cbn zeta in H.
  destruct s as [fb md [[|v] w N]]; cbn in H; [simplify_eq|].
  unfold try_finally in H. rewrite pickle_super_run, pickle_release_read_semaphore_eq in H. cbn in H.
  destruct (body _) as [[a|e|] fb']; cbn in H; simplify_eq; cbn.
  - split; [reflexivity|]. apply last_snoc.
  - split; [reflexivity|]. apply last_snoc.
Qed.

Lemma pickle_write_scope_exits {A} (body : M file_database A) :
  (forall fb, (body fb).1 <> Blocked) ->
  exits_when the_gate pickle_write_free
    (acquire_write_lock;; try_finally (super body) release_write_lock).
Proof.
  intros Hb s Hfree. unfold pickle_write_free in Hfree.
  apply andb_prop in Hfree as [Hw Hle]. apply negb_true_iff in Hw.
  apply bool_decide_eq_true in Hle. apply Nat.leb_le in Hle.
  rewrite bind_run, pickle_acquire_write_lock_eq. cbn zeta. rewrite Hw, Hle.
  unfold try_finally. rewrite pickle_super_run, pickle_release_write_lock_eq. cbn.
  match goal with |- context [body ?x] => specialize (Hb x); destruct (body x) as [[a|e|] fb'] end;
    cbn in *; congruence.
Qed.

Lemma pickle_read_scope_exits {A} (body : M file_database A) :
  (forall fb, (body fb).1 <> Blocked) ->
  exits_when the_gate pickle_read_free
    (acquire_read_lock;; try_finally (super body) release_read_semaphore).
Proof.
  intros Hb s Hfree. unfold pickle_read_free in Hfree.
  apply bool_decide_eq_true in Hfree.
  rewrite bind_run, pickle_acquire_read_lock_eq. cbn zeta.
  destruct (semaphore (the_gate s)); [lia|].
  unfold try_finally. rewrite pickle_super_run, pickle_release_read_semaphore_eq. cbn.
  match goal with |- context [body ?x] => specialize (Hb x); destruct (body x) as [[a|e|] fb'] end;
    cbn in *; congruence.
Qed.

End PickleGateFacts.

Module Win32GateFacts.
Import WinApi WinApi.SynchronizedDatabase.

Lemma win32_super_run {A} (m : M file_database A) (s : t) :
  super m s = ((m (fbase s)).1, mk (m (fbase s)).2 (the_gate s)).
Proof. unfold super, lift, set_fbase. destruct (m (fbase s)); reflexivity. Qed.

Lemma win32_acquire_write_lock_eq (s : t) :
  acquire_write_lock s =
  let g := the_gate s in
  if read_event g
  then if write_mutex g
       then (Blocked, set_gate (Gate false true (reader_count g) (max_readers g)) s)
       else (Return tt,
             win32_logged (DEBUG, WriterAcquired)
               (set_gate (Gate false true (reader_count g) (max_readers g)) s))
  else (Blocked, s).
Proof. destruct s as [fb [[] [] c N]]; reflexivity. Qed.

Lemma win32_release_write_lock_eq (s : t) :
  release_write_lock s =
  let g := the_gate s in
  if write_mutex g
  then (Return tt,
        win32_logged (DEBUG, WriterReleased)
          (set_gate (Gate true false (reader_count g) (max_readers g)) s))
  else (Raise (PyWinError ERROR_NOT_OWNER), s).
Proof. destruct s as [fb [ev [] c N]]; reflexivity. Qed.

Lemma win32_acquire_read_lock_eq (s : t) :
  acquire_read_lock s =
  let g := the_gate s in
  let c := (reader_count g + 1)%Z in
  if write_mutex g then (Blocked, s)
  else if (c =? 1)%Z
       then if read_event g
            then (Return tt,
                  win32_logged (DEBUG, ReaderAcquired)
                    (set_gate (Gate false false c (max_readers g)) s))
            else (Blocked, set_gate (Gate false true c (max_readers g)) s)
       else (Return tt,
             win32_logged (DEBUG, ReaderAcquired)
               (set_gate (Gate (read_event g) false c (max_readers g)) s)).
Proof.
  destruct s as [fb [ev [] c N]]; [reflexivity|].
  unfold acquire_read_lock. cbn. unfold_monad. cbn.
  destruct (c + 1 =? 1)%Z; [destruct ev|]; reflexivity.
Qed.

Lemma win32_release_read_semaphore_eq (s : t) :
  release_read_semaphore s =
  let g := the_gate s in
  let c := (reader_count g + -1)%Z in
  if write_mutex g then (Blocked, s)
  else (Return tt,
        win32_logged (DEBUG, ReaderReleased)
          (set_gate (Gate (if (c =? 0)%Z then true else read_event g) false c
                       (max_readers g)) s)).
Proof.
  destruct s as [fb [ev [] c N]]; [reflexivity|].
  unfold release_read_semaphore. cbn. unfold_monad. cbn.
  destruct (c + -1 =? 0)%Z; reflexivity.
Qed.

Lemma win32_write_scope_releases {A} (body : M file_database A) :
  releases_gate the_gate win32_log (DEBUG, WriterReleased)
    (acquire_write_lock;; try_finally (super body) release_write_lock).
Proof.
  intros s o s' H Ho. rewrite bind_run, win32_acquire_write_lock_eq in H. cbn zeta in H.
  destruct s as [fb [[] [] c N]]; cbn in H; simplify_eq.
  unfold try_finally in H. rewrite win32_super_run, win32_release_write_lock_eq in H. cbn in H.
  destruct (body _) as [[a|e|] fb']; cbn in H; simplify_eq; cbn.
  - split; [reflexivity|]. apply last_snoc.
  - split; [reflexivity|]. apply last_snoc.
Qed.

Lemma win32_read_scope_releases {A} (body : M file_database A) :
  releases_gate the_gate win32_log (DEBUG, ReaderReleased)
    (acquire_read_lock;; try_finally (super body) release_read_semaphore).
Proof.
  intros s o s' H Ho. rewrite bind_run, win32_acquire_read_lock_eq in H. cbn zeta in H.
  destruct s as [fb [ev [] c N]]; cbn in H; [simplify_eq|].
  destruct (c + 1 =? 1)%Z eqn:Hc.
  - apply Z.eqb_eq in Hc. assert (c = 0%Z) as -> by lia.
    destruct ev; [|simplify_eq].
    unfold try_finally in H. rewrite win32_super_run, win32_release_read_semaphore_eq in H. cbn in H.
    destruct (body _) as [[a|e|] fb']; cbn in H; simplify_eq; cbn.
    + split; [reflexivity|]. apply last_snoc.
    + split; [reflexivity|]. apply last_snoc.
  - apply Z.eqb_neq in Hc.
    unfold try_finally in H. rewrite win32_super_run, win32_release_read_semaphore_eq in H. cbn in H.
    replace (c + 1 + -1)%Z with c in H by lia.
    assert ((c =? 0)%Z = false) as Hc0 by (apply Z.eqb_neq; lia). rewrite Hc0 in H.
    destruct (body _) as [[a|e|] fb']; cbn in H; simplify_eq; cbn.
    + split; [reflexivity|]. apply last_snoc.
    + split; [reflexivity|]. apply last_snoc.
Qed.

Lemma win32_write_scope_exits {A} (body : M file_database A) :
  (forall fb, (body fb).1 <> Blocked) ->
  exits_when the_gate win32_write_free
    (acquire_write_lock;; try_finally (super body) release_write_lock).
Proof.
  intros Hb s Hfree. unfold win32_write_free in Hfree.
  apply andb_prop in Hfree as [Hw He]. apply negb_true_iff in Hw.
  rewrite bind_run, win32_acquire_write_lock_eq. cbn zeta. rewrite Hw, He.
  unfold try_finally. rewrite win32_super_run, win32_release_write_lock_eq. cbn.
  match goal with |- context [body ?x] => specialize (Hb x); destruct (body x) as [[a|e|] fb'] end;
    cbn in *; congruence.
Qed.

Lemma win32_read_scope_exits {A} (body : M file_database A) :
  (forall fb, (body fb).1 <> Blocked) ->
  exits_when the_gate win32_read_free
    (acquire_read_lock;; try_finally (super body) release_read_semaphore).
Proof.
  intros Hb s Hfree. unfold win32_read_free in Hfree.
  apply andb_prop in Hfree as [Hw He]. apply negb_true_iff in Hw.
  rewrite bind_run, win32_acquire_read_lock_eq. cbn zeta. rewrite Hw.
  destruct s as [fb [ev w c N]]; cbn in *.
  destruct (c + 1 =? 1)%Z eqn:Hc.
  - apply Z.eqb_eq in Hc. assert (c = 0%Z) as -> by lia.
    destruct ev; [|discriminate].
    unfold try_finally. rewrite win32_super_run, win32_release_read_semaphore_eq. cbn.
    match goal with |- context [body ?x] => specialize (Hb x); destruct (body x) as [[a|e|] fb'] end;
      cbn in *; congruence.
  - unfold try_finally. rewrite win32_super_run, win32_release_read_semaphore_eq. cbn.
    match goal with |- context [body ?x] => specialize (Hb x); destruct (body x) as [[a|e|] fb'] end;
      cbn in *; congruence.
Qed.

End Win32GateFacts.


(** *** Scoped calls, step by step *)

Module PickleScoped.
Import Pickle Pickle.SynchronizedDatabase PickleGateFacts.

Lemma pickle_write_scope_scoped {A} (body : M file_database A) :
  scoped_by the_gate acquire_write_lock release_write_lock pickle_write_held (super body)
    (acquire_write_lock;; try_finally (super body) release_write_lock).
Proof.
  intros s o s' H Ho. rewrite bind_run in H.
  destruct (acquire_write_lock s) as [oa s1] eqn:Hacq.
  rewrite pickle_acquire_write_lock_eq in Hacq. cbn zeta in Hacq.
  destruct (write_lock (the_gate s)) eqn:Hw; [simplify_eq|].
  destruct (max_readers (the_gate s) <=? semaphore (the_gate s))%nat eqn:Hle;
    [|simplify_eq].
  apply Nat.leb_le in Hle. injection Hacq as <- <-.
  set (s1 := set_gate _ _) in *.
  unfold try_finally in H. rewrite pickle_super_run in H. cbn [fst snd] in H.
  set (s2 := mk (body (fbase s1)).2 (mode s1) (the_gate s1)) in *.
  assert (release_write_lock s2 = (Return tt, set_gate (the_gate s)
            (pickle_logged (DEBUG, ReleasingWriteLock) s2))) as Hrel.
  { rewrite pickle_release_write_lock_eq. subst s2 s1. cbn.
    destruct (the_gate s) as [v w N]; cbn in *. subst w.
    replace (v - N + N) with v by lia. reflexivity. }
  exists s1, s2. rewrite pickle_super_run. fold s2.
  split; [reflexivity|]. split; [split; [assumption|split; [assumption|reflexivity]]|].
  rewrite Hrel in H.
  destruct (body (fbase s1)).1 as [a|e|] eqn:Hb; simplify_eq;
    (split; [reflexivity|]); (split; [reflexivity|]); (split; [exact Hrel|reflexivity]).
Qed.

Lemma pickle_read_scope_scoped {A} (body : M file_database A) :
  scoped_by the_gate acquire_read_lock release_read_semaphore pickle_read_held (super body)
    (acquire_read_lock;; try_finally (super body) release_read_semaphore).
Proof.
  intros s o s' H Ho. rewrite bind_run in H.
  destruct (acquire_read_lock s) as [oa s1] eqn:Hacq.
  rewrite pickle_acquire_read_lock_eq in Hacq. cbn zeta in Hacq.
  destruct (semaphore (the_gate s)) as [|v] eqn:Hv; [simplify_eq|].
  injection Hacq as <- <-.
  set (s1 := set_gate _ _) in *.
  unfold try_finally in H. rewrite pickle_super_run in H. cbn [fst snd] in H.
  set (s2 := mk (body (fbase s1)).2 (mode s1) (the_gate s1)) in *.
  assert (release_read_semaphore s2 = (Return tt, set_gate (the_gate s)
            (pickle_logged (DEBUG, ReleasingReadSemaphore) s2))) as Hrel.
  { rewrite pickle_release_read_semaphore_eq. subst s2 s1. cbn.
    destruct (the_gate s) as [v' w N]; cbn in *. subst v'. reflexivity. }
  exists s1, s2. rewrite pickle_super_run. fold s2.
  split; [reflexivity|].
  split; [split; [lia|subst s1; cbn; rewrite Hv; cbn; rewrite ?Nat.sub_0_r; reflexivity]|].
  rewrite Hrel in H.
  destruct (body (fbase s1)).1 as [a|e|] eqn:Hb; simplify_eq;
    (split; [reflexivity|]); (split; [reflexivity|]); (split; [exact Hrel|reflexivity]).
Qed.

End PickleScoped.

Module Win32Scoped.
Import WinApi WinApi.SynchronizedDatabase Win32GateFacts.

Lemma win32_write_scope_scoped {A} (body : M file_database A) :
  scoped_by the_gate acquire_write_lock release_write_lock win32_write_held (super body)
    (acquire_write_lock;; try_finally (super body) release_write_lock).
Proof.
  intros s o s' H Ho. rewrite bind_run in H.
  destruct (acquire_write_lock s) as [oa s1] eqn:Hacq.
  rewrite win32_acquire_write_lock_eq in Hacq. cbn zeta in Hacq.
  destruct (read_event (the_gate s)) eqn:He; [|simplify_eq].
  destruct (write_mutex (the_gate s)) eqn:Hw; [simplify_eq|].
  injection Hacq as <- <-.
  set (s1 := win32_logged _ _) in *.
  unfold try_finally in H. rewrite win32_super_run in H. cbn [fst snd] in H.
  set (s2 := mk (body (fbase s1)).2 (the_gate s1)) in *.
  assert (release_write_lock s2 = (Return tt, set_gate (the_gate s)
            (win32_logged (DEBUG, WriterReleased) s2))) as Hrel.
  { rewrite win32_release_write_lock_eq. subst s2 s1. cbn.
    destruct (the_gate s) as [ev w c N]; cbn in *. subst ev w. reflexivity. }
  exists s1, s2. rewrite win32_super_run. fold s2.
  split; [reflexivity|]. split; [split; [assumption|split; [assumption|reflexivity]]|].
  rewrite Hrel in H.
  destruct (body (fbase s1)).1 as [a|e|] eqn:Hb; simplify_eq;
    (split; [reflexivity|]); (split; [reflexivity|]); (split; [exact Hrel|reflexivity]).
Qed.

Lemma win32_read_scope_scoped {A} (body : M file_database A) :
  scoped_by the_gate acquire_read_lock release_read_semaphore win32_read_held (super body)
    (acquire_read_lock;; try_finally (super body) release_read_semaphore).
Proof.
  intros s o s' H Ho. rewrite bind_run, win32_acquire_read_lock_eq in H. cbn zeta in H.
  rewrite win32_acquire_read_lock_eq. unfold win32_read_held.
  destruct s as [fb [ev [] c N]]; cbn in H |- *; [simplify_eq|].
  destruct (c + 1 =? 1)%Z eqn:Hc.
  - apply Z.eqb_eq in Hc. assert (c = 0%Z) as -> by lia.
    destruct ev; [|simplify_eq].
    unfold try_finally in H. rewrite win32_super_run, win32_release_read_semaphore_eq in H.
    cbn in H.
    match type of H with context [body ?x] =>
      destruct (body x) as [[a|e|] fb'] eqn:Hb end; cbn in H; simplify_eq;
      (do 2 eexists; split; [reflexivity|]; split; [auto|];
       rewrite win32_super_run; cbn; rewrite Hb; cbn;
       (split; [reflexivity|]); (split; [reflexivity|]);
       rewrite win32_release_read_semaphore_eq; split; reflexivity).
  - apply Z.eqb_neq in Hc.
    assert ((c =? 0)%Z = false) as Hc0 by (apply Z.eqb_neq; lia).
    unfold try_finally in H. rewrite win32_super_run, win32_release_read_semaphore_eq in H.
    cbn in H. replace (c + 1 + -1)%Z with c in H by lia. rewrite Hc0 in H |- *.
    match type of H with context [body ?x] =>
      destruct (body x) as [[a|e|] fb'] eqn:Hb end; cbn in H; simplify_eq;
      (do 2 eexists; split; [reflexivity|];
       split; [split; [reflexivity|split; [intros ->; discriminate|reflexivity]]|];
       rewrite win32_super_run; cbn; rewrite Hb; cbn;
       (split; [reflexivity|]); (split; [reflexivity|]);
       rewrite win32_release_read_semaphore_eq; cbn;
       replace (c + 1 + -1)%Z with c by lia; rewrite Hc0; split; reflexivity).
Qed.

End Win32Scoped.


(** ** The gates under interleaving *)

Lemma sum_list_with_insert {A} (f : A -> nat) (l : list A) i x y :
  l !! i = Some x ->
  sum_list_with f (<[i:=y]> l) + f x = sum_list_with f l + f y.
Proof.
  revert i. induction l as [|z l IH]; intros [|i] H; simplify_eq/=.
  - lia.
  - specialize (IH _ H). lia.
Qed.

Module PickleInvariantFacts.
Import Pickle PickleInvariant.

Local Arguments count_pc : simpl never.

Lemma pickle_count_pc_cons p q ts :
  count_pc p (q :: ts) = (if decide (q = p) then 1 else 0) + count_pc p ts.
Proof.
  unfold count_pc. rewrite filter_cons. destruct (decide (q = p)); reflexivity.
Qed.

Lemma pickle_units_census N ts :
  N * count_pc Writing ts + count_pc Reading ts <= sum_list_with (units N) ts.
Proof.
  induction ts as [|p ts IH]; [unfold count_pc; cbn; lia|].
  rewrite !pickle_count_pc_cons. cbn [sum_list_with].
  destruct p; repeat case_decide; simplify_eq; cbn [units]; nia.
Qed.

Lemma pickle_holder_census ts : count_pc Writing ts <= sum_list_with holder ts.
Proof.
  induction ts as [|p ts IH]; [unfold count_pc; cbn; lia|].
  rewrite !pickle_count_pc_cons. cbn [sum_list_with].
  destruct p; repeat case_decide; simplify_eq; cbn [holder]; lia.
Qed.

Lemma pickle_step_inv ev s s' : inv s -> step ev s = Some s' -> inv s'.
Proof.
  destruct ev as [i o], s as [g ts]. unfold step. cbn [fst snd threads shared].
  intros (Hu & Hl & Hr) Hstep. cbn [threads shared] in *.
  destruct (ts !! i) as [p|] eqn:Hi; [|discriminate]. cbn in Hstep.
  destruct (thread_step o p g) as [[p' g']|] eqn:Ht; [|discriminate].
  cbn in Hstep. simplify_eq.
  pose proof (Forall_lookup_1 _ _ _ _ Hr Hi) as Hp.
  destruct g as [v w N]. cbn [semaphore write_lock max_readers] in *.
  destruct o, p; cbn -[Nat.ltb] in Ht; try discriminate;
    unfold returns, Semaphore_acquire, Semaphore_release, Lock_acquire,
      Lock_release, modify in Ht;
    destruct v as [|v], w; cbn -[Nat.ltb] in Ht;
    repeat (case_match; cbn -[Nat.ltb] in Ht);
    simplify_eq;
    repeat match goal with
    | H : (_ <? _) = true |- _ => apply Nat.ltb_lt in H
    | H : (_ <? _) = false |- _ => apply Nat.ltb_ge in H
    end;
    match goal with
    | Hp0 : ts !! i = Some ?p0 |- inv (System _ (<[_:=?q]> _)) =>
        pose proof (sum_list_with_insert (units N) ts i p0 q Hp0);
        pose proof (sum_list_with_insert holder ts i p0 q Hp0)
    end;
    unfold inv, b2n in *; cbn [threads shared semaphore write_lock max_readers units
                                 holder in_range] in *;
    (split; [lia|]); (split; [lia|]);
    (apply Forall_insert; [assumption | cbn; lia]).
Qed.

Lemma pickle_exec_inv sched s s' : inv s -> exec sched s = Some s' -> inv s'.
Proof.
  revert s. induction sched as [|ev sched IH]; intros s Hinv H; cbn in H.
  - congruence.
  - destruct (step ev s) as [s1|] eqn:Hs; [|discriminate]. cbn in H.
    eapply IH; [|exact H]. eapply pickle_step_inv; eassumption.
Qed.

Lemma pickle_initial_inv actors N : inv (initial actors N).
Proof.
  unfold inv, initial. cbn.
  assert (forall f : pc -> nat, f Idle = 0 -> sum_list_with f (replicate actors Idle) = 0) as H.
  { intros f Hf. induction actors as [|n IH]; cbn; lia. }
  rewrite !H by reflexivity. split; [lia|]. split; [reflexivity|].
  apply Forall_replicate. exact I.
Qed.

(** While an actor is writing, it is the only one, no actor is reading,
    and the semaphore has no unit left. *)
Lemma pickle_inv_exclusion s :
  inv s ->
  writers s <= 1 /\
  (0 < writers s -> readers s = 0 /\ semaphore (shared s) = 0).
Proof.
  unfold inv, writers, readers. intros (Hu & Hl & _).
  pose proof (pickle_units_census (max_readers (shared s)) (threads s)).
  pose proof (pickle_holder_census (threads s)).
  assert (count_pc Writing (threads s) <= 1) as Hw
    by (destruct (write_lock (shared s)); cbn in Hl; lia).
  split; [assumption|]. intros Hpos.
  assert (count_pc Writing (threads s) = 1) as E by lia.
  rewrite E in *. lia.
Qed.

End PickleInvariantFacts.

Module Win32InvariantFacts.
Import WinApi Win32Invariant.

Local Arguments count_pc : simpl never.
Local Arguments at_pc : simpl never.
Local Arguments b2n : simpl nomatch.

Lemma b2n_le_1 b : b2n b <= 1.
Proof. destruct b; cbn; lia. Qed.

Lemma win32_count_pc_cons p q ts :
  count_pc p (q :: ts) = (if decide (q = p) then 1 else 0) + count_pc p ts.
Proof.
  unfold count_pc. rewrite filter_cons. destruct (decide (q = p)); reflexivity.
Qed.

Lemma win32_count_pc_insert r ts i p q :
  ts !! i = Some p ->
  count_pc r (<[i:=q]> ts) + at_pc p r = count_pc r ts + at_pc q r.
Proof.
  unfold at_pc.
  revert i. induction ts as [|x ts IH]; intros [|i] H; simplify_eq/=.
  - rewrite !win32_count_pc_cons. lia.
  - rewrite !win32_count_pc_cons. specialize (IH _ H). lia.
Qed.

Lemma win32_count_pc_lookup ts i p : ts !! i = Some p -> 0 < count_pc p ts.
Proof.
  revert i. induction ts as [|x ts IH]; intros [|i] H; simplify_eq/=.
  - rewrite win32_count_pc_cons, decide_True by reflexivity. lia.
  - rewrite win32_count_pc_cons. specialize (IH _ H). lia.
Qed.

Lemma win32_count_pc_replicate p q n :
  count_pc p (replicate n q) = n * at_pc q p.
Proof.
  unfold at_pc. induction n as [|n IH]; simpl.
  - reflexivity.
  - rewrite win32_count_pc_cons, IH. destruct (decide (q = p)); lia.
Qed.

Ltac eval_at_pc :=
  repeat match goal with
  | H : context [at_pc ?a ?b] |- _ =>
      let v := eval vm_compute in (at_pc a b) in
      change (at_pc a b) with v in H
  | |- context [at_pc ?a ?b] =>
      let v := eval vm_compute in (at_pc a b) in
      change (at_pc a b) with v
  end.

(** How the census changes when the actor at [i] moves from [p] to [q]. *)
Ltac census ts i p q H :=
  pose proof (win32_count_pc_lookup ts i p H);
  let Hc := fresh "Hc" in
  pose proof (fun r => win32_count_pc_insert r ts i p q H) as Hc;
  pose proof (Hc Idle);
  pose proof (Hc AcquireRead_mutex);
  pose proof (Hc AcquireRead_incr);
  pose proof (Hc AcquireRead_test);
  pose proof (Hc AcquireRead_event);
  pose proof (Hc AcquireRead_unlock);
  pose proof (Hc Reading);
  pose proof (Hc ReleaseRead_mutex);
  pose proof (Hc ReleaseRead_decr);
  pose proof (Hc ReleaseRead_test);
  pose proof (Hc ReleaseRead_event);
  pose proof (Hc ReleaseRead_unlock);
  pose proof (Hc AcquireWrite_event);
  pose proof (Hc AcquireWrite_mutex);
  pose proof (Hc Writing);
  pose proof (Hc ReleaseWrite_unlock);
  pose proof (Hc ReleaseWrite_event);
  clear Hc; eval_at_pc.

Ltac tests :=
  repeat match goal with
  | H : context [(?a =? ?b)%Z] |- _ =>
      let E := fresh "E" in
      destruct (a =? b)%Z eqn:E;
      [apply Z.eqb_eq in E | apply Z.eqb_neq in E]
  end.

Lemma win32_step_inv ev s s' : inv s -> step ev s = Some s' -> inv s'.
Proof.
  destruct ev as [i o], s as [g ts]. unfold step. cbn [fst snd threads shared].
  intros Hinv Hstep.
  destruct (ts !! i) as [p|] eqn:Hi; [|discriminate]. cbn in Hstep.
  destruct (thread_step o p g) as [[p' g']|] eqn:Ht; [|discriminate].
  cbn in Hstep. simplify_eq.
  destruct g as [ev mx c N].
  pose proof (b2n_le_1 ev). pose proof (b2n_le_1 mx).
  destruct o, p; cbn in Ht; try discriminate;
    unfold returns, Wait_write_mutex, Wait_read_event, SetEvent, ReleaseMutex,
      add_reader_count, modify in Ht; cbn in Ht;
    tests; repeat (case_match; cbn in Ht); simplify_eq;
    match goal with
    | Hp : ts !! i = Some ?p0 |- inv (System _ (<[_:=?q]> _)) => census ts i p0 q Hp
    end;
    unfold inv in *; cbn in *; lia.
Qed.

Lemma win32_exec_inv sched s s' : inv s -> exec sched s = Some s' -> inv s'.
Proof.
  revert s. induction sched as [|ev sched IH]; intros s Hinv H; cbn in H.
  - congruence.
  - destruct (step ev s) as [s1|] eqn:Hs; [|discriminate]. cbn in H.
    eapply IH; [|exact H]. eapply win32_step_inv; eassumption.
Qed.

Lemma win32_initial_inv actors N : inv (initial actors N).
Proof.
  unfold inv, initial. cbn. rewrite !win32_count_pc_replicate. eval_at_pc. cbn. lia.
Qed.

(** While an actor is writing, it is the only one, no actor is reading,
    and the counter is 0. *)
Lemma win32_inv_exclusion s :
  inv s ->
  writers s <= 1 /\
  (0 < writers s -> readers s = 0 /\ reader_count (shared s) = 0%Z).
Proof.
  unfold inv, writers, readers. cbn zeta.
  destruct (write_mutex (shared s)), (read_event (shared s)); cbn [b2n]; lia.
Qed.

End Win32InvariantFacts.

(** ** One actor alone: the steps of the interleaving semantics add up to
    the methods *)

Section Solo.

Lemma pickle_solo_drain N j k v :
  j <= v -> k + j <= N ->
  Pickle.exec (replicate j (0, acquire_write))
    (Pickle.System (Pickle.Gate v true N) [Pickle.AcquireWrite_loop k]) =
  Some (Pickle.System (Pickle.Gate (v - j) true N) [Pickle.AcquireWrite_loop (k + j)]).
Proof.
  revert k v. induction j as [|j IH]; intros k v Hv Hk.
  - cbn. rewrite Nat.sub_0_r, Nat.add_0_r. reflexivity.
  - destruct v as [|v]; [lia|].
    cbn [replicate Pickle.exec]. unfold Pickle.step at 1. cbn -[Nat.ltb Pickle.exec].
    assert ((k <? N) = true) as -> by (apply Nat.ltb_lt; lia).
    cbn -[Pickle.exec]. rewrite IH by lia.
    replace (S k + j) with (k + S j) by lia. reflexivity.
Qed.

Lemma pickle_solo_refill N j k v :
  k + j <= N ->
  Pickle.exec (replicate j (0, release_write))
    (Pickle.System (Pickle.Gate v true N) [Pickle.ReleaseWrite_loop k]) =
  Some (Pickle.System (Pickle.Gate (v + j) true N) [Pickle.ReleaseWrite_loop (k + j)]).
Proof.
  revert k v. induction j as [|j IH]; intros k v Hk.
  - cbn. rewrite !Nat.add_0_r. reflexivity.
  - cbn [replicate Pickle.exec]. unfold Pickle.step at 1. cbn -[Nat.ltb Pickle.exec].
    assert ((k <? N) = true) as -> by (apply Nat.ltb_lt; lia).
    cbn -[Pickle.exec]. rewrite IH by lia.
    replace (S k + j) with (k + S j) by lia.
    replace (S v + j) with (v + S j) by lia. reflexivity.
Qed.

Lemma exec_app_pickle sched1 sched2 s s1 :
  Pickle.exec sched1 s = Some s1 ->
  Pickle.exec (sched1 ++ sched2) s = Pickle.exec sched2 s1.
Proof.
  revert s. induction sched1 as [|ev sched1 IH]; intros s H; cbn in *.
  - congruence.
  - destruct (Pickle.step ev s) as [s'|]; [|discriminate]. cbn in *. auto.
Qed.

(** A sole actor that runs [acquire_write_lock] to its end leaves the
    gate the method leaves. *)
Lemma pickle_solo_acquire_write (s : Pickle.SynchronizedDatabase.t) s' :
  Pickle.SynchronizedDatabase.acquire_write_lock s = (Return tt, s') ->
  exists sched,
    Pickle.exec sched
      (Pickle.System (Pickle.SynchronizedDatabase.the_gate s) [Pickle.Idle]) =
    Some (Pickle.System (Pickle.SynchronizedDatabase.the_gate s') [Pickle.Writing]).
Proof.
  rewrite PickleGateFacts.pickle_acquire_write_lock_eq. cbn zeta.
  destruct s as [fb md [v w N]]. cbn.
  destruct w; [discriminate|].
  destruct (N <=? v) eqn:Hle; [|discriminate]. apply Nat.leb_le in Hle.
  intros [= <-]. cbn.
  exists ([(0, acquire_write); (0, acquire_write)] ++ replicate N (0, acquire_write)
          ++ [(0, acquire_write)]).
  rewrite (exec_app_pickle _ _ _
             (Pickle.System (Pickle.Gate v true N) [Pickle.AcquireWrite_loop 0]))
    by reflexivity.
  rewrite (exec_app_pickle _ _ _
             (Pickle.System (Pickle.Gate (v - N) true N) [Pickle.AcquireWrite_loop N]))
    by (apply (pickle_solo_drain N N 0 v); lia).
  cbn -[Nat.ltb]. unfold Pickle.step. cbn -[Nat.ltb].
  rewrite Nat.ltb_irrefl. reflexivity.
Qed.

Lemma pickle_solo_release_write (s : Pickle.SynchronizedDatabase.t) s' :
  Pickle.write_lock (Pickle.SynchronizedDatabase.the_gate s) = true ->
  Pickle.SynchronizedDatabase.release_write_lock s = (Return tt, s') ->
  exists sched,
    Pickle.exec sched
      (Pickle.System (Pickle.SynchronizedDatabase.the_gate s) [Pickle.Writing]) =
    Some (Pickle.System (Pickle.SynchronizedDatabase.the_gate s') [Pickle.Idle]).
Proof.
  rewrite PickleGateFacts.pickle_release_write_lock_eq. cbn zeta.
  destruct s as [fb md [v w N]]. cbn. intros ->. intros [= <-]. cbn.
  exists ([(0, release_write)] ++ replicate N (0, release_write)
          ++ [(0, release_write); (0, release_write)]).
  rewrite (exec_app_pickle _ _ _
             (Pickle.System (Pickle.Gate v true N) [Pickle.ReleaseWrite_loop 0]))
    by reflexivity.
  rewrite (exec_app_pickle _ _ _
             (Pickle.System (Pickle.Gate (v + N) true N) [Pickle.ReleaseWrite_loop N]))
    by (apply (pickle_solo_refill N N 0 v); lia).
  cbn -[Nat.ltb]. unfold Pickle.step. cbn -[Nat.ltb].
  rewrite Nat.ltb_irrefl. reflexivity.
Qed.

Lemma pickle_solo_acquire_read (s : Pickle.SynchronizedDatabase.t) s' :
  Pickle.SynchronizedDatabase.acquire_read_lock s = (Return tt, s') ->
  Pickle.exec [(0, acquire_read); (0, acquire_read)]
    (Pickle.System (Pickle.SynchronizedDatabase.the_gate s) [Pickle.Idle]) =
  Some (Pickle.System (Pickle.SynchronizedDatabase.the_gate s') [Pickle.Reading]).
Proof.
  rewrite PickleGateFacts.pickle_acquire_read_lock_eq. cbn zeta.
  destruct s as [fb md [[|v] w N]]; cbn; [discriminate|].
  intros [= <-]. reflexivity.
Qed.

Lemma pickle_solo_release_read (s : Pickle.SynchronizedDatabase.t) s' :
  Pickle.SynchronizedDatabase.release_read_semaphore s = (Return tt, s') ->
  Pickle.exec [(0, release_read); (0, release_read)]
    (Pickle.System (Pickle.SynchronizedDatabase.the_gate s) [Pickle.Reading]) =
  Some (Pickle.System (Pickle.SynchronizedDatabase.the_gate s') [Pickle.Idle]).
Proof.
  rewrite PickleGateFacts.pickle_release_read_semaphore_eq. cbn zeta.
  destruct s as [fb md [v w N]]; cbn. intros [= <-]. reflexivity.
Qed.

Lemma win32_solo_acquire_read (s : WinApi.SynchronizedDatabase.t) s' :
  WinApi.SynchronizedDatabase.acquire_read_lock s = (Return tt, s') ->
  exists n,
    WinApi.exec (replicate n (0, acquire_read))
      (WinApi.System (WinApi.SynchronizedDatabase.the_gate s) [WinApi.Idle]) =
    Some (WinApi.System (WinApi.SynchronizedDatabase.the_gate s') [WinApi.Reading]).
Proof.
  rewrite Win32GateFacts.win32_acquire_read_lock_eq. cbn zeta.
  destruct s as [fb [ev [] c N]]; cbn; [discriminate|].
  destruct (c + 1 =? 1)%Z eqn:Hc; [destruct ev; [|discriminate]|]; intros [= <-].
  - exists 6. cbn. unfold WinApi.step. cbn. rewrite Hc. reflexivity.
  - exists 5. cbn. unfold WinApi.step. cbn. rewrite Hc. reflexivity.
Qed.

Lemma win32_solo_release_read (s : WinApi.SynchronizedDatabase.t) s' :
  WinApi.SynchronizedDatabase.release_read_semaphore s = (Return tt, s') ->
  exists n,
    WinApi.exec (replicate n (0, release_read))
      (WinApi.System (WinApi.SynchronizedDatabase.the_gate s) [WinApi.Reading]) =
    Some (WinApi.System (WinApi.SynchronizedDatabase.the_gate s') [WinApi.Idle]).
Proof.
  rewrite Win32GateFacts.win32_release_read_semaphore_eq. cbn zeta.
  destruct s as [fb [ev [] c N]]; cbn; [discriminate|].
  intros [= <-].
  destruct (c + -1 =? 0)%Z eqn:Hc.
  - exists 6. cbn. unfold WinApi.step. cbn. rewrite Hc. reflexivity.
  - exists 5. cbn. unfold WinApi.step. cbn. rewrite Hc. reflexivity.
Qed.

Lemma win32_solo_acquire_write (s : WinApi.SynchronizedDatabase.t) s' :
  WinApi.SynchronizedDatabase.acquire_write_lock s = (Return tt, s') ->
  WinApi.exec (replicate 3 (0, acquire_write))
    (WinApi.System (WinApi.SynchronizedDatabase.the_gate s) [WinApi.Idle]) =
  Some (WinApi.System (WinApi.SynchronizedDatabase.the_gate s') [WinApi.Writing]).
Proof.
  rewrite Win32GateFacts.win32_acquire_write_lock_eq. cbn zeta.
  destruct s as [fb [[] [] c N]]; cbn; try discriminate.
  intros [= <-]. reflexivity.
Qed.

Lemma win32_solo_release_write (s : WinApi.SynchronizedDatabase.t) s' :
  WinApi.SynchronizedDatabase.release_write_lock s = (Return tt, s') ->
  WinApi.exec (replicate 3 (0, release_write))
    (WinApi.System (WinApi.SynchronizedDatabase.the_gate s) [WinApi.Writing]) =
  Some (WinApi.System (WinApi.SynchronizedDatabase.the_gate s') [WinApi.Idle]).
Proof.
  rewrite Win32GateFacts.win32_release_write_lock_eq. cbn zeta.
  destruct s as [fb [ev [] c N]]; cbn; try discriminate.
  intros [= <-]. reflexivity.
Qed.

End Solo.

(** ** More on the gates under interleaving *)

Lemma pickle_exec_max_readers sched s s' :
  Pickle.exec sched s = Some s' ->
  Pickle.max_readers (Pickle.shared s') = Pickle.max_readers (Pickle.shared s).
Proof.
  revert s. induction sched as [|[i o] sched IH]; intros s H; cbn in H.
  - congruence.
  - destruct (Pickle.step (i, o) s) as [s1|] eqn:Hs; [|discriminate]. cbn in H.
    rewrite (IH _ H). clear IH H.
    destruct s as [[v w N] ts]. unfold Pickle.step in Hs. cbn -[Nat.ltb] in Hs.
    destruct (ts !! i) as [p|]; [|discriminate]. cbn -[Nat.ltb] in Hs.
    destruct o, p; cbn -[Nat.ltb] in Hs; try discriminate;
      unfold returns, Pickle.Semaphore_acquire, Pickle.Semaphore_release,
        Pickle.Lock_acquire, Pickle.Lock_release, modify in Hs;
      destruct v as [|v], w; cbn -[Nat.ltb] in Hs;
      repeat (case_match; cbn -[Nat.ltb] in Hs); simplify_eq; reflexivity.
Qed.

(** X1. Bounded concurrency of the semaphore gate: along every schedule,
    never more than [max_readers] actors are inside a read critical
    section. *)
Lemma readers_bounded actors max_readers sched s :
  Pickle.exec sched (Pickle.initial actors max_readers) = Some s ->
  Pickle.readers s <= max_readers.
Proof.
  intros H.
  pose proof (pickle_exec_max_readers _ _ _ H) as HN. cbn in HN.
  pose proof (PickleInvariantFacts.pickle_exec_inv _ _ _
                (PickleInvariantFacts.pickle_initial_inv actors max_readers) H)
    as (Hu & _ & _).
  pose proof (PickleInvariantFacts.pickle_units_census
                (Pickle.max_readers (Pickle.shared s)) (Pickle.threads s)).
  unfold Pickle.readers. lia.
Qed.

Lemma readers_bounded_witness :
  Pickle.readers
    (Pickle.System (Pickle.Gate 0 false 2)
       [Pickle.Reading; Pickle.Reading; Pickle.AcquireRead_semaphore]) <= 2.
Proof.
  apply (readers_bounded 3 2
           [(0, acquire_read); (0, acquire_read); (1, acquire_read);
            (1, acquire_read); (2, acquire_read)]).
  reflexivity.
Defined.

(** The semaphore gate takes the lock before it drains: while a writer
    holds [write_lock] and still waits for units, a reader that came
    before it is inside its critical section. *)
Example drain_overlaps_readers :
  Pickle.exec [(1, acquire_read); (1, acquire_read); (0, acquire_write);
               (0, acquire_write); (0, acquire_write)] (Pickle.initial 2 2) =
  Some (Pickle.System (Pickle.Gate 0 true 2)
          [Pickle.AcquireWrite_loop 1; Pickle.Reading]).
Proof. reflexivity. Qed.

(** X2. The event/mutex gate can stop for good: a writer that has consumed
    the event waits for the mutex, which the first reader holds while it
    waits for the event; no actor can take a step. *)
Lemma writer_and_first_reader_deadlock :
  exists s,
    WinApi.exec [(0, acquire_write); (0, acquire_write); (1, acquire_read);
                 (1, acquire_read); (1, acquire_read); (1, acquire_read)]
      (WinApi.initial 2 2) = Some s /\
    WinApi.threads s = [WinApi.AcquireWrite_mutex; WinApi.AcquireRead_event] /\
    forall ev, WinApi.step ev s = None.
Proof.
  eexists. split; [reflexivity|]. split; [reflexivity|].
  intros [[|[|i]] o]; destruct o; reflexivity.
Qed.
(** Readers do share the gate: two actors inside a read critical section
    at once, in either variant. *)
Example readers_overlap :
  (exists s,
     Pickle.exec [(0, acquire_read); (1, acquire_read); (0, acquire_read);
                  (1, acquire_read)] (Pickle.initial 2 2) = Some s /\
     Pickle.readers s = 2) /\
  (exists s,
     WinApi.exec [(0, acquire_read); (0, acquire_read); (0, acquire_read);
                  (0, acquire_read); (0, acquire_read); (0, acquire_read);
                  (1, acquire_read); (1, acquire_read); (1, acquire_read);
                  (1, acquire_read); (1, acquire_read)]
       (WinApi.initial 2 2) = Some s /\
     WinApi.readers s = 2).
Proof. split; eexists; split; vm_compute; reflexivity. Qed.

(** While an actor writes behind the semaphore gate, the semaphore has no
    unit left: a reader that arrives waits. *)
Lemma writing_drains_semaphore actors max_readers sched s :
  Pickle.exec sched (Pickle.initial actors max_readers) = Some s ->
  0 < Pickle.writers s ->
  Pickle.semaphore (Pickle.shared s) = 0.
Proof.
  intros H Hpos.
  pose proof (PickleInvariantFacts.pickle_exec_inv _ _ _
                (PickleInvariantFacts.pickle_initial_inv actors max_readers) H) as Hinv.
  apply PickleInvariantFacts.pickle_inv_exclusion in Hinv as [_ Hr].
  apply Hr, Hpos.
Qed.

(** ** Scoped acquisition *)

(** C3. In both variants, every call of [get_value], [set_value] and
    [delete_value]/[del_value] that ends, by returning or by raising, is
    made of these steps: the acquire, which returned with the gate held
    (a unit taken; the lock and [max_readers] units taken; a reader more
    counted; the signal consumed and the mutex owned); the method of
    [FileDatabase], which ended the way the call ends and left the gate
    held; the matching release, run on the state that method left, which
    returned and gave the gate back as the call found it.  The release
    is the last thing logged.  A call on a free gate does end.  The
    protected operation does raise: on a file that holds the pickle of
    an object that supports no subscription, reading and deleting raise
    [TypeError], and the release runs all the same. *)
Theorem guaranteed_release key value :
  (scoped_by Pickle.SynchronizedDatabase.the_gate
     Pickle.SynchronizedDatabase.acquire_read_lock
     Pickle.SynchronizedDatabase.release_read_semaphore pickle_read_held
     (Pickle.SynchronizedDatabase.super (Pickle.FileDatabase.get_value key))
     (Pickle.SynchronizedDatabase.get_value key) /\
   scoped_by Pickle.SynchronizedDatabase.the_gate
     Pickle.SynchronizedDatabase.acquire_write_lock
     Pickle.SynchronizedDatabase.release_write_lock pickle_write_held
     (Pickle.SynchronizedDatabase.super (Pickle.FileDatabase.set_value key value))
     (Pickle.SynchronizedDatabase.set_value key value) /\
   scoped_by Pickle.SynchronizedDatabase.the_gate
     Pickle.SynchronizedDatabase.acquire_write_lock
     Pickle.SynchronizedDatabase.release_write_lock pickle_write_held
     (Pickle.SynchronizedDatabase.super (Pickle.FileDatabase.del_value key))
     (Pickle.SynchronizedDatabase.delete_value key)) /\
  (scoped_by WinApi.SynchronizedDatabase.the_gate
     WinApi.SynchronizedDatabase.acquire_read_lock
     WinApi.SynchronizedDatabase.release_read_semaphore win32_read_held
     (WinApi.SynchronizedDatabase.super (WinApi.FileDatabase.get_value key))
     (WinApi.SynchronizedDatabase.get_value key) /\
   scoped_by WinApi.SynchronizedDatabase.the_gate
     WinApi.SynchronizedDatabase.acquire_write_lock
     WinApi.SynchronizedDatabase.release_write_lock win32_write_held
     (WinApi.SynchronizedDatabase.super (WinApi.FileDatabase.set_value key value))
     (WinApi.SynchronizedDatabase.set_value key value) /\
   scoped_by WinApi.SynchronizedDatabase.the_gate
     WinApi.SynchronizedDatabase.acquire_write_lock
     WinApi.SynchronizedDatabase.release_write_lock win32_write_held
     (WinApi.SynchronizedDatabase.super (WinApi.FileDatabase.del_value key))
     (WinApi.SynchronizedDatabase.del_value key)) /\
  (releases_gate Pickle.SynchronizedDatabase.the_gate pickle_log
     (DEBUG, ReleasingReadSemaphore) (Pickle.SynchronizedDatabase.get_value key) /\
   releases_gate Pickle.SynchronizedDatabase.the_gate pickle_log
     (DEBUG, ReleasingWriteLock) (Pickle.SynchronizedDatabase.set_value key value) /\
   releases_gate Pickle.SynchronizedDatabase.the_gate pickle_log
     (DEBUG, ReleasingWriteLock) (Pickle.SynchronizedDatabase.delete_value key)) /\
  (releases_gate WinApi.SynchronizedDatabase.the_gate win32_log
     (DEBUG, ReaderReleased) (WinApi.SynchronizedDatabase.get_value key) /\
   releases_gate WinApi.SynchronizedDatabase.the_gate win32_log
     (DEBUG, WriterReleased) (WinApi.SynchronizedDatabase.set_value key value) /\
   releases_gate WinApi.SynchronizedDatabase.the_gate win32_log
     (DEBUG, WriterReleased) (WinApi.SynchronizedDatabase.del_value key)) /\
  (exits_when Pickle.SynchronizedDatabase.the_gate pickle_read_free
     (Pickle.SynchronizedDatabase.get_value key) /\
   exits_when Pickle.SynchronizedDatabase.the_gate pickle_write_free
     (Pickle.SynchronizedDatabase.set_value key value) /\
   exits_when Pickle.SynchronizedDatabase.the_gate pickle_write_free
     (Pickle.SynchronizedDatabase.delete_value key)) /\
  (exits_when WinApi.SynchronizedDatabase.the_gate win32_read_free
     (WinApi.SynchronizedDatabase.get_value key) /\
   exits_when WinApi.SynchronizedDatabase.the_gate win32_write_free
     (WinApi.SynchronizedDatabase.set_value key value) /\
   exits_when WinApi.SynchronizedDatabase.the_gate win32_write_free
     (WinApi.SynchronizedDatabase.del_value key)).
Proof.
  repeat match goal with |- _ /\ _ => split end.
  - apply PickleScoped.pickle_read_scope_scoped.
  - apply PickleScoped.pickle_write_scope_scoped.
  - apply PickleScoped.pickle_write_scope_scoped.
  - apply Win32Scoped.win32_read_scope_scoped.
  - apply Win32Scoped.win32_write_scope_scoped.
  - apply Win32Scoped.win32_write_scope_scoped.
  - apply PickleGateFacts.pickle_read_scope_releases.
  - apply PickleGateFacts.pickle_write_scope_releases.
  - apply PickleGateFacts.pickle_write_scope_releases.
  - apply Win32GateFacts.win32_read_scope_releases.
  - apply Win32GateFacts.win32_write_scope_releases.
  - apply Win32GateFacts.win32_write_scope_releases.
  - apply PickleGateFacts.pickle_read_scope_exits, pickle_get_value_ends.
  - apply PickleGateFacts.pickle_write_scope_exits, pickle_set_value_ends.
  - apply PickleGateFacts.pickle_write_scope_exits, pickle_del_value_ends.
  - apply Win32GateFacts.win32_read_scope_exits, win32_get_value_ends.
  - apply Win32GateFacts.win32_write_scope_exits, win32_set_value_ends.
  - apply Win32GateFacts.win32_write_scope_exits, win32_del_value_ends.
Qed.

Lemma guaranteed_release_witness :
  (exists s1 s2,
     Pickle.SynchronizedDatabase.acquire_read_lock pickle_store_of_other = (Return tt, s1) /\
     pickle_read_held (Pickle.new_gate 2) (Pickle.SynchronizedDatabase.the_gate s1) /\
     Pickle.SynchronizedDatabase.super (Pickle.FileDatabase.get_value 1) s1 =
       (Raise TypeError, s2) /\
     Pickle.SynchronizedDatabase.the_gate s2 = Pickle.SynchronizedDatabase.the_gate s1 /\
     Pickle.SynchronizedDatabase.release_read_semaphore s2 =
       (Return tt, (Pickle.SynchronizedDatabase.get_value 1 pickle_store_of_other).2) /\
     Pickle.SynchronizedDatabase.the_gate
       (Pickle.SynchronizedDatabase.get_value 1 pickle_store_of_other).2 =
       Pickle.new_gate 2) /\
  (exists s1 s2,
     WinApi.SynchronizedDatabase.acquire_write_lock win32_store_of_other = (Return tt, s1) /\
     win32_write_held (WinApi.new_gate 2) (WinApi.SynchronizedDatabase.the_gate s1) /\
     WinApi.SynchronizedDatabase.super (WinApi.FileDatabase.del_value 1) s1 =
       (Raise TypeError, s2) /\
     WinApi.SynchronizedDatabase.the_gate s2 = WinApi.SynchronizedDatabase.the_gate s1 /\
     WinApi.SynchronizedDatabase.release_write_lock s2 =
       (Return tt, (WinApi.SynchronizedDatabase.del_value 1 win32_store_of_other).2) /\
     WinApi.SynchronizedDatabase.the_gate
       (WinApi.SynchronizedDatabase.del_value 1 win32_store_of_other).2 =
       WinApi.new_gate 2).
Proof.
  split.
  - apply (proj1 (proj1 (guaranteed_release 1 0)) pickle_store_of_other (Raise TypeError)).
    + reflexivity.
    + discriminate.
  - apply (proj2 (proj2 (proj1 (proj2 (guaranteed_release 1 0))))
             win32_store_of_other (Raise TypeError)).
    + reflexivity.
    + discriminate.
Defined.

(** An actor that takes units for writing, that writes, or that gives
    the units back holds the lock, and the units it has are not in the
    semaphore. *)
Lemma lock_held_around_units actors max_readers sched s i p :
  Pickle.exec sched (Pickle.initial actors max_readers) = Some s ->
  Pickle.threads s !! i = Some p ->
  PickleInvariant.holder p = 1 ->
  Pickle.write_lock (Pickle.shared s) = true /\
  Pickle.semaphore (Pickle.shared s) + PickleInvariant.units max_readers p <= max_readers.
Proof.
  intros H Hi Hp.
  pose proof (pickle_exec_max_readers _ _ _ H) as Hmax. cbn in Hmax.
  pose proof (PickleInvariantFacts.pickle_exec_inv _ _ _
                (PickleInvariantFacts.pickle_initial_inv actors max_readers) H)
    as (Hu & Hl & _).
  rewrite Hmax in Hu.
  pose proof (sum_list_with_insert PickleInvariant.holder _ i p Pickle.Idle Hi) as Eh.
  pose proof (sum_list_with_insert (PickleInvariant.units max_readers) _ i p Pickle.Idle Hi)
    as Eu.
  cbn [PickleInvariant.holder PickleInvariant.units] in Eh, Eu.
  split; [|lia].
  destruct (Pickle.write_lock (Pickle.shared s)); [reflexivity|]. cbn in Hl. lia.
Qed.

(** C8. [acquire_write_lock] of sync_Database.py takes the lock first and
    then [max_readers] units of the semaphore one by one: with the lock
    held by another it blocks and takes no unit; with the lock free and
    fewer units than [max_readers] available it blocks holding the lock,
    having taken every unit there was; otherwise it returns with the
    lock and exactly [max_readers] units.  [release_write_lock] gives
    [max_readers] units back and then frees the lock: on a lock that is
    held it leaves [max_readers] units more and the lock free; on a lock
    that is free the units are back before the release of the lock
    fails, so that it leaves [max_readers] units more all the same and
    logs the error.  From the gate as built, [acquire_write_lock] leaves
    no unit, so that a reader blocks, and [release_write_lock] restores
    the gate as built.  Under interleaving, along every schedule: the
    semaphore has no unit left while an actor is between
    [acquire_write_lock] and [release_write_lock]; an actor that has
    taken [k] units holds the lock, and these units are not in the
    semaphore; an actor that has given [k] units back still holds the
    lock, and the semaphore has at most those [k] units; the lock is
    still held when all the units are back. *)
Theorem write_lock_algorithm (s : Pickle.SynchronizedDatabase.t) :
  let g := Pickle.SynchronizedDatabase.the_gate s in
  let N := Pickle.max_readers g in
  (Pickle.write_lock g = false -> N <= Pickle.semaphore g ->
   exists s', Pickle.SynchronizedDatabase.acquire_write_lock s = (Return tt, s') /\
              Pickle.SynchronizedDatabase.the_gate s' =
                Pickle.Gate (Pickle.semaphore g - N) true N) /\
  (Pickle.write_lock g = true ->
   exists s', Pickle.SynchronizedDatabase.acquire_write_lock s = (Blocked, s') /\
              Pickle.SynchronizedDatabase.the_gate s' = g) /\
  (Pickle.write_lock g = false -> Pickle.semaphore g < N ->
   exists s', Pickle.SynchronizedDatabase.acquire_write_lock s = (Blocked, s') /\
              Pickle.SynchronizedDatabase.the_gate s' = Pickle.Gate 0 true N) /\
  (Pickle.write_lock g = true ->
   exists s', Pickle.SynchronizedDatabase.release_write_lock s = (Return tt, s') /\
              Pickle.SynchronizedDatabase.the_gate s' =
                Pickle.Gate (Pickle.semaphore g + N) false N) /\
  (Pickle.write_lock g = false ->
   exists s' e,
     Pickle.SynchronizedDatabase.release_write_lock s = (Return tt, s') /\
     Pickle.SynchronizedDatabase.the_gate s' =
       Pickle.Gate (Pickle.semaphore g + N) false N /\
     last (pickle_log s') = Some (ERROR, ErrorReleasingWriteLock e)) /\
  (g = Pickle.new_gate N ->
   exists s1 s2,
     Pickle.SynchronizedDatabase.acquire_write_lock s = (Return tt, s1) /\
     Pickle.SynchronizedDatabase.the_gate s1 = Pickle.Gate 0 true N /\
     (Pickle.SynchronizedDatabase.acquire_read_lock s1).1 = Blocked /\
     Pickle.SynchronizedDatabase.release_write_lock s1 = (Return tt, s2) /\
     Pickle.SynchronizedDatabase.the_gate s2 = Pickle.new_gate N) /\
  (forall actors sched s',
     Pickle.exec sched (Pickle.initial actors N) = Some s' ->
     (0 < Pickle.writers s' -> Pickle.semaphore (Pickle.shared s') = 0) /\
     (forall i k,
        Pickle.threads s' !! i = Some (Pickle.AcquireWrite_loop k) ->
        Pickle.write_lock (Pickle.shared s') = true /\
        Pickle.semaphore (Pickle.shared s') + k <= N) /\
     (forall i k,
        Pickle.threads s' !! i = Some (Pickle.ReleaseWrite_loop k) ->
        Pickle.write_lock (Pickle.shared s') = true /\
        Pickle.semaphore (Pickle.shared s') <= k) /\
     (forall i,
        Pickle.threads s' !! i = Some Pickle.ReleaseWrite_lock ->
        Pickle.write_lock (Pickle.shared s') = true)).
Proof.
  cbn zeta. destruct s as [fb md [v w N]]; cbn [Pickle.SynchronizedDatabase.the_gate
    Pickle.max_readers Pickle.semaphore Pickle.write_lock].
  repeat match goal with |- _ /\ _ => split end.
  - intros -> Hle. rewrite PickleGateFacts.pickle_acquire_write_lock_eq. cbn.
    apply Nat.leb_le in Hle. rewrite Hle. eexists; split; reflexivity.
  - intros ->. rewrite PickleGateFacts.pickle_acquire_write_lock_eq. cbn.
    eexists; split; reflexivity.
  - intros -> Hlt. rewrite PickleGateFacts.pickle_acquire_write_lock_eq. cbn.
    apply Nat.leb_gt in Hlt. rewrite Hlt. eexists; split; reflexivity.
  - intros ->. rewrite PickleGateFacts.pickle_release_write_lock_eq. cbn.
    eexists; split; reflexivity.
  - intros ->. rewrite PickleGateFacts.pickle_release_write_lock_eq. cbn.
    do 2 eexists. split; [reflexivity|]. split; [reflexivity|].
    unfold pickle_log. cbn. apply last_snoc.
  - intros [= -> ->]. rewrite PickleGateFacts.pickle_acquire_write_lock_eq. cbn.
    rewrite Nat.leb_refl, Nat.sub_diag.
    do 2 eexists. split; [reflexivity|]. split; [reflexivity|].
    split; [reflexivity|].
    rewrite PickleGateFacts.pickle_release_write_lock_eq. cbn. split; reflexivity.
  - intros actors sched s' H. split; [|split; [|split]].
    + apply (writing_drains_semaphore _ _ _ _ H).
    + intros i k Hi.
      apply (lock_held_around_units _ _ _ _ _ _ H Hi eq_refl).
    + intros i k Hi.
      destruct (lock_held_around_units _ _ _ _ _ _ H Hi eq_refl) as [Hl Hu].
      split; [assumption|]. cbn in Hu.
      pose proof (PickleInvariantFacts.pickle_exec_inv _ _ _
                    (PickleInvariantFacts.pickle_initial_inv actors N) H) as (_ & _ & Hr).
      pose proof (Forall_lookup_1 _ _ _ _ Hr Hi) as Hk.
      pose proof (pickle_exec_max_readers _ _ _ H) as Hmax. cbn in Hmax, Hk.
      rewrite Hmax in Hk. lia.
    + intros i Hi.
      apply (lock_held_around_units _ _ _ _ _ _ H Hi eq_refl).
Qed.

Lemma write_lock_algorithm_witness :
  (exists s1 s2,
     Pickle.SynchronizedDatabase.acquire_write_lock pickle_store_of_other = (Return tt, s1) /\
     Pickle.SynchronizedDatabase.the_gate s1 = Pickle.Gate 0 true 2 /\
     (Pickle.SynchronizedDatabase.acquire_read_lock s1).1 = Blocked /\
     Pickle.SynchronizedDatabase.release_write_lock s1 = (Return tt, s2) /\
     Pickle.SynchronizedDatabase.the_gate s2 = Pickle.new_gate 2) /\
  (exists s' e,
     Pickle.SynchronizedDatabase.release_write_lock pickle_store_of_other = (Return tt, s') /\
     Pickle.SynchronizedDatabase.the_gate s' = Pickle.Gate 4 false 2 /\
     last (pickle_log s') = Some (ERROR, ErrorReleasingWriteLock e)).
Proof.
  split.
  - apply (proj1 (proj2 (proj2 (proj2 (proj2 (proj2
             (write_lock_algorithm pickle_store_of_other))))))).
    reflexivity.
  - apply (proj1 (proj2 (proj2 (proj2 (proj2
             (write_lock_algorithm pickle_store_of_other)))))).
    reflexivity.
Defined.

(** ** Mutual exclusion *)

(** C1. Actors share one gate and use it as [get_value], [set_value] and
    [delete_value] do: an acquire, the critical section, the matching
    release; a schedule picks, step by step, the actor that performs its
    next primitive.  Along every schedule from the gate as built, for
    every number of actors and every [max_readers], in both variants: at
    most one actor is inside a write critical section, and while one is,
    no actor is inside a read critical section; in the event/mutex
    variant [reader_count] is then 0.  A writer is active from the
    return of [acquire_write_lock] to the call of [release_write_lock];
    the semaphore variant takes its [write_lock] before that, while the
    readers that came earlier finish. *)
Theorem gate_mutual_exclusion :
  (forall actors max_readers sched s,
     Pickle.exec sched (Pickle.initial actors max_readers) = Some s ->
     Pickle.writers s <= 1 /\
     (0 < Pickle.writers s -> Pickle.readers s = 0)) /\
  (forall actors max_readers sched s,
     WinApi.exec sched (WinApi.initial actors max_readers) = Some s ->
     WinApi.writers s <= 1 /\
     (0 < WinApi.writers s ->
      WinApi.readers s = 0 /\ WinApi.reader_count (WinApi.shared s) = 0%Z)).
Proof.
  split; intros actors N sched s H.
  - pose proof (PickleInvariantFacts.pickle_exec_inv _ _ _
                  (PickleInvariantFacts.pickle_initial_inv actors N) H) as Hinv.
    apply PickleInvariantFacts.pickle_inv_exclusion in Hinv as [Hw Hr].
    split; [assumption|]. intros Hpos. apply Hr, Hpos.
  - pose proof (Win32InvariantFacts.win32_exec_inv _ _ _
                  (Win32InvariantFacts.win32_initial_inv actors N) H) as Hinv.
    apply Win32InvariantFacts.win32_inv_exclusion in Hinv. assumption.
Qed.

(** A writer that got in while a reader waits at the semaphore, and a
    writer that got in past the event and the mutex. *)
Lemma gate_mutual_exclusion_witness :
  (Pickle.writers
     (Pickle.System (Pickle.Gate 0 true 2)
        [Pickle.Writing; Pickle.AcquireRead_semaphore]) <= 1 /\
   (0 < Pickle.writers
          (Pickle.System (Pickle.Gate 0 true 2)
             [Pickle.Writing; Pickle.AcquireRead_semaphore]) ->
    Pickle.readers
      (Pickle.System (Pickle.Gate 0 true 2)
         [Pickle.Writing; Pickle.AcquireRead_semaphore]) = 0)) /\
  (WinApi.writers
     (WinApi.System (WinApi.Gate false true 0 2)
        [WinApi.Writing; WinApi.AcquireRead_mutex]) <= 1 /\
   (0 < WinApi.writers
          (WinApi.System (WinApi.Gate false true 0 2)
             [WinApi.Writing; WinApi.AcquireRead_mutex]) ->
    WinApi.readers
      (WinApi.System (WinApi.Gate false true 0 2)
         [WinApi.Writing; WinApi.AcquireRead_mutex]) = 0 /\
    WinApi.reader_count
      (WinApi.shared
         (WinApi.System (WinApi.Gate false true 0 2)
            [WinApi.Writing; WinApi.AcquireRead_mutex])) = 0%Z)).
Proof.
  split.
  - apply (proj1 gate_mutual_exclusion 2 2
             [(1, acquire_read); (0, acquire_write); (0, acquire_write);
              (0, acquire_write); (0, acquire_write); (0, acquire_write)]).
    reflexivity.
  - apply (proj2 gate_mutual_exclusion 2 2
             [(1, acquire_read); (0, acquire_write); (0, acquire_write);
              (0, acquire_write)]).
    reflexivity.
Defined.

(** * Further properties *)

(** ** More on the in-memory store *)

Section DatabaseMore.

Implicit Types (d : gmap Z Z) (key val : Z) (l : list entry) (s : Database.t).

(** X3. Which exceptions the in-memory store absorbs.  [set_value] never
    raises: it answers [True] when the item assignment went through, and
    otherwise answers [False], logs the exception of the assignment
    ([AttributeError] while [DB] is unassigned) and leaves [DB] as it
    was.  [get_value] and [del_value] handle [KeyError] only: when the
    subscription, respectively the deletion, raises anything else
    ([TypeError] on an object that supports none of them), or [DB] is
    unassigned ([AttributeError]), they raise it and leave the store and
    its log untouched. *)
Theorem store_without_mapping (s : Database.t) (key val : Z) :
  (exists (b : bool) s',
     Database.set_value key val s = (Return b, s') /\
     (b = true ->
      exists db db',
        Database.DB s = Some db /\ setitem db key val = Return db' /\
        Database.DB s' = Some db') /\
     (b = false ->
      Database.DB s' = Database.DB s /\
      exists e,
        Database.log s' = Database.log s ++ [(ERROR, ErrorSettingValue key e)] /\
        match Database.DB s with
        | Some db => setitem db key val = Raise e
        | None => e = AttributeError
        end)) /\
  (forall db e,
     Database.DB s = Some db -> getitem db key = Raise e -> e <> KeyError ->
     Database.get_value key s = (Raise e, s)) /\
  (forall db e,
     Database.DB s = Some db -> delitem db key = Raise e -> e <> KeyError ->
     Database.del_value key s = (Raise e, s)) /\
  (Database.DB s = None ->
   Database.get_value key s = (Raise AttributeError, s) /\
   Database.del_value key s = (Raise AttributeError, s)).
Proof.
  destruct s as [[[d|]|] l].
  - split.
    { exists true; eexists. split; [apply set_value_dict|].
      split; [|discriminate]. intros _. do 2 eexists. repeat split; reflexivity. }
    split; [|split; [|discriminate]].
    + intros db e [= <-] He Hne. cbn in He. destruct (d !! key); [discriminate|].
      congruence.
    + intros db e [= <-] He Hne. cbn in He. destruct (d !! key); [discriminate|].
      congruence.
  - split.
    { exists false; eexists. split; [reflexivity|].
      split; [discriminate|]. intros _. split; [reflexivity|].
      eexists; split; reflexivity. }
    split; [|split; [|discriminate]].
    + intros db e [= <-] [= <-] _. reflexivity.
    + intros db e [= <-] [= <-] _. reflexivity.
  - split.
    { exists false; eexists. split; [reflexivity|].
      split; [discriminate|]. intros _. split; [reflexivity|].
      eexists; split; reflexivity. }
    split; [discriminate|]. split; [discriminate|].
    intros _. split; reflexivity.
Qed.

Lemma store_without_mapping_witness :
  Database.get_value 1 (Database.mk (Some PyOther) []) =
    (Raise TypeError, Database.mk (Some PyOther) []) /\
  Database.del_value 1 (Database.mk (Some PyOther) []) =
    (Raise TypeError, Database.mk (Some PyOther) []).
Proof.
  split.
  - apply (proj1 (proj2 (store_without_mapping (Database.mk (Some PyOther) []) 1 0))
             PyOther TypeError); [reflexivity|reflexivity|discriminate].
  - apply (proj1 (proj2 (proj2 (store_without_mapping (Database.mk (Some PyOther) []) 1 0)))
             PyOther TypeError); [reflexivity|reflexivity|discriminate].
Defined.

(** X4. On a mapping, the [get_value] that follows [set_value key val]
    answers [val] for [key] and, for any other key, what the mapping
    answered before; after [del_value key] it answers ["doesn't exist"]
    for [key] and is unchanged elsewhere.  [get_value] itself leaves the
    mapping as it is. *)
Theorem read_your_writes d key val k l :
  (exists s1 s2,
     Database.set_value key val (Database.mk (Some (PyDict d)) l) = (Return true, s1) /\
     Database.get_value k s1 =
       (Return (if decide (k = key) then Value val else answer d k), s2) /\
     Database.DB s2 = Database.DB s1) /\
  (exists b s1 s2,
     Database.del_value key (Database.mk (Some (PyDict d)) l) = (Return b, s1) /\
     Database.get_value k s1 =
       (Return (if decide (k = key) then DoesntExist else answer d k), s2) /\
     Database.DB s2 = Database.DB s1).
Proof.
  unfold answer. split.
  - exists (Database.mk (Some (PyDict (<[key:=val]> d))) (l ++ [(INFO, ValueSet key val)])).
    rewrite set_value_dict, get_value_dict.
    destruct (decide (k = key)) as [->|Hk].
    + rewrite lookup_insert_eq. eexists; repeat split; reflexivity.
    + rewrite lookup_insert_ne by congruence.
      destruct (d !! k); eexists; repeat split; reflexivity.
  - rewrite del_value_dict.
    destruct (d !! key) as [v|] eqn:Hkey.
    + exists true, (Database.mk (Some (PyDict (delete key d))) (l ++ [(INFO, DeletedKey key)])).
      rewrite get_value_dict.
      destruct (decide (k = key)) as [->|Hk].
      * rewrite lookup_delete_eq. eexists; repeat split; reflexivity.
      * rewrite lookup_delete_ne by congruence.
        destruct (d !! k); eexists; repeat split; reflexivity.
    + exists false, (Database.mk (Some (PyDict d)) (l ++ [(WARNING, KeyNotFoundForDeletion key)])).
      rewrite get_value_dict.
      destruct (decide (k = key)) as [->|Hk].
      * rewrite Hkey. eexists; repeat split; reflexivity.
      * destruct (d !! k); eexists; repeat split; reflexivity.
Qed.

End DatabaseMore.

(** ** More on the persisted store *)

Ltac unfold_operation :=
  unfold Pickle.FileDatabase.set_value, Pickle.FileDatabase.get_value,
    Pickle.FileDatabase.del_value, WinApi.FileDatabase.set_value,
    WinApi.FileDatabase.get_value, WinApi.FileDatabase.del_value.

Ltac solve_result :=
  run_file_database; try discriminate;
  intros _; do 3 eexists;
  first [ left; reflexivity | right; eexists; reflexivity ].

Section FileDatabaseMore.

Implicit Types (s : file_database) (key val : Z).

(** X5. In both stores the file is written by a successful mutation
    only: a reload and [get_value] leave it as it is, and so do
    [set_value] and [del_value] whenever they do not answer [True], that
    is when they answer [False] or raise. *)
Theorem file_written_only_on_success s key val :
  (file (Pickle.FileDatabase.load_from_file s).2 = file s /\
   file (Pickle.FileDatabase.get_value key s).2 = file s /\
   ((Pickle.FileDatabase.set_value key val s).1 <> Return true ->
    file (Pickle.FileDatabase.set_value key val s).2 = file s) /\
   ((Pickle.FileDatabase.del_value key s).1 <> Return true ->
    file (Pickle.FileDatabase.del_value key s).2 = file s)) /\
  (file (WinApi.FileDatabase.load_from_file s).2 = file s /\
   file (WinApi.FileDatabase.get_value key s).2 = file s /\
   ((WinApi.FileDatabase.set_value key val s).1 <> Return true ->
    file (WinApi.FileDatabase.set_value key val s).2 = file s) /\
   ((WinApi.FileDatabase.del_value key s).1 <> Return true ->
    file (WinApi.FileDatabase.del_value key s).2 = file s)).
Proof.
  split.
  - split.
    { destruct (pickle_load_from_file_shape s) as (db & e & -> & _). reflexivity. }
    repeat split; unfold_operation;
      after_load pickle_load_from_file_shape s; run_file_database;
      try reflexivity; try congruence.
  - split.
    { destruct (win32_load_from_file_shape s) as (db & e & -> & _). reflexivity. }
    repeat split; unfold_operation;
      after_load win32_load_from_file_shape s; run_file_database;
      try reflexivity; try congruence.
Qed.

(** The state a mutation that answered [True] leaves: the new mapping in
    memory and, when the save went through, in the file; the file as it
    was when the save failed. *)
Lemma pickle_set_value_result s key val :
  (Pickle.FileDatabase.set_value key val s).1 = Return true ->
  exists d l fl,
    (Pickle.FileDatabase.set_value key val s).2 =
      FileDatabaseObj
        (Database.mk (Some (PyDict (<[key:=val]> d))) (l ++ [(INFO, DatabaseSaved)]))
        (Some (Pickled (PyDict (<[key:=val]> d)))) fl \/
    exists e,
      (Pickle.FileDatabase.set_value key val s).2 =
        FileDatabaseObj
          (Database.mk (Some (PyDict (<[key:=val]> d))) (l ++ [(ERROR, ErrorSaving e)]))
          (file s) fl.
Proof. unfold_operation. after_load pickle_load_from_file_shape s; solve_result. Qed.

Lemma pickle_del_value_result s key :
  (Pickle.FileDatabase.del_value key s).1 = Return true ->
  exists d l fl,
    (Pickle.FileDatabase.del_value key s).2 =
      FileDatabaseObj
        (Database.mk (Some (PyDict (delete key d))) (l ++ [(INFO, DatabaseSaved)]))
        (Some (Pickled (PyDict (delete key d)))) fl \/
    exists e,
      (Pickle.FileDatabase.del_value key s).2 =
        FileDatabaseObj
          (Database.mk (Some (PyDict (delete key d))) (l ++ [(ERROR, ErrorSaving e)]))
          (file s) fl.
Proof. unfold_operation. after_load pickle_load_from_file_shape s; solve_result. Qed.

Lemma win32_set_value_result s key val :
  (WinApi.FileDatabase.set_value key val s).1 = Return true ->
  exists d l fl,
    (WinApi.FileDatabase.set_value key val s).2 =
      FileDatabaseObj
        (Database.mk (Some (PyDict (<[key:=val]> d))) (l ++ [(INFO, DatabaseSaved)]))
        (Some (Pickled (PyDict (<[key:=val]> d)))) fl \/
    exists e,
      (WinApi.FileDatabase.set_value key val s).2 =
        FileDatabaseObj
          (Database.mk (Some (PyDict (<[key:=val]> d))) (l ++ [(ERROR, ErrorSaving e)]))
          (file s) fl.
Proof. unfold_operation. after_load win32_load_from_file_shape s; solve_result. Qed.

Lemma win32_del_value_result s key :
  (WinApi.FileDatabase.del_value key s).1 = Return true ->
  exists d l fl,
    (WinApi.FileDatabase.del_value key s).2 =
      FileDatabaseObj
        (Database.mk (Some (PyDict (delete key d))) (l ++ [(INFO, DatabaseSaved)]))
        (Some (Pickled (PyDict (delete key d)))) fl \/
    exists e,
      (WinApi.FileDatabase.del_value key s).2 =
        FileDatabaseObj
          (Database.mk (Some (PyDict (delete key d))) (l ++ [(ERROR, ErrorSaving e)]))
          (file s) fl.
Proof. unfold_operation. after_load win32_load_from_file_shape s; solve_result. Qed.

(** X6. In both stores a mutation that answers [True] ends in one of
    two states: its save is the last thing logged and the file holds
    exactly the object in memory; or a failed save is the last thing
    logged and the file is as the operation found it.  (A file access is
    refused when the file is opened, or not at all.) *)
Theorem mutation_persisted_or_file_untouched s key val :
  persisted_or_untouched s (Pickle.FileDatabase.set_value key val s) /\
  persisted_or_untouched s (Pickle.FileDatabase.del_value key s) /\
  persisted_or_untouched s (WinApi.FileDatabase.set_value key val s) /\
  persisted_or_untouched s (WinApi.FileDatabase.del_value key s).
Proof.
  unfold persisted_or_untouched, last_record, snapshot_is_memory.
  repeat split; intros H.
  - destruct (pickle_set_value_result s key val H) as (d & l & fl & [-> | [e ->]]); cbn;
      rewrite last_snoc; [left|right]; eauto.
  - destruct (pickle_del_value_result s key H) as (d & l & fl & [-> | [e ->]]); cbn;
      rewrite last_snoc; [left|right]; eauto.
  - destruct (win32_set_value_result s key val H) as (d & l & fl & [-> | [e ->]]); cbn;
      rewrite last_snoc; [left|right]; eauto.
  - destruct (win32_del_value_result s key H) as (d & l & fl & [-> | [e ->]]); cbn;
      rewrite last_snoc; [left|right]; eauto.
Qed.

End FileDatabaseMore.

Section FileDatabaseEdge.

Implicit Types (s : file_database) (key val : Z) (m : gmap Z Z) (l : list entry).

(** X7. [set_value] of the pickle store reports success although
    nothing was persisted: when the reload goes through and the save is
    refused, it answers [True], the new binding is in memory only and the
    file keeps the old mapping; the next [get_value] reloads the file and
    answers what the old mapping answers. *)
Theorem refused_save_loses_update m key val (db : option pyobj) l (fl : list bool) :
  exists s1 s2,
    Pickle.FileDatabase.set_value key val
      (FileDatabaseObj (Database.mk db l) (Some (Pickled (PyDict m)))
         (false :: true :: false :: fl)) = (Return true, s1) /\
    Database.DB (base s1) = Some (PyDict (<[key:=val]> m)) /\
    file s1 = Some (Pickled (PyDict m)) /\
    last_record s1 = Some (ERROR, ErrorSaving OSError) /\
    Pickle.FileDatabase.get_value key s1 = (Return (answer m key), s2) /\
    Database.DB (base s2) = Some (PyDict m).
Proof.
  unfold answer, last_record.
  destruct (m !! key) as [v|] eqn:Hk.
  - do 2 eexists. split; [reflexivity|]. cbn.
    split; [reflexivity|]. split; [reflexivity|].
    split; [apply last_snoc|].
    unfold Pickle.FileDatabase.get_value. run_file_database.
    split; reflexivity.
  - do 2 eexists. split; [reflexivity|]. cbn.
    split; [reflexivity|]. split; [reflexivity|].
    split; [apply last_snoc|].
    unfold Pickle.FileDatabase.get_value. run_file_database.
    split; reflexivity.
Qed.

(** X8. On a store whose file is missing, with a mapping in memory:
    [set_value] of the win32 store answers [True] and never brings the
    file back, whatever the system refuses (it opens the file with
    OPEN_EXISTING); [set_value] of the pickle store answers [True] and
    creates the file with the new mapping unless its save is refused. *)
Theorem missing_file_created_or_not s key val d :
  file s = None ->
  Database.DB (base s) = Some (PyDict d) ->
  ((WinApi.FileDatabase.set_value key val s).1 = Return true /\
   file (WinApi.FileDatabase.set_value key val s).2 = None /\
   Database.DB (base (WinApi.FileDatabase.set_value key val s).2) =
     Some (PyDict (<[key:=val]> d))) /\
  ((Pickle.FileDatabase.set_value key val s).1 = Return true /\
   (head (tail (faults s)) <> Some true ->
    file (Pickle.FileDatabase.set_value key val s).2 =
      Some (Pickled (PyDict (<[key:=val]> d))))).
Proof.
  destruct s as [[db l] f fl]. cbn. intros -> ->.
  destruct fl as [|[] [|[] fl]]; cbn; repeat split; try reflexivity; congruence.
Qed.

Lemma missing_file_created_or_not_witness :
  (WinApi.FileDatabase.set_value 1 10
     (FileDatabaseObj (Database.mk (Some (PyDict ∅)) []) None [])).1 = Return true /\
  file (WinApi.FileDatabase.set_value 1 10
          (FileDatabaseObj (Database.mk (Some (PyDict ∅)) []) None [])).2 = None.
Proof.
  pose proof (missing_file_created_or_not
                (FileDatabaseObj (Database.mk (Some (PyDict ∅)) []) None []) 1 10 ∅
                eq_refl eq_refl) as [(H1 & H2 & _) _].
  split; assumption.
Defined.

(** X9. What the constructors do with the file they find, nothing being
    refused.  The pickle store, given a mapping, returns, never writes
    the file, and takes over whatever object an existing file unpickles
    to, mapping or not; it keeps the given mapping when the file is
    missing, empty or unreadable.  Given anything but a mapping it raises
    [ValueError] and touches nothing.  The win32 store does not look at
    its argument: it raises [ValueError] when the file holds the pickle
    of something that is no mapping, [AttributeError] when the file does
    not unpickle ([self.DB] was never assigned), and otherwise returns
    with the mapping of the file, the empty one for a missing or empty
    file, a missing file having been created. *)
Theorem constructor_outcome (db : pyobj) m (f : option blob) l :
  (exists s,
     Pickle.FileDatabase.init (PyDict m) (fresh f l) = (Return tt, s) /\
     file s = f /\
     Database.DB (base s) =
       Some (match f with Some (Pickled o) => o | _ => PyDict m end)) /\
  Pickle.FileDatabase.init PyOther (fresh f l) = (Raise ValueError, fresh f l) /\
  (WinApi.FileDatabase.init db (fresh f l)).1 =
    match f with
    | Some (Pickled PyOther) => Raise ValueError
    | Some Garbage => Raise AttributeError
    | _ => Return tt
    end /\
  ((WinApi.FileDatabase.init db (fresh f l)).1 = Return tt ->
   exists m',
     Database.DB (base (WinApi.FileDatabase.init db (fresh f l)).2) = Some (PyDict m') /\
     match f with
     | Some (Pickled o) => o = PyDict m'
     | _ => m' = ∅
     end /\
     file (WinApi.FileDatabase.init db (fresh f l)).2 =
       match f with None => Some (Pickled (PyDict ∅)) | _ => f end).
Proof.
  split; [|split; [|split]].
  - destruct f as [[|o|]|]; eexists; (split; [reflexivity|]); split; reflexivity.
  - reflexivity.
  - destruct f as [[|[m'|]|]|]; reflexivity.
  - destruct f as [[|[m'|]|]|]; cbn; intros H; try discriminate.
    + exists ∅. repeat split; reflexivity.
    + exists m'. repeat split; reflexivity.
    + exists ∅. repeat split; reflexivity.
Qed.

End FileDatabaseEdge.

Lemma pickle_get_value_from_file (b : Database.t) m key :
  (Pickle.FileDatabase.get_value key
     (FileDatabaseObj b (Some (Pickled (PyDict m))) [])).1 = Return (answer m key).
Proof.
  destruct b as [db l]. unfold answer, Pickle.FileDatabase.get_value.
  run_file_database; reflexivity.
Qed.

Lemma win32_get_value_from_file (b : Database.t) m key :
  (WinApi.FileDatabase.get_value key
     (FileDatabaseObj b (Some (Pickled (PyDict m))) [])).1 = Return (answer m key).
Proof.
  destruct b as [db l]. unfold answer, WinApi.FileDatabase.get_value.
  run_file_database; reflexivity.
Qed.

(** X10. What one object saves, every other object on the same file
    sees.  After a [set_value] that answered [True] and logged its save,
    [get_value] of any object on that file, whatever it has in memory,
    answers the written value; after such a [del_value] it answers
    ["doesn't exist"].  Both stores. *)
Theorem saved_write_reaches_other_objects (s : file_database) key val (b : Database.t) :
  ((Pickle.FileDatabase.set_value key val s).1 = Return true ->
   last_record (Pickle.FileDatabase.set_value key val s).2 = Some (INFO, DatabaseSaved) ->
   (Pickle.FileDatabase.get_value key
      (other_object b (Pickle.FileDatabase.set_value key val s).2)).1 =
   Return (Value val)) /\
  ((Pickle.FileDatabase.del_value key s).1 = Return true ->
   last_record (Pickle.FileDatabase.del_value key s).2 = Some (INFO, DatabaseSaved) ->
   (Pickle.FileDatabase.get_value key
      (other_object b (Pickle.FileDatabase.del_value key s).2)).1 =
   Return DoesntExist) /\
  ((WinApi.FileDatabase.set_value key val s).1 = Return true ->
   last_record (WinApi.FileDatabase.set_value key val s).2 = Some (INFO, DatabaseSaved) ->
   (WinApi.FileDatabase.get_value key
      (other_object b (WinApi.FileDatabase.set_value key val s).2)).1 =
   Return (Value val)) /\
  ((WinApi.FileDatabase.del_value key s).1 = Return true ->
   last_record (WinApi.FileDatabase.del_value key s).2 = Some (INFO, DatabaseSaved) ->
   (WinApi.FileDatabase.get_value key
      (other_object b (WinApi.FileDatabase.del_value key s).2)).1 =
   Return DoesntExist).
Proof.
  unfold last_record, other_object.
  repeat split; intros H Hsaved.
  - destruct (pickle_set_value_result s key val H) as (d & l & fl & [E | [e E]]);
      rewrite E in *; cbn in Hsaved |- *; rewrite last_snoc in Hsaved; [|discriminate].
    rewrite pickle_get_value_from_file. unfold answer. rewrite lookup_insert_eq. reflexivity.
  - destruct (pickle_del_value_result s key H) as (d & l & fl & [E | [e E]]);
      rewrite E in *; cbn in Hsaved |- *; rewrite last_snoc in Hsaved; [|discriminate].
    rewrite pickle_get_value_from_file. unfold answer. rewrite lookup_delete_eq. reflexivity.
  - destruct (win32_set_value_result s key val H) as (d & l & fl & [E | [e E]]);
      rewrite E in *; cbn in Hsaved |- *; rewrite last_snoc in Hsaved; [|discriminate].
    rewrite win32_get_value_from_file. unfold answer. rewrite lookup_insert_eq. reflexivity.
  - destruct (win32_del_value_result s key H) as (d & l & fl & [E | [e E]]);
      rewrite E in *; cbn in Hsaved |- *; rewrite last_snoc in Hsaved; [|discriminate].
    rewrite win32_get_value_from_file. unfold answer. rewrite lookup_delete_eq. reflexivity.
Qed.

Lemma saved_write_reaches_other_objects_witness :
  (Pickle.FileDatabase.get_value 7
     (other_object (Database.mk (Some (PyDict {[7%Z := 1%Z]})) [])
        (Pickle.FileDatabase.set_value 7 70
           (FileDatabaseObj (Database.mk (Some (PyDict ∅)) []) None [])).2)).1 =
    Return (Value 70) /\
  (WinApi.FileDatabase.get_value 7
     (other_object (Database.mk (Some (PyDict {[7%Z := 1%Z]})) [])
        (WinApi.FileDatabase.del_value 7 (fresh (Some (Pickled (PyDict {[7%Z := 1%Z]}))) [])).2)).1 =
    Return DoesntExist.
Proof.
  split.
  - apply (proj1 (saved_write_reaches_other_objects
                    (FileDatabaseObj (Database.mk (Some (PyDict ∅)) []) None []) 7 70
                    (Database.mk (Some (PyDict {[7%Z := 1%Z]})) []))).
    + reflexivity.
    + reflexivity.
  - apply (proj2 (proj2 (proj2
             (saved_write_reaches_other_objects
                (fresh (Some (Pickled (PyDict {[7%Z := 1%Z]}))) []) 7 0
                (Database.mk (Some (PyDict {[7%Z := 1%Z]})) []))))).
    + reflexivity.
    + reflexivity.
Defined.

(** ** Synchronized calls on a free gate *)

Module PickleScopeFacts.
Import Pickle Pickle.SynchronizedDatabase PickleGateFacts.

Lemma pickle_write_scope_eq {A} (body : M file_database A) (s : t) :
  pickle_write_free (the_gate s) = true ->
  (forall fb, (body fb).1 <> Blocked) ->
  (acquire_write_lock;; try_finally (super body) release_write_lock) s =
  pickle_scoped (DEBUG, AcquiringWriteLock) (DEBUG, ReleasingWriteLock) body s.
Proof.
  intros Hfree Hb. unfold pickle_write_free in Hfree.
  apply andb_prop in Hfree as [Hw Hle]. apply negb_true_iff in Hw.
  apply bool_decide_eq_true in Hle. apply Nat.leb_le in Hle.
  rewrite bind_run, pickle_acquire_write_lock_eq. cbn zeta. rewrite Hw, Hle.
  unfold try_finally, pickle_scoped. rewrite pickle_super_run, pickle_release_write_lock_eq.
  apply Nat.leb_le in Hle.
  destruct s as [fb md [v w N]]; cbn in *; subst w.
  replace (v - N + N) with v by lia.
  match goal with |- context [body ?x] => specialize (Hb x); destruct (body x) as [[a|e|] fb'] end;
    cbn in *; first [reflexivity | congruence].
Qed.

Lemma pickle_read_scope_eq {A} (body : M file_database A) (s : t) :
  pickle_read_free (the_gate s) = true ->
  (forall fb, (body fb).1 <> Blocked) ->
  (acquire_read_lock;; try_finally (super body) release_read_semaphore) s =
  pickle_scoped (DEBUG, AcquiringReadLock) (DEBUG, ReleasingReadSemaphore) body s.
Proof.
  intros Hfree Hb. unfold pickle_read_free in Hfree.
  apply bool_decide_eq_true in Hfree.
  rewrite bind_run, pickle_acquire_read_lock_eq. cbn zeta.
  destruct s as [fb md [[|v] w N]]; cbn in *; [lia|].
  unfold try_finally, pickle_scoped. rewrite pickle_super_run, pickle_release_read_semaphore_eq.
  cbn.
  match goal with |- context [body ?x] => specialize (Hb x); destruct (body x) as [[a|e|] fb'] end;
    cbn in *; first [reflexivity | congruence].
Qed.

End PickleScopeFacts.

Module Win32ScopeFacts.
Import WinApi WinApi.SynchronizedDatabase Win32GateFacts.

Lemma win32_write_scope_eq {A} (body : M file_database A) (s : t) :
  win32_write_free (the_gate s) = true ->
  (forall fb, (body fb).1 <> Blocked) ->
  (acquire_write_lock;; try_finally (super body) release_write_lock) s =
  win32_scoped (DEBUG, WriterAcquired) (DEBUG, WriterReleased) body s.
Proof.
  intros Hfree Hb. unfold win32_write_free in Hfree.
  apply andb_prop in Hfree as [Hw He]. apply negb_true_iff in Hw.
  rewrite bind_run, win32_acquire_write_lock_eq. cbn zeta. rewrite Hw, He.
  unfold try_finally, win32_scoped. rewrite win32_super_run, win32_release_write_lock_eq.
  destruct s as [fb [ev w c N]]; cbn in *; subst.
  match goal with |- context [body ?x] => specialize (Hb x); destruct (body x) as [[a|e|] fb'] end;
    cbn in *; first [reflexivity | congruence].
Qed.

Lemma win32_read_scope_eq {A} (body : M file_database A) (s : t) :
  win32_read_free (the_gate s) = true ->
  (forall fb, (body fb).1 <> Blocked) ->
  (acquire_read_lock;; try_finally (super body) release_read_semaphore) s =
  win32_scoped (DEBUG, ReaderAcquired) (DEBUG, ReaderReleased) body s.
Proof.
  intros Hfree Hb. unfold win32_read_free in Hfree.
  apply andb_prop in Hfree as [Hw He]. apply negb_true_iff in Hw.
  rewrite bind_run, win32_acquire_read_lock_eq. cbn zeta. rewrite Hw.
  destruct s as [fb [ev w c N]]; cbn in *. subst w.
  destruct (c + 1 =? 1)%Z eqn:Hc.
  - apply Z.eqb_eq in Hc. assert (c = 0%Z) as -> by lia.
    destruct ev; [|discriminate].
    unfold try_finally, win32_scoped.
    rewrite win32_super_run, win32_release_read_semaphore_eq. cbn.
    match goal with |- context [body ?x] => specialize (Hb x); destruct (body x) as [[a|e|] fb'] end;
      cbn in *; first [reflexivity | congruence].
  - apply Z.eqb_neq in Hc.
    unfold try_finally, win32_scoped.
    rewrite win32_super_run, win32_release_read_semaphore_eq. cbn.
    replace (c + 1 + -1)%Z with c by lia.
    assert ((c =? 0)%Z = false) as -> by (apply Z.eqb_neq; lia).
    match goal with |- context [body ?x] => specialize (Hb x); destruct (body x) as [[a|e|] fb'] end;
      cbn in *; first [reflexivity | congruence].
Qed.

End Win32ScopeFacts.

(** X11. Behind a gate that lets the caller in, a synchronized call is
    the call of the store between two log records: in both variants
    [get_value], [set_value] and [delete_value]/[del_value] return or
    raise what the [FileDatabase] method does, leave the store as that
    method leaves it, and leave the gate as they found it. *)
Theorem synchronized_call_is_store_call key value :
  (forall s : Pickle.SynchronizedDatabase.t,
     pickle_read_free (Pickle.SynchronizedDatabase.the_gate s) = true ->
     Pickle.SynchronizedDatabase.get_value key s =
     pickle_scoped (DEBUG, AcquiringReadLock) (DEBUG, ReleasingReadSemaphore)
       (Pickle.FileDatabase.get_value key) s) /\
  (forall s : Pickle.SynchronizedDatabase.t,
     pickle_write_free (Pickle.SynchronizedDatabase.the_gate s) = true ->
     Pickle.SynchronizedDatabase.set_value key value s =
     pickle_scoped (DEBUG, AcquiringWriteLock) (DEBUG, ReleasingWriteLock)
       (Pickle.FileDatabase.set_value key value) s /\
     Pickle.SynchronizedDatabase.delete_value key s =
     pickle_scoped (DEBUG, AcquiringWriteLock) (DEBUG, ReleasingWriteLock)
       (Pickle.FileDatabase.del_value key) s) /\
  (forall s : WinApi.SynchronizedDatabase.t,
     win32_read_free (WinApi.SynchronizedDatabase.the_gate s) = true ->
     WinApi.SynchronizedDatabase.get_value key s =
     win32_scoped (DEBUG, ReaderAcquired) (DEBUG, ReaderReleased)
       (WinApi.FileDatabase.get_value key) s) /\
  (forall s : WinApi.SynchronizedDatabase.t,
     win32_write_free (WinApi.SynchronizedDatabase.the_gate s) = true ->
     WinApi.SynchronizedDatabase.set_value key value s =
     win32_scoped (DEBUG, WriterAcquired) (DEBUG, WriterReleased)
       (WinApi.FileDatabase.set_value key value) s /\
     WinApi.SynchronizedDatabase.del_value key s =
     win32_scoped (DEBUG, WriterAcquired) (DEBUG, WriterReleased)
       (WinApi.FileDatabase.del_value key) s).
Proof.
  split; [|split; [|split]].
  - intros s H. apply PickleScopeFacts.pickle_read_scope_eq; [assumption|].
    apply pickle_get_value_ends.
  - intros s H. split.
    + apply PickleScopeFacts.pickle_write_scope_eq; [assumption|].
      apply pickle_set_value_ends.
    + apply PickleScopeFacts.pickle_write_scope_eq; [assumption|].
      apply pickle_del_value_ends.
  - intros s H. apply Win32ScopeFacts.win32_read_scope_eq; [assumption|].
    apply win32_get_value_ends.
  - intros s H. split.
    + apply Win32ScopeFacts.win32_write_scope_eq; [assumption|].
      apply win32_set_value_ends.
    + apply Win32ScopeFacts.win32_write_scope_eq; [assumption|].
      apply win32_del_value_ends.
Qed.

Lemma synchronized_call_is_store_call_witness :
  Pickle.SynchronizedDatabase.get_value 1 pickle_store_of_other =
    pickle_scoped (DEBUG, AcquiringReadLock) (DEBUG, ReleasingReadSemaphore)
      (Pickle.FileDatabase.get_value 1) pickle_store_of_other /\
  WinApi.SynchronizedDatabase.set_value 1 10 win32_store_of_other =
    win32_scoped (DEBUG, WriterAcquired) (DEBUG, WriterReleased)
      (WinApi.FileDatabase.set_value 1 10) win32_store_of_other.
Proof.
  split.
  - apply (proj1 (synchronized_call_is_store_call 1 10) pickle_store_of_other).
    reflexivity.
  - apply (proj2 (proj2 (proj2 (synchronized_call_is_store_call 1 10)))
             win32_store_of_other).
    reflexivity.
Defined.

(** X12. On the object [SynchronizedDatabase(db, mode, max_readers)] of
    sync_Database.py, whenever the constructor returns: the gate is the
    one of [max_readers] units and a free lock; [set_value] and
    [delete_value] end; [get_value] ends unless [max_readers] is 0, in
    which case it waits forever. *)
Theorem constructed_gate_lets_in (db : pyobj) (mode : bool) N key value
    (s0 s : Pickle.SynchronizedDatabase.t) :
  Pickle.SynchronizedDatabase.init db mode N s0 = (Return tt, s) ->
  Pickle.SynchronizedDatabase.the_gate s = Pickle.new_gate N /\
  ((Pickle.SynchronizedDatabase.get_value key s).1 = Blocked <-> N = 0) /\
  (Pickle.SynchronizedDatabase.set_value key value s).1 <> Blocked /\
  (Pickle.SynchronizedDatabase.delete_value key s).1 <> Blocked.
Proof.
  intros Hinit.
  assert (Pickle.SynchronizedDatabase.the_gate s = Pickle.new_gate N) as Hg.
  { unfold Pickle.SynchronizedDatabase.init in Hinit.
    rewrite bind_run, PickleGateFacts.pickle_super_run in Hinit.
    destruct (Pickle.FileDatabase.init db _) as [[[]|e|] fb]; cbn in Hinit; simplify_eq.
    injection Hinit as <-. reflexivity. }
  split; [assumption|].
  assert (pickle_write_free (Pickle.SynchronizedDatabase.the_gate s) = true) as Hw.
  { rewrite Hg. unfold pickle_write_free. cbn. apply bool_decide_eq_true. lia. }
  split; [|split].
  - destruct N as [|N].
    + split; [reflexivity|]. intros _.
      unfold Pickle.SynchronizedDatabase.get_value.
      rewrite bind_run, PickleGateFacts.pickle_acquire_read_lock_eq. cbn zeta.
      rewrite Hg. reflexivity.
    + split; [|discriminate]. intros Hb. exfalso.
      revert Hb. apply (PickleGateFacts.pickle_read_scope_exits _ (pickle_get_value_ends key)).
      rewrite Hg. reflexivity.
  - apply (PickleGateFacts.pickle_write_scope_exits _ (pickle_set_value_ends key value)).
    assumption.
  - apply (PickleGateFacts.pickle_write_scope_exits _ (pickle_del_value_ends key)).
    assumption.
Qed.

Lemma constructed_gate_lets_in_witness :
  Pickle.SynchronizedDatabase.the_gate
    (Pickle.SynchronizedDatabase.init (PyDict ∅) true 2
       (Pickle.SynchronizedDatabase.mk (fresh None []) false (Pickle.Gate 0 true 0))).2 =
    Pickle.new_gate 2 /\
  ((Pickle.SynchronizedDatabase.get_value 1
      (Pickle.SynchronizedDatabase.init (PyDict ∅) true 2
         (Pickle.SynchronizedDatabase.mk (fresh None []) false (Pickle.Gate 0 true 0))).2).1 =
   Blocked <-> 2 = 0) /\
  (Pickle.SynchronizedDatabase.set_value 1 10
     (Pickle.SynchronizedDatabase.init (PyDict ∅) true 2
        (Pickle.SynchronizedDatabase.mk (fresh None []) false (Pickle.Gate 0 true 0))).2).1 <>
    Blocked /\
  (Pickle.SynchronizedDatabase.delete_value 1
     (Pickle.SynchronizedDatabase.init (PyDict ∅) true 2
        (Pickle.SynchronizedDatabase.mk (fresh None []) false (Pickle.Gate 0 true 0))).2).1 <>
    Blocked.
Proof.
  apply (constructed_gate_lets_in (PyDict ∅) true 2 1 10
           (Pickle.SynchronizedDatabase.mk (fresh None []) false (Pickle.Gate 0 true 0))).
  reflexivity.
Defined.

(** X13. A release that matches no acquire is accepted.  On the gate as
    built, in sync_Database.py: after a stray [release_read_semaphore] a
    writer gets in, and then a reader beside it; a stray
    [release_write_lock] returns normally, logs the error of the lock
    and leaves [max_readers] units too many.  In winapi.py: after a
    stray [release_read_semaphore] a reader gets in without taking the
    event, and then a writer beside it; a stray [release_write_lock]
    raises (error 288) and changes nothing. *)
Theorem unmatched_release_is_not_refused :
  (forall N (s : Pickle.SynchronizedDatabase.t),
     Pickle.SynchronizedDatabase.the_gate s = Pickle.new_gate N ->
     (exists s1 s2 s3,
        Pickle.SynchronizedDatabase.release_read_semaphore s = (Return tt, s1) /\
        Pickle.SynchronizedDatabase.acquire_write_lock s1 = (Return tt, s2) /\
        Pickle.SynchronizedDatabase.acquire_read_lock s2 = (Return tt, s3) /\
        Pickle.SynchronizedDatabase.the_gate s3 = Pickle.Gate 0 true N) /\
     (exists s1,
        Pickle.SynchronizedDatabase.release_write_lock s = (Return tt, s1) /\
        Pickle.SynchronizedDatabase.the_gate s1 = Pickle.Gate (N + N) false N /\
        exists e, last (pickle_log s1) = Some (ERROR, ErrorReleasingWriteLock e))) /\
  (forall N (s : WinApi.SynchronizedDatabase.t),
     WinApi.SynchronizedDatabase.the_gate s = WinApi.new_gate N ->
     (exists s1 s2 s3,
        WinApi.SynchronizedDatabase.release_read_semaphore s = (Return tt, s1) /\
        WinApi.SynchronizedDatabase.acquire_read_lock s1 = (Return tt, s2) /\
        WinApi.SynchronizedDatabase.acquire_write_lock s2 = (Return tt, s3) /\
        WinApi.SynchronizedDatabase.the_gate s3 = WinApi.Gate false true 0 N) /\
     WinApi.SynchronizedDatabase.release_write_lock s =
       (Raise (PyWinError WinApi.ERROR_NOT_OWNER), s)).
Proof.
  split; intros N s Hg.
  - split.
    + destruct s as [fb md g]. cbn in Hg. subst g.
      do 3 eexists. split; [reflexivity|].
      split.
      { rewrite PickleGateFacts.pickle_acquire_write_lock_eq. cbn -[Nat.leb Nat.sub].
        assert ((N <=? S N) = true) as -> by (apply Nat.leb_le; lia).
        replace (S N - N) with 1 by lia. reflexivity. }
      split; reflexivity.
    + rewrite PickleGateFacts.pickle_release_write_lock_eq. cbn zeta.
      destruct s as [fb md g]. cbn in Hg. subst g. cbn.
      eexists. split; [reflexivity|]. split; [reflexivity|].
      eexists. apply last_snoc.
  - destruct s as [fb g]. cbn in Hg. subst g. split.
    + rewrite Win32GateFacts.win32_release_read_semaphore_eq. cbn.
      do 3 eexists. split; [reflexivity|].
      rewrite Win32GateFacts.win32_acquire_read_lock_eq. cbn.
      split; [reflexivity|].
      rewrite Win32GateFacts.win32_acquire_write_lock_eq. cbn.
      split; reflexivity.
    + rewrite Win32GateFacts.win32_release_write_lock_eq. reflexivity.
Qed.

(** ** Progress and bookkeeping of the gates *)

Lemma sum_list_with_pos {A} (f : A -> nat) (l : list A) :
  0 < sum_list_with f l -> exists i x, l !! i = Some x /\ 0 < f x.
Proof.
  induction l as [|y l IH]; cbn; [lia|]. intros H.
  destruct (f y) as [|n] eqn:Hy.
  - destruct IH as (i & x & Hi & Hx); [lia|]. exists (S i), x. auto.
  - exists 0, y. split; [reflexivity|lia].
Qed.

Lemma sum_list_with_zero {A} (f : A -> nat) (l : list A) i x :
  sum_list_with f l = 0 -> l !! i = Some x -> f x = 0.
Proof.
  revert i. induction l as [|y l IH]; intros [|i] H Hi; simplify_eq/=.
  - lia.
  - eapply IH; [lia|eassumption].
Qed.

Lemma sum_list_with_all_zero {A} (f : A -> nat) (l : list A) :
  (forall i x, l !! i = Some x -> f x = 0) -> sum_list_with f l = 0.
Proof.
  induction l as [|y l IH]; intros H; cbn; [reflexivity|].
  rewrite (H 0 y eq_refl), IH; [reflexivity|].
  intros i x Hi. apply (H (S i) x Hi).
Qed.

Module PickleProgress.
Import Pickle PickleInvariant PickleInvariantFacts.

Lemma step_run i o g ts p p' g' :
  ts !! i = Some p -> thread_step o p g = Some (p', g') ->
  step (i, o) (System g ts) = Some (System g' (<[i:=p']> ts)).
Proof. intros Hi Ht. unfold step. cbn. rewrite Hi. cbn. rewrite Ht. reflexivity. Qed.

(** An actor past the waits of its operation can take its next step. *)
Lemma past_waits_steps s i p :
  inv s -> threads s !! i = Some p -> 0 < pickle_past_waits p ->
  exists o s', step (i, o) s = Some s'.
Proof.
  destruct s as [[v w N] ts]. intros (Hu & Hl & Hr) Hi Hp. cbn in *.
  assert (0 < holder p -> w = true) as Hw.
  { intros Hh. pose proof (sum_list_with_insert holder ts i p Idle Hi) as E.
    cbn in E. destruct w; [reflexivity|]. cbn in Hl. lia. }
  destruct p; cbn in Hp; try lia.
  - exists release_read; eexists. eapply step_run; [eassumption|reflexivity].
  - exists release_read; eexists. eapply step_run; [eassumption|reflexivity].
  - exists release_write; eexists. eapply step_run; [eassumption|reflexivity].
  - exists release_write. destruct (k <? N) eqn:Hk.
    + eexists. eapply step_run; [eassumption|]. cbn -[Nat.ltb]. rewrite Hk. reflexivity.
    + eexists. eapply step_run; [eassumption|]. cbn -[Nat.ltb]. rewrite Hk. reflexivity.
  - exists release_write. rewrite Hw by (cbn; lia).
    eexists. eapply step_run; [eassumption|reflexivity].
Qed.

(** Units are held past the waits or by the one actor that drains. *)
Lemma units_held N p : pickle_past_waits p = 0 -> pickle_draining p = 0 -> units N p = 0 /\ holder p = 0.
Proof. destruct p; cbn; intros; try lia. Qed.

Lemma idle_class (f : pc -> nat) ts i p :
  f Idle = 0 -> ts !! i = Some p ->
  sum_list_with f ts = sum_list_with f (<[i:=Idle]> ts) + f p.
Proof. intros Hf Hi. pose proof (sum_list_with_insert f ts i p Idle Hi). lia. Qed.

(** The actor that drains finds a unit as long as it needs one, once no
    actor is past the waits. *)
Lemma draining_steps s i k :
  inv s -> sum_list_with pickle_past_waits (threads s) = 0 ->
  threads s !! i = Some (AcquireWrite_loop k) ->
  exists s', step (i, acquire_write) s = Some s'.
Proof.
  destruct s as [[v w N] ts]. intros (Hu & Hl & Hr) Hfree Hi. cbn in *.
  pose proof (Forall_lookup_1 _ _ _ _ Hr Hi) as Hk. cbn in Hk.
  pose proof (idle_class holder ts i _ eq_refl Hi) as Eh.
  pose proof (idle_class (units N) ts i _ eq_refl Hi) as Eu.
  pose proof (idle_class pickle_past_waits ts i _ eq_refl Hi) as Ef.
  cbn [holder units pickle_past_waits] in *.
  assert (sum_list_with holder (<[i:=Idle]> ts) = 0) as Hh0
    by (destruct w; cbn in Hl; lia).
  assert (sum_list_with pickle_past_waits (<[i:=Idle]> ts) = 0) as Hf0 by lia.
  assert (sum_list_with (units N) (<[i:=Idle]> ts) = 0) as Hu0.
  { apply sum_list_with_all_zero. intros j q Hj.
    pose proof (sum_list_with_zero holder _ j q Hh0 Hj).
    pose proof (sum_list_with_zero pickle_past_waits _ j q Hf0 Hj).
    destruct q; cbn in *; lia. }
  destruct (k <? N) eqn:Hlt.
  - apply Nat.ltb_lt in Hlt. destruct v as [|v]; [lia|].
    eexists. eapply step_run; [eassumption|]. cbn -[Nat.ltb].
    apply Nat.ltb_lt in Hlt. rewrite Hlt. reflexivity.
  - eexists. eapply step_run; [eassumption|]. cbn -[Nat.ltb]. rewrite Hlt. reflexivity.
Qed.

(** With no actor past the waits and none draining, the gate is as
    built. *)
Lemma nobody_in s :
  inv s ->
  sum_list_with pickle_past_waits (threads s) = 0 ->
  sum_list_with pickle_draining (threads s) = 0 ->
  semaphore (shared s) = max_readers (shared s) /\ write_lock (shared s) = false.
Proof.
  destruct s as [[v w N] ts]. intros (Hu & Hl & Hr) Hfree Hdrain. cbn in *.
  assert (sum_list_with (units N) ts = 0) as Hu0.
  { apply sum_list_with_all_zero. intros j q Hj.
    apply units_held.
    - eapply sum_list_with_zero; eassumption.
    - eapply sum_list_with_zero; eassumption. }
  assert (sum_list_with holder ts = 0) as Hh0.
  { apply sum_list_with_all_zero. intros j q Hj.
    apply (units_held N).
    - eapply sum_list_with_zero; eassumption.
    - eapply sum_list_with_zero; eassumption. }
  split; [lia|]. destruct w; cbn in Hl; [lia|reflexivity].
Qed.

Lemma inv_progress s i p :
  inv s -> 0 < max_readers (shared s) ->
  threads s !! i = Some p -> pickle_busy p ->
  exists j q o s', threads s !! j = Some q /\ pickle_busy q /\ step (j, o) s = Some s'.
Proof.
  intros Hinv HN Hi Hp.
  destruct (sum_list_with pickle_past_waits (threads s)) as [|n] eqn:Hfree.
  - destruct (sum_list_with pickle_draining (threads s)) as [|n] eqn:Hdrain.
    + destruct (nobody_in s Hinv Hfree Hdrain) as [Hv Hw].
      pose proof (sum_list_with_zero _ _ _ _ Hfree Hi) as Hp1.
      pose proof (sum_list_with_zero _ _ _ _ Hdrain Hi) as Hp2.
      destruct s as [[v w N] ts]. cbn in *. subst v w.
      destruct N as [|N]; [lia|].
      destruct p; cbn in Hp1, Hp2; try lia.
      * exfalso. apply Hp. reflexivity.
      * exists i, AcquireRead_semaphore, acquire_read. eexists.
        split; [assumption|]. split; [assumption|].
        eapply step_run; [eassumption|reflexivity].
      * exists i, AcquireWrite_lock, acquire_write. eexists.
        split; [assumption|]. split; [assumption|].
        eapply step_run; [eassumption|reflexivity].
    + destruct (sum_list_with_pos pickle_draining (threads s)) as (j & q & Hj & Hq); [lia|].
      destruct q; cbn in Hq; try lia.
      destruct (draining_steps s j k Hinv Hfree Hj) as [s' Hs'].
      exists j, (AcquireWrite_loop k), acquire_write, s'.
      split; [assumption|]. split; [discriminate|assumption].
  - destruct (sum_list_with_pos pickle_past_waits (threads s)) as (j & q & Hj & Hq); [lia|].
    destruct (past_waits_steps s j q Hinv Hj Hq) as (o & s' & Hs').
    exists j, q, o, s'. split; [assumption|]. split; [|assumption].
    intros ->. cbn in Hq. lia.
Qed.

End PickleProgress.

(** X14. The semaphore gate does not get stuck: with [max_readers] at
    least 1, along every schedule, whenever some actor is inside a gate
    operation or a critical section, one of those actors can take its
    next step. *)
Theorem semaphore_gate_never_stuck actors max_readers sched s i p :
  0 < max_readers ->
  Pickle.exec sched (Pickle.initial actors max_readers) = Some s ->
  Pickle.threads s !! i = Some p -> pickle_busy p ->
  exists j q o s',
    Pickle.threads s !! j = Some q /\ pickle_busy q /\ Pickle.step (j, o) s = Some s'.
Proof.
  intros HN H Hi Hp.
  pose proof (pickle_exec_max_readers _ _ _ H) as Hmax. cbn in Hmax.
  pose proof (PickleInvariantFacts.pickle_exec_inv _ _ _
                (PickleInvariantFacts.pickle_initial_inv actors max_readers) H) as Hinv.
  eapply PickleProgress.inv_progress; try eassumption. lia.
Qed.

Lemma semaphore_gate_never_stuck_witness :
  exists j q o s',
    Pickle.threads (Pickle.System (Pickle.Gate 0 true 1)
                      [Pickle.AcquireWrite_loop 0; Pickle.Reading]) !! j = Some q /\
    pickle_busy q /\
    Pickle.step (j, o) (Pickle.System (Pickle.Gate 0 true 1)
                          [Pickle.AcquireWrite_loop 0; Pickle.Reading]) = Some s'.
Proof.
  apply (semaphore_gate_never_stuck 2 1
           [(1, acquire_read); (1, acquire_read); (0, acquire_write); (0, acquire_write)]
           _ 0 (Pickle.AcquireWrite_loop 0)).
  - lia.
  - reflexivity.
  - reflexivity.
  - discriminate.
Defined.

Lemma win32_exec_max_readers sched s s' :
  WinApi.exec sched s = Some s' ->
  WinApi.max_readers (WinApi.shared s') = WinApi.max_readers (WinApi.shared s).
Proof.
  revert s. induction sched as [|[i o] sched IH]; intros s H; cbn in H.
  - congruence.
  - destruct (WinApi.step (i, o) s) as [s1|] eqn:Hs; [|discriminate]. cbn in H.
    rewrite (IH _ H). clear IH H.
    destruct s as [[ev mx c N] ts]. unfold WinApi.step in Hs. cbn in Hs.
    destruct (ts !! i) as [p|]; [|discriminate]. cbn in Hs.
    destruct o, p; cbn in Hs; try discriminate;
      unfold returns, WinApi.Wait_write_mutex, WinApi.Wait_read_event, WinApi.SetEvent,
        WinApi.ReleaseMutex, WinApi.add_reader_count, modify in Hs; cbn in Hs;
      repeat (case_match; cbn in Hs); simplify_eq; reflexivity.
Qed.

Lemma sum_list_with_replicate {A} (f : A -> nat) n x :
  sum_list_with f (replicate n x) = n * f x.
Proof. induction n as [|n IH]; cbn; lia. Qed.

(** X15. Once every actor is idle again the gate is as it was built, in
    both variants: after any schedule that leaves no actor inside an
    operation, the semaphore has [max_readers] units and the lock is
    free; the event is set, the mutex is free and [reader_count] is 0. *)
Theorem quiescent_gate_is_as_built :
  (forall actors max_readers sched s,
     Pickle.exec sched (Pickle.initial actors max_readers) = Some s ->
     Pickle.threads s = replicate actors Pickle.Idle ->
     s = Pickle.initial actors max_readers) /\
  (forall actors max_readers sched s,
     WinApi.exec sched (WinApi.initial actors max_readers) = Some s ->
     WinApi.threads s = replicate actors WinApi.Idle ->
     s = WinApi.initial actors max_readers).
Proof.
  split; intros actors N sched s H Hts.
  - pose proof (pickle_exec_max_readers _ _ _ H) as Hmax. cbn in Hmax.
    pose proof (PickleInvariantFacts.pickle_exec_inv _ _ _
                  (PickleInvariantFacts.pickle_initial_inv actors N) H) as (Hu & Hl & _).
    destruct s as [[v w N'] ts]. cbn in *. subst ts N'.
    rewrite sum_list_with_replicate in Hu, Hl. cbn in Hu, Hl.
    unfold Pickle.initial, Pickle.new_gate. destruct w; cbn in Hl; [lia|].
    do 2 f_equal. lia.
  - pose proof (win32_exec_max_readers _ _ _ H) as Hmax. cbn in Hmax.
    pose proof (Win32InvariantFacts.win32_exec_inv _ _ _
                  (Win32InvariantFacts.win32_initial_inv actors N) H) as Hinv.
    destruct s as [[ev mx c N'] ts].
    cbn [WinApi.shared WinApi.threads WinApi.max_readers WinApi.initial WinApi.new_gate] in *.
    subst ts N'.
    unfold Win32Invariant.inv in Hinv.
    cbn [WinApi.shared WinApi.threads WinApi.write_mutex WinApi.read_event
           WinApi.reader_count] in Hinv.
    rewrite !Win32InvariantFacts.win32_count_pc_replicate in Hinv.
    Win32InvariantFacts.eval_at_pc.
    rewrite !Nat.mul_0_r in Hinv. cbn [Nat.add] in Hinv.
    destruct Hinv as (Hm & Hc & [He _] & _).
    unfold WinApi.initial, WinApi.new_gate.
    destruct mx; cbn in Hm; [lia|]. specialize (He eq_refl).
    destruct ev; cbn in He; [|lia]. rewrite Hc. reflexivity.
Qed.

Lemma quiescent_gate_is_as_built_witness :
  Pickle.System (Pickle.Gate 2 false 2) [Pickle.Idle; Pickle.Idle] = Pickle.initial 2 2 /\
  WinApi.System (WinApi.Gate true false 0 2) [WinApi.Idle; WinApi.Idle] = WinApi.initial 2 2.
Proof.
  split.
  - apply (proj1 quiescent_gate_is_as_built 2 2
             (alone 0 acquire_write 5 ++ alone 1 acquire_read 1 ++ alone 0 release_write 5 ++
              alone 1 acquire_read 1 ++ alone 1 release_read 2)).
    + reflexivity.
    + reflexivity.
  - apply (proj2 quiescent_gate_is_as_built 2 2
             (alone 0 acquire_read 6 ++ alone 1 acquire_write 1 ++ alone 0 release_read 6 ++
              alone 1 acquire_write 2 ++ alone 1 release_write 3)).
    + reflexivity.
    + reflexivity.
Defined.

(** X16. Bookkeeping of the event/mutex gate, along every schedule:
    [reader_count] is at least the number of actors inside a read
    critical section; and while the event is signalled nobody is inside,
    neither a reader nor a writer. *)
Theorem event_means_nobody_inside actors max_readers sched s :
  WinApi.exec sched (WinApi.initial actors max_readers) = Some s ->
  (Z.of_nat (WinApi.readers s) <= WinApi.reader_count (WinApi.shared s))%Z /\
  (WinApi.read_event (WinApi.shared s) = true ->
   WinApi.readers s = 0 /\ WinApi.writers s = 0).
Proof.
  intros H.
  pose proof (Win32InvariantFacts.win32_exec_inv _ _ _
                (Win32InvariantFacts.win32_initial_inv actors max_readers) H) as Hinv.
  unfold Win32Invariant.inv in Hinv. cbn zeta in Hinv.
  destruct Hinv as (_ & Hc & [He0 He1] & _).
  unfold WinApi.readers, WinApi.writers. split; [lia|].
  intros Hev. rewrite Hev in He0, He1. cbn [b2n] in He0, He1.
  destruct (WinApi.count_pc WinApi.Reading (WinApi.threads s)) as [|n]; [|lia].
  split; [reflexivity|]. lia.
Qed.

Lemma event_means_nobody_inside_witness :
  (Z.of_nat (WinApi.readers
               (WinApi.System (WinApi.Gate false false 1 2)
                  [WinApi.Reading; WinApi.Idle])) <=
   WinApi.reader_count
     (WinApi.shared (WinApi.System (WinApi.Gate false false 1 2)
                       [WinApi.Reading; WinApi.Idle])))%Z /\
  (WinApi.read_event
     (WinApi.shared (WinApi.System (WinApi.Gate false false 1 2)
                       [WinApi.Reading; WinApi.Idle])) = true ->
   WinApi.readers (WinApi.System (WinApi.Gate false false 1 2)
                     [WinApi.Reading; WinApi.Idle]) = 0 /\
   WinApi.writers (WinApi.System (WinApi.Gate false false 1 2)
                     [WinApi.Reading; WinApi.Idle]) = 0).
Proof.
  apply (event_means_nobody_inside 2 2 (replicate 6 (0, acquire_read))).
  reflexivity.
Defined.

(** ** One actor moves while the others stand still *)

Module Win32Alone.
Import WinApi.

Lemma win32_step_alone j o g p g' p' ts :
  step (0, o) (System g [p]) = Some (System g' [p']) ->
  ts !! j = Some p ->
  step (j, o) (System g ts) = Some (System g' (<[j:=p']> ts)).
Proof.
  unfold step. cbn. intros H Hj. rewrite Hj. cbn.
  destruct (thread_step o p g) as [[p1 g1]|]; cbn in *; [|discriminate].
  congruence.
Qed.

Lemma win32_step_singleton o g p s' :
  step (0, o) (System g [p]) = Some s' -> exists g' p', s' = System g' [p'].
Proof.
  unfold step. cbn. destruct (thread_step o p g) as [[p1 g1]|]; cbn; [|discriminate].
  intros [= <-]. eauto.
Qed.

Lemma win32_exec_alone j os g p g' p' ts :
  exec (map (pair 0) os) (System g [p]) = Some (System g' [p']) ->
  ts !! j = Some p ->
  exec (map (pair j) os) (System g ts) = Some (System g' (<[j:=p']> ts)).
Proof.
  revert g p ts. induction os as [|o os IH]; intros g p ts H Hj; cbn [exec map] in H |- *.
  - inversion H; subst. rewrite list_insert_id by assumption. reflexivity.
  - destruct (step (0, o) (System g [p])) as [s1|] eqn:Hs; [|cbn in H; discriminate].
    cbn in H.
    destruct (win32_step_singleton _ _ _ _ Hs) as (g1 & p1 & ->).
    rewrite (win32_step_alone j o g p g1 p1 ts Hs Hj). cbn [mbind option_bind].
    rewrite (IH g1 p1 (<[j:=p1]> ts) H).
    + rewrite list_insert_insert_eq. reflexivity.
    + apply list_lookup_insert_eq. eapply lookup_lt_Some; eassumption.
Qed.

Lemma win32_exec_app sched1 sched2 s s1 :
  exec sched1 s = Some s1 -> exec (sched1 ++ sched2) s = exec sched2 s1.
Proof.
  revert s. induction sched1 as [|ev sched1 IH]; intros s H; cbn in *.
  - congruence.
  - destruct (step ev s) as [s'|]; [|discriminate]. cbn in *. auto.
Qed.

Lemma one_more_reader j N :
  exists os,
    exec (map (pair 0) os) (System (win32_entered j N) [Idle]) =
    Some (System (win32_entered (S j) N) [Reading]).
Proof.
  destruct j as [|j].
  - exists (replicate 6 acquire_read). reflexivity.
  - exists (replicate 5 acquire_read). unfold win32_entered. cbn -[Z.of_nat].
    unfold step. cbn -[Z.of_nat].
    assert ((Z.of_nat (S j) + 1 =? 1)%Z = false) as -> by (apply Z.eqb_neq; lia).
    cbn -[Z.of_nat]. do 3 f_equal. lia.
Qed.

Lemma readers_enter n N j :
  j <= n ->
  exists sched,
    exec sched (initial n N) =
    Some (System (win32_entered j N) (replicate j Reading ++ replicate (n - j) Idle)).
Proof.
  induction j as [|j IH]; intros Hj.
  - exists []. cbn. rewrite Nat.sub_0_r. reflexivity.
  - destruct IH as [sched Hsched]; [lia|].
    destruct (one_more_reader j N) as [os Hos].
    exists (sched ++ map (pair j) os).
    rewrite (win32_exec_app _ _ _ _ Hsched).
    rewrite (win32_exec_alone j os _ _ _ _ _ Hos).
    + f_equal. f_equal.
      replace (n - j) with (S (n - S j)) by lia.
      rewrite insert_app_r_alt by (rewrite length_replicate; lia).
      rewrite length_replicate, Nat.sub_diag. cbn [replicate].
      change (<[0:=Reading]> (Idle :: replicate (n - S j) Idle))
        with ([Reading] ++ replicate (n - S j) Idle).
      rewrite app_assoc. f_equal.
      change [Reading] with (replicate 1 Reading).
      rewrite <- replicate_add. replace (j + 1) with (S j) by lia. reflexivity.
    + rewrite lookup_app_r by (rewrite length_replicate; lia).
      rewrite length_replicate, Nat.sub_diag.
      replace (n - j) with (S (n - S j)) by lia. reflexivity.
Qed.

End Win32Alone.

(** X17. The event/mutex gate does not bound its readers: for any
    number of actors and any [max_readers], some schedule puts all the
    actors inside a read critical section at once; [max_readers] is
    stored and never consulted. *)
Theorem event_gate_readers_unbounded actors max_readers :
  exists sched s,
    WinApi.exec sched (WinApi.initial actors max_readers) = Some s /\
    WinApi.readers s = actors /\
    WinApi.reader_count (WinApi.shared s) = Z.of_nat actors /\
    WinApi.max_readers (WinApi.shared s) = max_readers.
Proof.
  destruct (Win32Alone.readers_enter actors max_readers actors (le_n _)) as [sched H].
  eexists sched, _. split; [exact H|].
  rewrite Nat.sub_diag, app_nil_r. unfold WinApi.readers. cbn [WinApi.threads].
  split; [|split; reflexivity].
  rewrite Win32InvariantFacts.win32_count_pc_replicate.
  unfold Win32Invariant.at_pc. rewrite decide_True by reflexivity. lia.
Qed.

Module PickleAlone.
Import Pickle.

Lemma pickle_step_alone j o g p g' p' ts :
  step (0, o) (System g [p]) = Some (System g' [p']) ->
  ts !! j = Some p ->
  step (j, o) (System g ts) = Some (System g' (<[j:=p']> ts)).
Proof.
  unfold step. cbn -[thread_step]. intros H Hj. rewrite Hj. cbn -[thread_step].
  destruct (thread_step o p g) as [[p1 g1]|]; cbn in *; [|discriminate].
  congruence.
Qed.

Lemma pickle_step_singleton o g p s' :
  step (0, o) (System g [p]) = Some s' -> exists g' p', s' = System g' [p'].
Proof.
  unfold step. cbn -[thread_step].
  destruct (thread_step o p g) as [[p1 g1]|]; cbn; [|discriminate].
  intros [= <-]. eauto.
Qed.

Lemma pickle_exec_alone j os g p g' p' ts :
  exec (map (pair 0) os) (System g [p]) = Some (System g' [p']) ->
  ts !! j = Some p ->
  exec (map (pair j) os) (System g ts) = Some (System g' (<[j:=p']> ts)).
Proof.
  revert g p ts. induction os as [|o os IH]; intros g p ts H Hj; cbn [exec map] in H |- *.
  - inversion H; subst. rewrite list_insert_id by assumption. reflexivity.
  - destruct (step (0, o) (System g [p])) as [s1|] eqn:Hs; [|cbn in H; discriminate].
    cbn in H.
    destruct (pickle_step_singleton _ _ _ _ Hs) as (g1 & p1 & ->).
    rewrite (pickle_step_alone j o g p g1 p1 ts Hs Hj). cbn [mbind option_bind].
    rewrite (IH g1 p1 (<[j:=p1]> ts) H).
    + rewrite list_insert_insert_eq. reflexivity.
    + apply list_lookup_insert_eq. eapply lookup_lt_Some; eassumption.
Qed.

End PickleAlone.

Lemma alone_map j o n : alone j o n = map (pair j) (replicate n o).
Proof. unfold alone. induction n as [|n IH]; cbn; congruence. Qed.

Lemma pickle_alone_acquire_write (s : Pickle.SynchronizedDatabase.t) s' :
  Pickle.SynchronizedDatabase.acquire_write_lock s = (Return tt, s') ->
  Pickle.exec
    (alone 0 acquire_write (Pickle.max_readers (Pickle.SynchronizedDatabase.the_gate s) + 3))
    (Pickle.System (Pickle.SynchronizedDatabase.the_gate s) [Pickle.Idle]) =
  Some (Pickle.System (Pickle.SynchronizedDatabase.the_gate s') [Pickle.Writing]).
Proof.
  rewrite PickleGateFacts.pickle_acquire_write_lock_eq. cbn zeta.
  destruct s as [fb md [v w N]]. cbn.
  destruct w; [discriminate|].
  destruct (N <=? v) eqn:Hle; [|discriminate]. apply Nat.leb_le in Hle.
  intros [= <-]. cbn. unfold alone.
  replace (N + 3) with (2 + (N + 1)) by lia.
  rewrite (replicate_add 2), (replicate_add N).
  rewrite (exec_app_pickle _ _ _
             (Pickle.System (Pickle.Gate v true N) [Pickle.AcquireWrite_loop 0]))
    by reflexivity.
  rewrite (exec_app_pickle _ _ _
             (Pickle.System (Pickle.Gate (v - N) true N) [Pickle.AcquireWrite_loop N]))
    by (apply (pickle_solo_drain N N 0 v); lia).
  cbn -[Nat.ltb]. unfold Pickle.step. cbn -[Nat.ltb].
  rewrite Nat.ltb_irrefl. reflexivity.
Qed.

Lemma pickle_alone_release_write (s : Pickle.SynchronizedDatabase.t) s' :
  Pickle.write_lock (Pickle.SynchronizedDatabase.the_gate s) = true ->
  Pickle.SynchronizedDatabase.release_write_lock s = (Return tt, s') ->
  Pickle.exec
    (alone 0 release_write (Pickle.max_readers (Pickle.SynchronizedDatabase.the_gate s) + 3))
    (Pickle.System (Pickle.SynchronizedDatabase.the_gate s) [Pickle.Writing]) =
  Some (Pickle.System (Pickle.SynchronizedDatabase.the_gate s') [Pickle.Idle]).
Proof.
  rewrite PickleGateFacts.pickle_release_write_lock_eq. cbn zeta.
  destruct s as [fb md [v w N]]. cbn. intros ->. intros [= <-]. cbn. unfold alone.
  replace (N + 3) with (1 + (N + 2)) by lia.
  rewrite (replicate_add 1), (replicate_add N).
  rewrite (exec_app_pickle _ _ _
             (Pickle.System (Pickle.Gate v true N) [Pickle.ReleaseWrite_loop 0]))
    by reflexivity.
  rewrite (exec_app_pickle _ _ _
             (Pickle.System (Pickle.Gate (v + N) true N) [Pickle.ReleaseWrite_loop N]))
    by (apply (pickle_solo_refill N N 0 v); lia).
  cbn -[Nat.ltb]. unfold Pickle.step. cbn -[Nat.ltb].
  rewrite Nat.ltb_irrefl. reflexivity.
Qed.

(** X18. The methods of the semaphore gate and the steps of the
    interleaving semantics agree.  Whenever a gate method returns, the
    actor that takes the steps of that operation while the others stand
    still gets from idle into its critical section, or back, and leaves
    the gate the method leaves: 2 steps for a reader, [max_readers + 3]
    for a writer. *)
Theorem method_is_run_of_steps (s s' : Pickle.SynchronizedDatabase.t)
    (ts : list Pickle.pc) (j : nat) :
  let g := Pickle.SynchronizedDatabase.the_gate s in
  let g' := Pickle.SynchronizedDatabase.the_gate s' in
  let N := Pickle.max_readers g in
  (ts !! j = Some Pickle.Idle ->
   Pickle.SynchronizedDatabase.acquire_read_lock s = (Return tt, s') ->
   Pickle.exec (alone j acquire_read 2) (Pickle.System g ts) =
   Some (Pickle.System g' (<[j:=Pickle.Reading]> ts))) /\
  (ts !! j = Some Pickle.Reading ->
   Pickle.SynchronizedDatabase.release_read_semaphore s = (Return tt, s') ->
   Pickle.exec (alone j release_read 2) (Pickle.System g ts) =
   Some (Pickle.System g' (<[j:=Pickle.Idle]> ts))) /\
  (ts !! j = Some Pickle.Idle ->
   Pickle.SynchronizedDatabase.acquire_write_lock s = (Return tt, s') ->
   Pickle.exec (alone j acquire_write (N + 3)) (Pickle.System g ts) =
   Some (Pickle.System g' (<[j:=Pickle.Writing]> ts))) /\
  (ts !! j = Some Pickle.Writing ->
   Pickle.write_lock g = true ->
   Pickle.SynchronizedDatabase.release_write_lock s = (Return tt, s') ->
   Pickle.exec (alone j release_write (N + 3)) (Pickle.System g ts) =
   Some (Pickle.System g' (<[j:=Pickle.Idle]> ts))).
Proof.
  cbn zeta. repeat split.
  - intros Hj H. rewrite alone_map. eapply PickleAlone.pickle_exec_alone; [|exact Hj].
    apply (pickle_solo_acquire_read s s' H).
  - intros Hj H. rewrite alone_map. eapply PickleAlone.pickle_exec_alone; [|exact Hj].
    apply (pickle_solo_release_read s s' H).
  - intros Hj H. rewrite alone_map. eapply PickleAlone.pickle_exec_alone; [|exact Hj].
    rewrite <- alone_map. apply (pickle_alone_acquire_write s s' H).
  - intros Hj Hw H. rewrite alone_map. eapply PickleAlone.pickle_exec_alone; [|exact Hj].
    rewrite <- alone_map. apply (pickle_alone_release_write s s' Hw H).
Qed.

Lemma method_is_run_of_steps_witness :
  Pickle.exec (alone 1 acquire_write 5)
    (Pickle.System (Pickle.new_gate 2) [Pickle.Idle; Pickle.Idle]) =
  Some (Pickle.System (Pickle.Gate 0 true 2) [Pickle.Idle; Pickle.Writing]).
Proof.
  apply (proj1 (proj2 (proj2
           (method_is_run_of_steps pickle_store_of_other
              (Pickle.SynchronizedDatabase.acquire_write_lock pickle_store_of_other).2
              [Pickle.Idle; Pickle.Idle] 1)))).
  - reflexivity.
  - reflexivity.
Defined.

(** X19. The same for the event/mutex gate: whenever a gate method of
    winapi.py returns, the actor that takes the steps of that operation
    while the others stand still gets from idle into its critical
    section, or back, and leaves the gate the method leaves; a writer
    takes 3 steps. *)
Theorem win32_method_is_run_of_steps (s s' : WinApi.SynchronizedDatabase.t)
    (ts : list WinApi.pc) (j : nat) :
  let g := WinApi.SynchronizedDatabase.the_gate s in
  let g' := WinApi.SynchronizedDatabase.the_gate s' in
  (ts !! j = Some WinApi.Idle ->
   WinApi.SynchronizedDatabase.acquire_read_lock s = (Return tt, s') ->
   exists n, WinApi.exec (alone j acquire_read n) (WinApi.System g ts) =
             Some (WinApi.System g' (<[j:=WinApi.Reading]> ts))) /\
  (ts !! j = Some WinApi.Reading ->
   WinApi.SynchronizedDatabase.release_read_semaphore s = (Return tt, s') ->
   exists n, WinApi.exec (alone j release_read n) (WinApi.System g ts) =
             Some (WinApi.System g' (<[j:=WinApi.Idle]> ts))) /\
  (ts !! j = Some WinApi.Idle ->
   WinApi.SynchronizedDatabase.acquire_write_lock s = (Return tt, s') ->
   WinApi.exec (alone j acquire_write 3) (WinApi.System g ts) =
   Some (WinApi.System g' (<[j:=WinApi.Writing]> ts))) /\
  (ts !! j = Some WinApi.Writing ->
   WinApi.SynchronizedDatabase.release_write_lock s = (Return tt, s') ->
   WinApi.exec (alone j release_write 3) (WinApi.System g ts) =
   Some (WinApi.System g' (<[j:=WinApi.Idle]> ts))).
Proof.
  cbn zeta. repeat split.
  - intros Hj H. destruct (win32_solo_acquire_read s s' H) as [n Hn].
    exists n. rewrite alone_map. eapply Win32Alone.win32_exec_alone; [|exact Hj].
    rewrite <- alone_map. exact Hn.
  - intros Hj H. destruct (win32_solo_release_read s s' H) as [n Hn].
    exists n. rewrite alone_map. eapply Win32Alone.win32_exec_alone; [|exact Hj].
    rewrite <- alone_map. exact Hn.
  - intros Hj H. rewrite alone_map. eapply Win32Alone.win32_exec_alone; [|exact Hj].
    rewrite <- alone_map. apply (win32_solo_acquire_write s s' H).
  - intros Hj H. rewrite alone_map. eapply Win32Alone.win32_exec_alone; [|exact Hj].
    rewrite <- alone_map. apply (win32_solo_release_write s s' H).
Qed.

Lemma win32_method_is_run_of_steps_witness :
  exists n,
    WinApi.exec (alone 1 acquire_read n)
      (WinApi.System (WinApi.new_gate 2) [WinApi.Idle; WinApi.Idle]) =
    Some (WinApi.System (WinApi.Gate false false 1 2) [WinApi.Idle; WinApi.Reading]).
Proof.
  apply (proj1
           (win32_method_is_run_of_steps win32_store_of_other
              (WinApi.SynchronizedDatabase.acquire_read_lock win32_store_of_other).2
              [WinApi.Idle; WinApi.Idle] 1)).
  - reflexivity.
  - reflexivity.
Defined.

Module Win32Stuck.
Import WinApi.

Lemma stuck_start n N :
  exec (alone 0 acquire_write 2 ++ alone 1 acquire_read 4) (initial (S (S n)) N) =
  Some (System (Gate false true 1 N) (win32_stuck 0 n)).
Proof. reflexivity. Qed.

Lemma stuck_insert k r :
  <[2 + k:=AcquireRead_mutex]> (win32_stuck k (S r)) = win32_stuck (S k) r.
Proof.
  unfold win32_stuck. rewrite !app_assoc.
  rewrite insert_app_r_alt by (rewrite length_app, length_replicate; cbn; lia).
  rewrite length_app, length_replicate. cbn [length].
  replace (2 + k - (2 + k)) with 0 by lia.
  change (<[0:=AcquireRead_mutex]> (replicate (S r) Idle))
    with ([AcquireRead_mutex] ++ replicate r Idle).
  rewrite replicate_S_end, <- !app_assoc. reflexivity.
Qed.

Lemma stuck_more g k r :
  step (2 + k, acquire_read) (System g (win32_stuck k (S r))) =
  Some (System g (win32_stuck (S k) r)).
Proof.
  unfold step. cbn [fst snd threads shared].
  assert (win32_stuck k (S r) !! (2 + k) = Some Idle) as ->.
  { unfold win32_stuck. rewrite !app_assoc.
    rewrite lookup_app_r by (rewrite length_app, length_replicate; cbn; lia).
    rewrite length_app, length_replicate. cbn [length].
    replace (2 + k - (2 + k)) with 0 by lia. reflexivity. }
  cbn [mbind option_bind thread_step]. rewrite stuck_insert. reflexivity.
Qed.

Lemma stuck_all g k r :
  exists sched,
    exec sched (System g (win32_stuck k r)) = Some (System g (win32_stuck (k + r) 0)).
Proof.
  revert k. induction r as [|r IH]; intros k.
  - exists []. rewrite Nat.add_0_r. reflexivity.
  - destruct (IH (S k)) as [sched Hsched].
    exists ((2 + k, acquire_read) :: sched).
    cbn [exec]. rewrite stuck_more. cbn [mbind option_bind].
    rewrite Hsched. do 3 f_equal. lia.
Qed.

Lemma stuck_for_good N k ev :
  step ev (System (Gate false true 1 N) (win32_stuck k 0)) = None.
Proof.
  destruct ev as [i o]. unfold step. cbn [fst snd threads shared].
  destruct (win32_stuck k 0 !! i) as [p|] eqn:Hi; [|reflexivity].
  assert (p = AcquireWrite_mutex \/ p = AcquireRead_event \/ p = AcquireRead_mutex)
    as [->|[->| ->]].
  { apply list_elem_of_lookup_2 in Hi. unfold win32_stuck in Hi.
    rewrite app_nil_r in Hi.
    apply elem_of_app in Hi as [Hi|Hi].
    - apply elem_of_cons in Hi as [->|Hi]; [left; reflexivity|].
      apply list_elem_of_singleton in Hi. right; left. assumption.
    - apply elem_of_replicate in Hi as [-> _]. right; right. reflexivity. }
  - destruct o; reflexivity.
  - destruct o; reflexivity.
  - destruct o; reflexivity.
Qed.

End Win32Stuck.

(** X20. The event/mutex gate can stop for good at any size: for every
    number of actors from 2 on and every [max_readers], some schedule
    leads to a state where a writer waits for the mutex, the first reader
    holds the mutex and waits for the event, every other actor waits for
    the mutex, and no actor can take a step. *)
Theorem event_gate_deadlock_any_size actors max_readers :
  exists sched s,
    WinApi.exec sched (WinApi.initial (2 + actors) max_readers) = Some s /\
    WinApi.threads s = win32_stuck actors 0 /\
    forall ev, WinApi.step ev s = None.
Proof.
  destruct (Win32Stuck.stuck_all (WinApi.Gate false true 1 max_readers) 0 actors)
    as [sched Hsched].
  exists ((alone 0 acquire_write 2 ++ alone 1 acquire_read 4) ++ sched). eexists.
  split.
  - rewrite (Win32Alone.win32_exec_app _ _ _ _ (Win32Stuck.stuck_start actors max_readers)).
    exact Hsched.
  - split; [reflexivity|]. apply Win32Stuck.stuck_for_good.
Qed.

(** ** Threads of the harness, one after another *)

Lemma holds_mapping_del_value m s key :
  holds_mapping m s ->
  exists s',
    Pickle.FileDatabase.del_value key s =
      (Return (bool_decide (is_Some (m !! key))), s') /\
    holds_mapping (delete key m) s'.
Proof.
  intros [Hf Hm]. unfold holds_mapping.
  destruct s as [[db l] f fl]; simpl in *; subst fl.
  destruct (m !! key) as [v|] eqn:Hk.
  - rewrite bool_decide_eq_true_2 by eauto.
    destruct f as [b|]; subst; run_file_database;
      (eexists; split; [reflexivity | split; reflexivity]).
  - rewrite bool_decide_eq_false_2 by (intros [? ?]; discriminate).
    rewrite (delete_id m key Hk).
    destruct f as [b|]; subst; run_file_database;
      (eexists; split; [reflexivity | split; reflexivity]).
Qed.

Lemma holds_mapping_get_value_file m s key :
  holds_mapping m s -> file (Pickle.FileDatabase.get_value key s).2 = file s.
Proof.
  intros [Hf Hm].
  destruct s as [[db l] f fl]; simpl in *; subst fl.
  destruct f as [b|]; subst; run_file_database; reflexivity.
Qed.

Lemma holds_mapping_set_value_file m s key val :
  holds_mapping m s ->
  file (Pickle.FileDatabase.set_value key val s).2 =
  Some (Pickled (PyDict (<[key:=val]> m))).
Proof.
  intros [Hf Hm].
  destruct s as [[db l] f fl]; simpl in *; subst fl.
  destruct f as [b|]; subst; run_file_database; reflexivity.
Qed.

Lemma holds_mapping_del_value_file m s key :
  holds_mapping m s ->
  file (Pickle.FileDatabase.del_value key s).2 =
  match m !! key with
  | Some _ => Some (Pickled (PyDict (delete key m)))
  | None => file s
  end.
Proof.
  intros [Hf Hm].
  destruct s as [[db l] f fl]; simpl in *; subst fl.
  destruct (m !! key) as [v|] eqn:Hk;
    destruct f as [b|]; subst; run_file_database; reflexivity.
Qed.

Module SerialFacts.
Import Pickle Pickle.SynchronizedDatabase ThreadsTest.

Lemma serves_get_value m (s : SynchronizedDatabase.t) key :
  serves m s ->
  exists s', get_value key s = (Return (answer m key), s') /\ serves m s' /\
             the_gate s' = the_gate s /\ file (fbase s') = file (fbase s).
Proof.
  intros (Hr & Hw & Hm). unfold get_value.
  rewrite (PickleScopeFacts.pickle_read_scope_eq _ s Hr (pickle_get_value_ends key)).
  unfold pickle_scoped.
  pose proof (holds_mapping_get_value_file m
                (fbase (pickle_logged (DEBUG, AcquiringReadLock) s)) key Hm) as Hfile.
  destruct (holds_mapping_get_value m
              (fbase (pickle_logged (DEBUG, AcquiringReadLock) s)) key Hm)
    as (fb' & E & Hm').
  rewrite E in *. eexists. split; [reflexivity|].
  split; [|split; [reflexivity|exact Hfile]].
  split; [exact Hr|]. split; [exact Hw|]. exact Hm'.
Qed.

Lemma serves_set_value m (s : SynchronizedDatabase.t) key value :
  serves m s ->
  exists s', set_value key value s = (Return true, s') /\ serves (<[key:=value]> m) s' /\
             the_gate s' = the_gate s /\
             file (fbase s') = Some (Pickled (PyDict (<[key:=value]> m))).
Proof.
  intros (Hr & Hw & Hm). unfold set_value.
  rewrite (PickleScopeFacts.pickle_write_scope_eq _ s Hw (pickle_set_value_ends key value)).
  unfold pickle_scoped.
  pose proof (holds_mapping_set_value_file m
                (fbase (pickle_logged (DEBUG, AcquiringWriteLock) s)) key value Hm) as Hfile.
  destruct (holds_mapping_set_value m
              (fbase (pickle_logged (DEBUG, AcquiringWriteLock) s)) key value Hm)
    as (fb' & E & Hm').
  rewrite E in *. eexists. split; [reflexivity|].
  split; [|split; [reflexivity|exact Hfile]].
  split; [exact Hr|]. split; [exact Hw|]. exact Hm'.
Qed.

Lemma serves_delete_value m (s : SynchronizedDatabase.t) key :
  serves m s ->
  exists s',
    delete_value key s = (Return (bool_decide (is_Some (m !! key))), s') /\
    serves (delete key m) s' /\ the_gate s' = the_gate s /\
    file (fbase s') =
      match m !! key with
      | Some _ => Some (Pickled (PyDict (delete key m)))
      | None => file (fbase s)
      end.
Proof.
  intros (Hr & Hw & Hm). unfold delete_value.
  rewrite (PickleScopeFacts.pickle_write_scope_eq _ s Hw (pickle_del_value_ends key)).
  unfold pickle_scoped.
  pose proof (holds_mapping_del_value_file m
                (fbase (pickle_logged (DEBUG, AcquiringWriteLock) s)) key Hm) as Hfile.
  destruct (holds_mapping_del_value m
              (fbase (pickle_logged (DEBUG, AcquiringWriteLock) s)) key Hm)
    as (fb' & E & Hm').
  rewrite E in *. eexists. split; [reflexivity|].
  split; [|split; [reflexivity|exact Hfile]].
  split; [exact Hr|]. split; [exact Hw|]. exact Hm'.
Qed.

Lemma on_db_run {A} (m : M SynchronizedDatabase.t A) (h : t) :
  on_db m h = ((m (sync_db h)).1, mk (m (sync_db h)).2 (client_log h)).
Proof. unfold on_db, lift, set_sync_db. destruct (m (sync_db h)); reflexivity. Qed.

(** What one thread does to a store that serves [m]. *)
Lemma target_serves m th (h : t) :
  serves m (sync_db h) ->
  exists s',
    target th h = (Return tt, mk s' (client_log h ++ [record_of th m])) /\
    serves (effect th m) s' /\ the_gate s' = the_gate (sync_db h) /\
    persisted_effect th m (file (fbase (sync_db h))) (file (fbase s')).
Proof.
  intros Hs. destruct th as [key|key value|key];
    cbn [target effect record_of persisted_effect].
  - destruct (serves_get_value m _ key Hs) as (s' & E & Hs' & Hg & Hfile).
    exists s'. split; [|split; [assumption|split; [assumption|]]].
    + unfold reader_work, try_except. rewrite bind_run, on_db_run, E. reflexivity.
    + right. split; [assumption|reflexivity].
  - destruct (serves_set_value m _ key value Hs) as (s' & E & Hs' & Hg & Hfile).
    exists s'. split; [|split; [assumption|split; assumption]].
    unfold writer_work, try_except. rewrite bind_run, on_db_run, E. reflexivity.
  - destruct (serves_delete_value m _ key Hs) as (s' & E & Hs' & Hg & Hfile).
    exists s'. split; [|split; [assumption|split; [assumption|]]].
    + unfold deleter_work, try_except. rewrite bind_run, on_db_run, E. cbn.
      destruct (m !! key) as [v|].
      * rewrite bool_decide_eq_true_2 by eauto. reflexivity.
      * rewrite bool_decide_eq_false_2 by (intros [? ?]; discriminate). reflexivity.
    + destruct (m !! key) as [v|] eqn:Hk.
      * left. assumption.
      * right. split; [assumption|]. apply delete_id. assumption.
Qed.

(** Once the file is there it stays, and a writer puts it there. *)
Lemma persisted_effect_file th m before after :
  persisted_effect th m before after ->
  (is_Some before \/ has_writer [th]) -> is_Some after.
Proof.
  unfold persisted_effect, has_writer. intros H Hex.
  destruct th as [key|key value|key].
  - destruct H as [->|[-> _]]; [eauto|].
    destruct Hex as [?|(k & v & Hin)]; [assumption|].
    apply list_elem_of_singleton in Hin. discriminate.
  - rewrite H. eauto.
  - destruct H as [->|[-> _]]; [eauto|].
    destruct Hex as [?|(k & v & Hin)]; [assumption|].
    apply list_elem_of_singleton in Hin. discriminate.
Qed.

Lemma has_writer_cons th order :
  has_writer (th :: order) -> has_writer [th] \/ has_writer order.
Proof.
  intros (k & v & Hin). apply elem_of_cons in Hin as [<-|Hin].
  - left. exists k, v. apply list_elem_of_here.
  - right. exists k, v. assumption.
Qed.

Lemma serially_serves order m (h : t) :
  serves m (sync_db h) ->
  exists s',
    serially order h = (Return tt, mk s' (client_log h ++ records_of order m)) /\
    serves (effects order m) s' /\ the_gate s' = the_gate (sync_db h) /\
    (is_Some (file (fbase (sync_db h))) \/ has_writer order -> is_Some (file (fbase s'))).
Proof.
  revert m h. induction order as [|th order IH]; intros m h Hs.
  - exists (sync_db h). cbn. rewrite app_nil_r.
    destruct h; split; [reflexivity|]. split; [assumption|]. split; [reflexivity|].
    intros [?|(k & v & Hin)]; [assumption|]. apply not_elem_of_nil in Hin. contradiction.
  - destruct (target_serves m th h Hs) as (s1 & E1 & Hs1 & Hg1 & Hp1).
    destruct (IH (effect th m) (mk s1 (client_log h ++ [record_of th m])) Hs1)
      as (s' & E & Hs' & Hg' & Hf').
    exists s'. split; [|split; [assumption|split]].
    + cbn [serially records_of]. rewrite bind_run, E1, E. cbn [client_log].
      rewrite <- app_assoc. reflexivity.
    + rewrite Hg'. exact Hg1.
    + cbn [sync_db] in Hf'. intros Hex. apply Hf'.
      destruct Hex as [Hex|Hex].
      * left. eapply persisted_effect_file; [exact Hp1|]. left. assumption.
      * apply has_writer_cons in Hex as [Hex|Hex]; [|right; assumption].
        left. eapply persisted_effect_file; [exact Hp1|]. right. assumption.
Qed.

Lemma final_state_serves keys m (h : t) :
  serves m (sync_db h) ->
  exists s',
    final_state keys h =
      (Return tt,
       mk s' (client_log h ++ map (fun i => (INFO, FinalState i (answer m i))) keys)) /\
    serves m s' /\ the_gate s' = the_gate (sync_db h) /\
    file (fbase s') = file (fbase (sync_db h)).
Proof.
  revert h. induction keys as [|i keys IH]; intros h Hs.
  - exists (sync_db h). cbn. rewrite app_nil_r.
    destruct h; split; [reflexivity|]. split; [assumption|]. split; reflexivity.
  - destruct (serves_get_value m _ i Hs) as (s1 & E1 & Hs1 & Hg1 & Hf1).
    destruct (IH (mk s1 (client_log h ++ [(INFO, FinalState i (answer m i))])) Hs1)
      as (s' & E & Hs' & Hg' & Hf').
    exists s'. split; [|split; [assumption|split]].
    + cbn [final_state map]. rewrite bind_run, on_db_run, E1. cbn [fst snd].
      rewrite bind_run. unfold logging at 1, modify. cbn [sync_db client_log].
      rewrite E. cbn [client_log]. rewrite <- app_assoc. reflexivity.
    + rewrite Hg'. exact Hg1.
    + rewrite Hf'. exact Hf1.
Qed.

(** A store that serves [m] and has its file has [m] in the file. *)
Lemma serves_file m (s : SynchronizedDatabase.t) :
  serves m s -> is_Some (file (fbase s)) -> file (fbase s) = Some (Pickled (PyDict m)).
Proof.
  intros (_ & _ & _ & Hm) [b Hb]. rewrite Hb in *. congruence.
Qed.

End SerialFacts.

Lemma effects_lookup order m k :
  effects order m !! k =
  match last_write k order with
  | Some w => w
  | None => m !! k
  end.
Proof.
  revert m. induction order as [|th order IH]; intros m; cbn [effects last_write].
  - reflexivity.
  - rewrite IH. destruct (last_write k order) as [w|]; [reflexivity|].
    destruct th as [key|key value|key]; cbn [effect].
    + reflexivity.
    + destruct (decide (key = k)) as [->|Hne].
      * apply lookup_insert_eq.
      * apply lookup_insert_ne. assumption.
    + destruct (decide (key = k)) as [->|Hne].
      * apply lookup_delete_eq.
      * apply lookup_delete_ne. assumption.
Qed.

(** X21. Threads of the harness run one after another, any number of
    them in any order, on a store that serves the mapping [m]: all of
    them return, the harness log grows by the records of [records_of],
    and afterwards [get_value k] answers by the last write to [k]: the
    value of the last writer, ["doesn't exist"] after a deleter, what [m]
    answers when no thread wrote to [k]. *)
Theorem serial_run_last_write_wins order m k (h : ThreadsTest.t) :
  serves m (ThreadsTest.sync_db h) ->
  exists h1 h2,
    ThreadsTest.serially order h = (Return tt, h1) /\
    ThreadsTest.client_log h1 = ThreadsTest.client_log h ++ records_of order m /\
    ThreadsTest.on_db (Pickle.SynchronizedDatabase.get_value k) h1 =
      (Return (match last_write k order with
               | Some (Some v) => Value v
               | Some None => DoesntExist
               | None => answer m k
               end), h2).
Proof.
  intros Hs.
  destruct (SerialFacts.serially_serves order m h Hs) as (s1 & E1 & Hs1 & _).
  destruct (SerialFacts.serves_get_value _ _ k Hs1) as (s2 & E2 & _).
  do 2 eexists. split; [exact E1|]. split; [reflexivity|].
  rewrite SerialFacts.on_db_run. cbn [ThreadsTest.sync_db]. rewrite E2. cbn [fst snd].
  unfold answer. rewrite effects_lookup.
  destruct (last_write k order) as [[v|]|]; reflexivity.
Qed.

Lemma serial_run_last_write_wins_witness :
  exists h1 h2,
    ThreadsTest.serially [ThreadsTest.Writer 1 5; ThreadsTest.Deleter 1]
      (ThreadsTest.mk
         (Pickle.SynchronizedDatabase.mk (fresh (Some (Pickled (PyDict ∅))) [])
            false (Pickle.new_gate 2)) []) = (Return tt, h1) /\
    ThreadsTest.client_log h1 =
      [] ++ records_of [ThreadsTest.Writer 1 5; ThreadsTest.Deleter 1] ∅ /\
    ThreadsTest.on_db (Pickle.SynchronizedDatabase.get_value 1) h1 =
      (Return DoesntExist, h2).
Proof.
  apply (serial_run_last_write_wins
           [ThreadsTest.Writer 1 5; ThreadsTest.Deleter 1] ∅ 1
           (ThreadsTest.mk
              (Pickle.SynchronizedDatabase.mk (fresh (Some (Pickled (PyDict ∅))) [])
                 false (Pickle.new_gate 2)) [])).
  repeat split; reflexivity.
Defined.

(** X22. [reader_work], [writer_work] and [deleter_work] never raise: on
    a gate that lets them in, each returns normally whatever the store
    does (reading and deleting raise [TypeError] when the file holds no
    mapping), leaves the gate as it found it and adds exactly one record
    to the harness log. *)
Theorem worker_absorbs_failures (th : ThreadsTest.thread) (h : ThreadsTest.t) :
  pickle_read_free (Pickle.SynchronizedDatabase.the_gate (ThreadsTest.sync_db h)) = true ->
  pickle_write_free (Pickle.SynchronizedDatabase.the_gate (ThreadsTest.sync_db h)) = true ->
  exists h' r,
    ThreadsTest.target th h = (Return tt, h') /\
    Pickle.SynchronizedDatabase.the_gate (ThreadsTest.sync_db h') =
      Pickle.SynchronizedDatabase.the_gate (ThreadsTest.sync_db h) /\
    ThreadsTest.client_log h' = ThreadsTest.client_log h ++ [r].
Proof.
  intros Hr Hw. destruct th as [key|key value|key]; cbn [ThreadsTest.target].
  - unfold ThreadsTest.reader_work, try_except.
    rewrite bind_run, SerialFacts.on_db_run.
    unfold Pickle.SynchronizedDatabase.get_value.
    rewrite (PickleScopeFacts.pickle_read_scope_eq _ _ Hr (pickle_get_value_ends key)).
    unfold pickle_scoped. cbn [fst snd].
    match goal with |- context [Pickle.FileDatabase.get_value key ?x] =>
      pose proof (pickle_get_value_ends key x) as He;
      destruct (Pickle.FileDatabase.get_value key x) as [[a|e|] fb']
    end; cbn in *; [| |congruence];
      (do 2 eexists; split; [reflexivity|]; split; reflexivity).
  - unfold ThreadsTest.writer_work, try_except.
    rewrite bind_run, SerialFacts.on_db_run.
    unfold Pickle.SynchronizedDatabase.set_value.
    rewrite (PickleScopeFacts.pickle_write_scope_eq _ _ Hw (pickle_set_value_ends key value)).
    unfold pickle_scoped. cbn [fst snd].
    match goal with |- context [Pickle.FileDatabase.set_value key value ?x] =>
      pose proof (pickle_set_value_ends key value x) as He;
      destruct (Pickle.FileDatabase.set_value key value x) as [[a|e|] fb']
    end; cbn in *; [| |congruence];
      (do 2 eexists; split; [reflexivity|]; split; reflexivity).
  - unfold ThreadsTest.deleter_work, try_except.
    rewrite bind_run, SerialFacts.on_db_run.
    unfold Pickle.SynchronizedDatabase.delete_value.
    rewrite (PickleScopeFacts.pickle_write_scope_eq _ _ Hw (pickle_del_value_ends key)).
    unfold pickle_scoped. cbn [fst snd].
    match goal with |- context [Pickle.FileDatabase.del_value key ?x] =>
      pose proof (pickle_del_value_ends key x) as He;
      destruct (Pickle.FileDatabase.del_value key x) as [[[]|e|] fb']
    end; cbn in *; [| | |congruence];
      (do 2 eexists; split; [reflexivity|]; split; reflexivity).
Qed.

Lemma worker_absorbs_failures_witness :
  exists h' r,
    ThreadsTest.target (ThreadsTest.Reader 1) (ThreadsTest.mk pickle_store_of_other []) =
      (Return tt, h') /\
    Pickle.SynchronizedDatabase.the_gate (ThreadsTest.sync_db h') = Pickle.new_gate 2 /\
    ThreadsTest.client_log h' = [] ++ [r].
Proof.
  apply (worker_absorbs_failures (ThreadsTest.Reader 1)
           (ThreadsTest.mk pickle_store_of_other [])).
  - reflexivity.
  - reflexivity.
Defined.

(** ** The calls the harness issues *)

Lemma lookup_list_to_map_fun (f : Z -> Z) (l : list Z) (k : Z) :
  (list_to_map (map (fun i => (i, f i)) l) : gmap Z Z) !! k =
  if decide (k ∈ l) then Some (f k) else None.
Proof.
  induction l as [|i l IH]; cbn [map list_to_map foldr].
  - rewrite lookup_empty. rewrite decide_False; [reflexivity|]. apply not_elem_of_nil.
  - destruct (decide (i = k)) as [->|Hne].
    + rewrite lookup_insert_eq, decide_True; [reflexivity|]. apply list_elem_of_here.
    + rewrite lookup_insert_ne by assumption. rewrite IH.
      destruct (decide (k ∈ l)) as [Hin|Hnin].
      * rewrite decide_True; [reflexivity|]. apply list_elem_of_further. assumption.
      * rewrite decide_False; [reflexivity|].
        intros Hin. apply elem_of_cons in Hin as [->|Hin]; congruence.
Qed.

Lemma elem_of_range (n k : Z) : k ∈ ThreadsTest.range n <-> (0 <= k < n)%Z.
Proof.
  unfold ThreadsTest.range. rewrite list_elem_of_fmap. split.
  - intros (i & -> & Hi). apply elem_of_seq in Hi. lia.
  - intros Hk. exists (Z.to_nat k). split; [lia|]. apply elem_of_seq. lia.
Qed.

Lemma db_lookup (k : Z) :
  ThreadsTest.db !! k = if decide (0 <= k < 20)%Z then Some (k + 20)%Z else None.
Proof.
  unfold ThreadsTest.db. rewrite lookup_list_to_map_fun.
  destruct (decide (k ∈ ThreadsTest.range ThreadsTest.DATABASE_LENGTH)) as [Hin|Hnin].
  - apply elem_of_range in Hin. unfold ThreadsTest.DATABASE_LENGTH in Hin.
    rewrite decide_True by lia. reflexivity.
  - rewrite elem_of_range in Hnin. unfold ThreadsTest.DATABASE_LENGTH in Hnin.
    rewrite decide_False by lia. reflexivity.
Qed.

(** Who writes where: the writers on keys 10 to 19, each key by the two
    writers that differ by 10; the deleters on keys 0 to 4. *)
Lemma writer_in_threads key value :
  ThreadsTest.Writer key value ∈ ThreadsTest.threads <->
  (10 <= key < 20)%Z /\ (value = key - 10 \/ value = key)%Z.
Proof.
  unfold ThreadsTest.threads. rewrite !elem_of_app, !list_elem_of_fmap.
  change (ThreadsTest.DATABASE_LENGTH / 2)%Z with 10%Z.
  split.
  - intros [(i & ? & _)|[(i & E & Hi)|(i & ? & _)]]; try discriminate.
    apply elem_of_range in Hi. unfold ThreadsTest.WRITERS_NUM in Hi.
    injection E as -> ->.
    pose proof (Z.mod_pos_bound i 10 ltac:(lia)).
    pose proof (Z.div_mod i 10 ltac:(lia)). lia.
  - intros [Hk [->| ->]]; right; left.
    + exists (key - 10)%Z. split; [|apply elem_of_range; unfold ThreadsTest.WRITERS_NUM; lia].
      rewrite Z.mod_small by lia. f_equal. lia.
    + exists key. split; [|apply elem_of_range; unfold ThreadsTest.WRITERS_NUM; lia].
      f_equal.
      pose proof (Z.mod_pos_bound key 10 ltac:(lia)).
      pose proof (Z.div_mod key 10 ltac:(lia)). lia.
Qed.

Lemma deleter_in_threads key :
  ThreadsTest.Deleter key ∈ ThreadsTest.threads <-> (0 <= key < 5)%Z.
Proof.
  unfold ThreadsTest.threads. rewrite !elem_of_app, !list_elem_of_fmap.
  split.
  - intros [(i & ? & _)|[(i & ? & _)|(i & E & Hi)]]; try discriminate.
    apply elem_of_range in Hi. unfold ThreadsTest.DELETERS_NUM in Hi.
    injection E as ->. unfold ThreadsTest.DATABASE_LENGTH.
    rewrite Z.mod_small by lia. lia.
  - intros Hk. right; right. exists key.
    split; [|apply elem_of_range; unfold ThreadsTest.DELETERS_NUM; lia].
    unfold ThreadsTest.DATABASE_LENGTH. rewrite Z.mod_small by lia. reflexivity.
Qed.

Lemma last_write_elem_of k order :
  match last_write k order with
  | Some (Some v) => ThreadsTest.Writer k v ∈ order
  | Some None => ThreadsTest.Deleter k ∈ order
  | None => (forall v, ThreadsTest.Writer k v ∉ order) /\ ThreadsTest.Deleter k ∉ order
  end.
Proof.
  induction order as [|th order IH]; cbn [last_write].
  - split; [intros v|]; apply not_elem_of_nil.
  - destruct (last_write k order) as [[v|]|].
    + apply list_elem_of_further. assumption.
    + apply list_elem_of_further. assumption.
    + destruct IH as [IHw IHd].
      destruct th as [key|key value|key].
      * split; [intros v|]; intros Hin; apply elem_of_cons in Hin as [?|Hin];
          try discriminate;
          first [eapply IHw; eassumption | apply IHd; assumption].
      * destruct (decide (key = k)) as [->|Hne].
        -- apply list_elem_of_here.
        -- split; [intros v|]; intros Hin; apply elem_of_cons in Hin as [?|Hin];
             try discriminate; try congruence;
             first [eapply IHw; eassumption | apply IHd; assumption].
      * destruct (decide (key = k)) as [->|Hne].
        -- apply list_elem_of_here.
        -- split; [intros v|]; intros Hin; apply elem_of_cons in Hin as [?|Hin];
             try discriminate; try congruence;
             first [eapply IHw; eassumption | apply IHd; assumption].
Qed.

Lemma effects_of_threads order :
  order ≡ₚ ThreadsTest.threads -> outcome_of_threads (effects order ThreadsTest.db).
Proof.
  intros Hperm k. rewrite effects_lookup, db_lookup.
  pose proof (last_write_elem_of k order) as Hlast.
  destruct (last_write k order) as [[v|]|].
  - rewrite Hperm in Hlast. apply writer_in_threads in Hlast as [Hk [->| ->]].
    + repeat split; intros; try lia. left; reflexivity.
    + repeat split; intros; try lia. right; reflexivity.
  - rewrite Hperm in Hlast. apply deleter_in_threads in Hlast.
    repeat split; intros; try lia; reflexivity.
  - destruct Hlast as [Hw Hd].
    rewrite Hperm in Hd. rewrite deleter_in_threads in Hd.
    specialize (Hw (k - 10)%Z). rewrite Hperm in Hw. rewrite writer_in_threads in Hw.
    repeat split; intros; try lia.
    + rewrite decide_True by lia. reflexivity.
    + rewrite decide_False by lia. reflexivity.
Qed.

Lemma threads_have_writer order : order ≡ₚ ThreadsTest.threads -> has_writer order.
Proof.
  intros Hperm. exists 10%Z, 0%Z. rewrite Hperm. apply writer_in_threads. lia.
Qed.

(** X23. [assert_synchronizer_threading], for every order in which its
    35 threads run one after another, starting without a file: it
    returns; it logs the records of the threads and then the final state
    of the keys 0 to 19; in that final state the keys 0 to 4 are deleted,
    the keys 5 to 9 are as seeded ([k + 20]), and a key [k] from 10 to 19
    is bound to [k - 10] or to [k], the values of its two writers; the
    file holds that mapping and the gate is as built. *)
Theorem harness_outcome order (l : list entry) (md : bool) (g : Pickle.gate)
    (cl : list ThreadsTest.client_entry) :
  order ≡ₚ ThreadsTest.threads ->
  exists h m,
    ThreadsTest.assert_synchronizer_threading order
      (ThreadsTest.mk (Pickle.SynchronizedDatabase.mk (fresh None l) md g) cl) =
      (Return tt, h) /\
    ThreadsTest.client_log h =
      cl ++ records_of order ThreadsTest.db ++
      map (fun i => (INFO, ThreadsTest.FinalState i (answer m i)))
        (ThreadsTest.range ThreadsTest.DATABASE_LENGTH) /\
    outcome_of_threads m /\
    file (Pickle.SynchronizedDatabase.fbase (ThreadsTest.sync_db h)) =
      Some (Pickled (PyDict m)) /\
    Pickle.SynchronizedDatabase.the_gate (ThreadsTest.sync_db h) =
      Pickle.new_gate ThreadsTest.MAX_READERS.
Proof.
  intros Hperm.
  unfold ThreadsTest.assert_synchronizer_threading, try_except.
  rewrite bind_run, SerialFacts.on_db_run. cbn [ThreadsTest.sync_db ThreadsTest.client_log].
  set (s0 := (Pickle.SynchronizedDatabase.init (PyDict ThreadsTest.db) false
                ThreadsTest.MAX_READERS
                (Pickle.SynchronizedDatabase.mk (fresh None l) md g))).
  assert (s0.1 = Return tt /\ serves ThreadsTest.db s0.2 /\
          Pickle.SynchronizedDatabase.the_gate s0.2 =
            Pickle.new_gate ThreadsTest.MAX_READERS) as (E0 & Hs0 & Hg0).
  { subst s0. split; [reflexivity|]. split; [|reflexivity].
    split; [reflexivity|]. split; [reflexivity|]. split; reflexivity. }
  destruct s0 as [o0 s0]. cbn [fst snd] in *. subst o0.
  rewrite bind_run.
  destruct (SerialFacts.serially_serves order ThreadsTest.db (ThreadsTest.mk s0 cl) Hs0)
    as (s1 & E1 & Hs1 & Hg1 & Hf1).
  rewrite E1. cbn [ThreadsTest.client_log ThreadsTest.sync_db] in *.
  destruct (SerialFacts.final_state_serves
              (ThreadsTest.range ThreadsTest.DATABASE_LENGTH) _
              (ThreadsTest.mk s1 (cl ++ records_of order ThreadsTest.db)) Hs1)
    as (s2 & E2 & Hs2 & Hg2 & Hf2).
  rewrite E2. cbn [ThreadsTest.client_log ThreadsTest.sync_db] in *.
  exists (ThreadsTest.mk s2
            ((cl ++ records_of order ThreadsTest.db) ++
             map (fun i => (INFO, ThreadsTest.FinalState i
                                    (answer (effects order ThreadsTest.db) i)))
               (ThreadsTest.range ThreadsTest.DATABASE_LENGTH))),
    (effects order ThreadsTest.db).
  split; [reflexivity|]. cbn [ThreadsTest.client_log ThreadsTest.sync_db].
  split; [rewrite <- app_assoc; reflexivity|].
  split; [apply effects_of_threads; assumption|].
  split.
  - apply (SerialFacts.serves_file _ _ Hs2). rewrite Hf2. apply Hf1.
    right. apply threads_have_writer. assumption.
  - rewrite Hg2, Hg1. exact Hg0.
Qed.

Lemma harness_outcome_witness :
  exists h m,
    ThreadsTest.assert_synchronizer_threading (reverse ThreadsTest.threads)
      (ThreadsTest.mk
         (Pickle.SynchronizedDatabase.mk (fresh None []) true (Pickle.new_gate 0)) []) =
      (Return tt, h) /\
    ThreadsTest.client_log h =
      [] ++ records_of (reverse ThreadsTest.threads) ThreadsTest.db ++
      map (fun i => (INFO, ThreadsTest.FinalState i (answer m i)))
        (ThreadsTest.range ThreadsTest.DATABASE_LENGTH) /\
    outcome_of_threads m /\
    file (Pickle.SynchronizedDatabase.fbase (ThreadsTest.sync_db h)) =
      Some (Pickled (PyDict m)) /\
    Pickle.SynchronizedDatabase.the_gate (ThreadsTest.sync_db h) =
      Pickle.new_gate ThreadsTest.MAX_READERS.
Proof.
  apply (harness_outcome (reverse ThreadsTest.threads) [] true (Pickle.new_gate 0) []).
  apply reverse_Permutation.
Defined.

(** ** Processes of the harness, one after another *)

Module ProcessFacts.
Import Pickle Pickle.SynchronizedDatabase ThreadsTest.

Lemma child_serves m th (h : t) :
  serves m (sync_db h) ->
  exists s',
    ProcessTest.in_child (target th) h =
      (Return tt, mk s' (client_log h ++ [record_of th m])) /\
    serves (effect th m) s' /\ the_gate s' = the_gate (sync_db h) /\
    persisted_effect th m (file (fbase (sync_db h))) (file (fbase s')).
Proof.
  intros Hs.
  destruct (SerialFacts.target_serves m th h Hs)
    as (s1 & E1 & (Hr1 & Hw1 & Hf1 & Hm1) & Hg1 & Hp1).
  unfold ProcessTest.in_child. rewrite E1. cbn [sync_db client_log].
  eexists. split; [reflexivity|]. cbn [the_gate fbase file].
  split; [|split; [exact Hg1|exact Hp1]].
  split; [exact Hr1|]. split; [exact Hw1|].
  split; [exact Hf1|]. cbn [file base Database.DB fbase].
  destruct Hs as (_ & _ & _ & Hm).
  assert (file (fbase s1) = Some (Pickled (PyDict (effect th m))) \/
          file (fbase s1) = file (fbase (sync_db h)) /\ effect th m = m) as [Hfile|[Hfile Heff]].
  { unfold persisted_effect in Hp1. destruct th; auto. }
  - rewrite Hfile. reflexivity.
  - rewrite Hfile, Heff in *. exact Hm.
Qed.

Lemma processes_serve order m (h : t) :
  serves m (sync_db h) ->
  exists s',
    ProcessTest.serially order h = (Return tt, mk s' (client_log h ++ records_of order m)) /\
    serves (effects order m) s' /\ the_gate s' = the_gate (sync_db h) /\
    (is_Some (file (fbase (sync_db h))) \/ has_writer order -> is_Some (file (fbase s'))).
Proof.
  revert m h. induction order as [|th order IH]; intros m h Hs.
  - exists (sync_db h). cbn. rewrite app_nil_r.
    destruct h; split; [reflexivity|]. split; [assumption|]. split; [reflexivity|].
    intros [?|(k & v & Hin)]; [assumption|]. apply not_elem_of_nil in Hin. contradiction.
  - destruct (child_serves m th h Hs) as (s1 & E1 & Hs1 & Hg1 & Hp1).
    destruct (IH (effect th m) (mk s1 (client_log h ++ [record_of th m])) Hs1)
      as (s' & E & Hs' & Hg' & Hf').
    exists s'. split; [|split; [assumption|split]].
    + cbn [ProcessTest.serially records_of]. rewrite bind_run, E1, E. cbn [client_log].
      rewrite <- app_assoc. reflexivity.
    + rewrite Hg'. exact Hg1.
    + cbn [sync_db] in Hf'. intros Hex. apply Hf'.
      destruct Hex as [Hex|Hex].
      * left. eapply SerialFacts.persisted_effect_file; [exact Hp1|]. left. assumption.
      * apply SerialFacts.has_writer_cons in Hex as [Hex|Hex]; [|right; assumption].
        left. eapply SerialFacts.persisted_effect_file; [exact Hp1|]. right. assumption.
Qed.

End ProcessFacts.

(** X24. [assert_synchronizer_multiprocessing] of prosses_test.py, for
    every order in which its 35 processes run one after another,
    starting without a file.  Each process works on its own copy of the
    object and shares the file, the gate and the log with the others: the
    run returns, logs the records the threads log, and ends in the same
    final state (keys 0 to 4 deleted, 5 to 9 as seeded, a key [k] from 10
    to 19 bound to [k - 10] or to [k]); that mapping is what the file
    holds. *)
Theorem process_harness_outcome order (l : list entry) (md : bool) (g : Pickle.gate)
    (cl : list ThreadsTest.client_entry) :
  order ≡ₚ ThreadsTest.threads ->
  exists h m,
    ProcessTest.assert_synchronizer_multiprocessing order
      (ThreadsTest.mk (Pickle.SynchronizedDatabase.mk (fresh None l) md g) cl) =
      (Return tt, h) /\
    ThreadsTest.client_log h =
      cl ++ records_of order ThreadsTest.db ++
      map (fun i => (INFO, ThreadsTest.FinalState i (answer m i)))
        (ThreadsTest.range ThreadsTest.DATABASE_LENGTH) /\
    outcome_of_threads m /\
    file (Pickle.SynchronizedDatabase.fbase (ThreadsTest.sync_db h)) =
      Some (Pickled (PyDict m)).
Proof.
  intros Hperm.
  unfold ProcessTest.assert_synchronizer_multiprocessing, try_except.
  rewrite bind_run, SerialFacts.on_db_run. cbn [ThreadsTest.sync_db ThreadsTest.client_log].
  set (s0 := (Pickle.SynchronizedDatabase.init (PyDict ThreadsTest.db) false
                ThreadsTest.MAX_READERS
                (Pickle.SynchronizedDatabase.mk (fresh None l) md g))).
  assert (s0.1 = Return tt /\ serves ThreadsTest.db s0.2) as (E0 & Hs0).
  { subst s0. split; [reflexivity|].
    split; [reflexivity|]. split; [reflexivity|]. split; reflexivity. }
  destruct s0 as [o0 s0]. cbn [fst snd] in *. subst o0.
  rewrite bind_run.
  destruct (ProcessFacts.processes_serve order ThreadsTest.db (ThreadsTest.mk s0 cl) Hs0)
    as (s1 & E1 & Hs1 & Hg1 & Hf1).
  rewrite E1. cbn [ThreadsTest.client_log ThreadsTest.sync_db] in *.
  destruct (SerialFacts.final_state_serves
              (ThreadsTest.range ThreadsTest.DATABASE_LENGTH) _
              (ThreadsTest.mk s1 (cl ++ records_of order ThreadsTest.db)) Hs1)
    as (s2 & E2 & Hs2 & Hg2 & Hf2).
  rewrite E2. cbn [ThreadsTest.client_log ThreadsTest.sync_db] in *.
  exists (ThreadsTest.mk s2
            ((cl ++ records_of order ThreadsTest.db) ++
             map (fun i => (INFO, ThreadsTest.FinalState i
                                    (answer (effects order ThreadsTest.db) i)))
               (ThreadsTest.range ThreadsTest.DATABASE_LENGTH))),
    (effects order ThreadsTest.db).
  split; [reflexivity|]. cbn [ThreadsTest.client_log ThreadsTest.sync_db].
  split; [rewrite <- app_assoc; reflexivity|].
  split; [apply effects_of_threads; assumption|].
  apply (SerialFacts.serves_file _ _ Hs2). rewrite Hf2. apply Hf1.
  right. apply threads_have_writer. assumption.
Qed.

Lemma process_harness_outcome_witness :
  exists h m,
    ProcessTest.assert_synchronizer_multiprocessing (reverse ThreadsTest.threads)
      (ThreadsTest.mk
         (Pickle.SynchronizedDatabase.mk (fresh None []) true (Pickle.new_gate 0)) []) =
      (Return tt, h) /\
    ThreadsTest.client_log h =
      [] ++ records_of (reverse ThreadsTest.threads) ThreadsTest.db ++
      map (fun i => (INFO, ThreadsTest.FinalState i (answer m i)))
        (ThreadsTest.range ThreadsTest.DATABASE_LENGTH) /\
    outcome_of_threads m /\
    file (Pickle.SynchronizedDatabase.fbase (ThreadsTest.sync_db h)) =
      Some (Pickled (PyDict m)).
Proof.
  apply (process_harness_outcome (reverse ThreadsTest.threads) [] true (Pickle.new_gate 0) []).
  apply reverse_Permutation.
Defined.

(** ** Threads of the harness, interleaved *)

(** The methods are the reload followed by these calls. *)
Lemma method_is_reload_then_operate key value :
  (Pickle.FileDatabase.get_value key =
   (Pickle.FileDatabase.load_from_file;;
    Pickle.FileDatabase.super (Database.get_value key))) /\
  (Pickle.FileDatabase.set_value key value =
   (Pickle.FileDatabase.load_from_file;;
    success ← Pickle.FileDatabase.super (Database.set_value key value);
    (if (success : bool) then Pickle.FileDatabase.save_to_file else ret tt);;
    ret success)) /\
  (Pickle.FileDatabase.del_value key =
   (Pickle.FileDatabase.load_from_file;;
    success ← Pickle.FileDatabase.super (Database.del_value key);
    (if (success : bool) then Pickle.FileDatabase.save_to_file else ret tt);;
    ret success)).
Proof. repeat split; reflexivity. Qed.

Module ConcurrentFacts.
Import Pickle Concurrent.

(** *** The calls of a method, on a store that serves a mapping *)

Lemma load_serves m st :
  holds_mapping m st ->
  exists st',
    FileDatabase.load_from_file st = (Return tt, st') /\
    holds_mapping m st' /\ Database.DB (base st') = Some (PyDict m).
Proof.
  intros [Hf Hm]. destruct st as [[db l] f fl]; simpl in *; subst fl.
  destruct f as [b|]; subst; eexists; (split; [reflexivity|]);
    (split; [split; reflexivity|reflexivity]).
Qed.

Lemma operate_on_mapping th m (db : option pyobj) l f fl :
  db = Some (PyDict m) ->
  operate th (FileDatabaseObj (Database.mk db l) f fl) =
  (reply_of th m,
   FileDatabaseObj
     (Database.mk (Some (PyDict (effect th m)))
        (Database.log
           (base (operate th (FileDatabaseObj (Database.mk db l) f fl)).2)))
     f fl).
Proof.
  intros ->. destruct th as [key|key value|key]; unfold reply_of; cbn [operate effect].
  - unfold answer, FileDatabase.super, lift, set_base. cbn.
    unfold_monad. cbn. rewrite get_value_dict. destruct (m !! key); reflexivity.
  - reflexivity.
  - unfold FileDatabase.super, lift, set_base. cbn.
    unfold_monad. cbn. rewrite del_value_dict.
    destruct (m !! key) as [v|] eqn:Hk; cbn.
    + reflexivity.
    + rewrite (delete_id m key Hk). reflexivity.
Qed.

Lemma save_serves m m' st :
  file_holds m st -> Database.DB (base st) = Some (PyDict m') ->
  exists st',
    FileDatabase.save_to_file st = (Return tt, st') /\ holds_mapping m' st'.
Proof.
  intros [Hf _] Hdb. destruct st as [[db l] f fl]; simpl in *; subst.
  eexists. split; [reflexivity|]. split; reflexivity.
Qed.

(** *** Sequences of calls *)

Lemma effects_snoc order th m : effects (order ++ [th]) m = effect th (effects order m).
Proof. revert m. induction order as [|x order IH]; intros m; cbn; [reflexivity|apply IH]. Qed.

Lemma replies_of_snoc order th m :
  replies_of (order ++ [th]) m = replies_of order m ++ [reply_of th (effects order m)].
Proof.
  revert m. induction order as [|x order IH]; intros m; cbn; [reflexivity|].
  rewrite IH. reflexivity.
Qed.

(** *** The critical sections exclude each other *)

Lemma sum_list_with_lookup {A} (f : A -> nat) (l : list A) i x :
  l !! i = Some x -> f x <= sum_list_with f l.
Proof.
  revert i. induction l as [|y l IH]; intros [|i] H; simplify_eq/=.
  - lia.
  - specialize (IH _ H). lia.
Qed.

Lemma sum_list_with_two {A} (f : A -> nat) (l : list A) i j x y :
  i <> j -> l !! i = Some x -> l !! j = Some y -> f x + f y <= sum_list_with f l.
Proof.
  revert i j. induction l as [|z l IH]; intros [|i] [|j] Hne Hi Hj; simplify_eq/=.
  - pose proof (sum_list_with_lookup f l j y Hj). lia.
  - pose proof (sum_list_with_lookup f l i x Hi). lia.
  - assert (i <> j) as Hne' by congruence.
    specialize (IH i j Hne' Hi Hj). lia.
Qed.

Lemma sections_exclusive s i j p :
  PickleInvariant.inv s ->
  threads s !! i = Some Writing -> threads s !! j = Some p ->
  p = Reading \/ p = Writing -> i = j.
Proof.
  intros (Hu & Hl & _) Hi Hj Hp.
  destruct (decide (i = j)) as [|Hne]; [assumption|exfalso].
  pose proof (sum_list_with_two (PickleInvariant.units (max_readers (shared s)))
                _ i j _ _ Hne Hi Hj) as H1.
  pose proof (sum_list_with_two PickleInvariant.holder _ i j _ _ Hne Hi Hj) as H2.
  destruct Hp as [-> | ->]; cbn in H1, H2.
  - lia.
  - destruct (write_lock (shared s)); cbn in Hl; lia.
Qed.

End ConcurrentFacts.

Module ConcurrentSteps.
Import Pickle Concurrent ConcurrentFacts.

Lemma step_elsewhere i o s s' j :
  step (i, o) s = Some s' -> j <> i -> threads s' !! j = threads s !! j.
Proof.
  unfold step. cbn [fst snd]. intros H Hne.
  destruct (threads s !! i) as [p|]; [|discriminate]. cbn in H.
  destruct (thread_step o p (shared s)) as [[p' g']|]; [|discriminate].
  cbn in H. injection H as <-. cbn. apply list_lookup_insert_ne. congruence.
Qed.

(** No primitive of the acquire is left to a thread inside its critical
    section. *)
Lemma step_in_section i th s :
  threads s !! i = Some (section_of th) -> step (i, acquire_of th) s = None.
Proof.
  unfold step. cbn [fst snd]. intros ->. destruct th; reflexivity.
Qed.

Lemma gate_step_inv calls m i w w' :
  concurrent_inv calls m w -> gate_step calls i w = Some w' -> concurrent_inv calls m w'.
Proof.
  intros (Hg & Hlen & Hc & H1 & H2 & H3 & Hr) Hstep. unfold gate_step in Hstep.
  destruct (calls !! i) as [th|] eqn:Hth; [|discriminate]. cbn in Hstep.
  destruct (inside w !! i) as [pr|] eqn:Hpr; [|discriminate]. cbn in Hstep.
  destruct (step _ (gate_system w)) as [s'|] eqn:Hs; [|discriminate].
  cbn in Hstep. injection Hstep as <-.
  unfold concurrent_inv, mapping_now in *. cbn [gate_system shared_store inside history] in *.
  split; [eapply PickleInvariantFacts.pickle_step_inv; eassumption|].
  split; [assumption|].
  split; [|auto].
  intros j thj prj Hj Hprj Hin.
  destruct (decide (j = i)) as [->|Hne].
  - exfalso. rewrite Hth in Hj. rewrite Hpr in Hprj. simplify_eq.
    rewrite decide_False in Hs by (destruct Hin; congruence).
    rewrite step_in_section in Hs; [discriminate|]. eapply Hc; eassumption.
  - rewrite (step_elsewhere _ _ _ _ j Hs Hne). eapply Hc; eassumption.
Qed.

(** A thread inside its critical section: no other thread has a save
    pending; when it writes, no other thread is inside a method. *)
Lemma nobody_saving calls m w i th :
  concurrent_inv calls m w ->
  calls !! i = Some th ->
  threads (gate_system w) !! i = Some (section_of th) ->
  forall j, inside w !! j = Some Saving -> j = i.
Proof.
  intros (Hg & Hlen & Hc & H1 & H2 & H3 & Hr) Hth Hp j Hj.
  assert (is_Some (calls !! j)) as [thj Hthj].
  { apply lookup_lt_is_Some. rewrite <- Hlen. eapply lookup_lt_Some; eassumption. }
  destruct (H2 j thj Hthj Hj) as (Hsec & _).
  pose proof (Hc j thj Saving Hthj Hj (or_intror eq_refl)) as Hpj. rewrite Hsec in Hpj.
  eapply sections_exclusive; [exact Hg|exact Hpj|exact Hp|].
  destruct th; auto.
Qed.

Lemma writer_alone calls m w i th :
  concurrent_inv calls m w ->
  calls !! i = Some th -> section_of th = Writing ->
  threads (gate_system w) !! i = Some Writing ->
  forall j pr, inside w !! j = Some pr -> in_method pr -> j = i.
Proof.
  intros (Hg & Hlen & Hc & H1 & H2 & H3 & Hr) Hth Hsec Hp j pr Hj Hin.
  assert (is_Some (calls !! j)) as [thj Hthj].
  { apply lookup_lt_is_Some. rewrite <- Hlen. eapply lookup_lt_Some; eassumption. }
  pose proof (Hc j thj pr Hthj Hj Hin) as Hpj.
  symmetry. eapply sections_exclusive; [exact Hg|exact Hp|exact Hpj|].
  destruct thj; auto.
Qed.

Lemma holds_mapping_file_holds m st : holds_mapping m st -> file_holds m st.
Proof.
  intros [Hf Hm]. split; [assumption|].
  destruct (file st) as [b|]; [left; congruence|right; reflexivity].
Qed.

(** The state of the store the invariant needs, once thread [i] has been
    moved to [pr]. *)
Ltac inside_cases i j :=
  destruct (decide (j = i)) as [->|?];
  [ rewrite list_lookup_insert_eq in * by (eapply lookup_lt_Some; eassumption)
  | rewrite list_lookup_insert_ne in * by congruence ].

Lemma store_step_inv calls m i w w' :
  concurrent_inv calls m w -> store_step calls i w = Some w' -> concurrent_inv calls m w'.
Proof.
  intros Hinv Hstep. unfold store_step in Hstep.
  destruct (calls !! i) as [th|] eqn:Hth; [|discriminate]. cbn in Hstep.
  destruct (inside w !! i) as [pr|] eqn:Hpr; [|discriminate]. cbn in Hstep.
  destruct (threads (gate_system w) !! i) as [p|] eqn:Hp; [|discriminate]. cbn in Hstep.
  destruct (decide (p = section_of th)) as [->|]; [|discriminate].
  pose proof (nobody_saving calls m w i th Hinv Hth Hp) as Hsaving.
  pose proof Hinv as (Hg & Hlen & Hc & H1 & H2 & H3 & Hr).
  destruct pr.
  - (* the reload *)
    assert (holds_mapping (mapping_now m w) (shared_store w)) as Hm.
    { apply H1. intros j Hj. pose proof (Hsaving j Hj) as ->. congruence. }
    destruct (load_serves _ _ Hm) as (st' & E & Hm' & Hdb'). rewrite E in Hstep.
    injection Hstep as <-.
    unfold concurrent_inv, mapping_now in *.
    cbn [gate_system shared_store inside history] in *.
    split; [assumption|]. split; [rewrite length_insert; assumption|].
    split; [|split; [auto|split; [|split; [auto|assumption]]]].
    + intros j thj prj Hj Hprj Hin. inside_cases i j.
      * congruence.
      * eapply Hc; eassumption.
    + intros j thj Hj Hprj. inside_cases i j; [discriminate|].
      pose proof (Hsaving j Hprj). congruence.
  - (* the method of Database *)
    assert (holds_mapping (mapping_now m w) (shared_store w)) as Hm.
    { apply H1. intros j Hj. pose proof (Hsaving j Hj) as ->. congruence. }
    pose proof (H3 i Hpr) as Hdb.
    destruct (shared_store w) as [[db l] f fl] eqn:Hst.
    cbn [base Database.DB] in Hdb.
    rewrite (operate_on_mapping th _ db l f fl Hdb) in Hstep.
    set (l' := Database.log _) in Hstep. clearbody l'.
    assert (effect th (mapping_now m w) = mapping_now m w \/
            reply_of th (mapping_now m w) = Return (Did true) /\ section_of th = Writing)
      as Hcase.
    { unfold reply_of. destruct th as [key|key value|key]; cbn [effect section_of].
      - left; reflexivity.
      - right; split; reflexivity.
      - destruct (mapping_now m w !! key) as [v|] eqn:Hk.
        + right. rewrite bool_decide_eq_true_2 by eauto. split; reflexivity.
        + left. apply delete_id. assumption. }
    destruct (reply_of th (mapping_now m w)) as [[r|[]]| |] eqn:Hreply;
      try (unfold reply_of in Hreply; discriminate).
    + (* get_value returned *)
      destruct Hcase as [Heff|[? _]]; [|discriminate].
      injection Hstep as <-.
      unfold concurrent_inv, mapping_now, returned in *.
      cbn [gate_system shared_store inside history] in *.
      rewrite !map_app. cbn [map fst snd]. rewrite effects_snoc, replies_of_snoc.
      rewrite Heff in *.
      split; [assumption|]. split; [rewrite length_insert; assumption|].
      split; [|split; [|split; [|split]]].
      * intros j thj prj Hj Hprj Hin. inside_cases i j.
        -- destruct Hin; congruence.
        -- eapply Hc; eassumption.
      * intros _. destruct Hm as [Hf Hfile]. split; [assumption|].
        cbn [file base Database.DB] in *. destruct f; [assumption|reflexivity].
      * intros j thj Hj Hprj. inside_cases i j; [discriminate|].
        pose proof (Hsaving j Hprj). congruence.
      * intros j Hj. reflexivity.
      * rewrite Hr, Hreply. reflexivity.
    + (* a mutation went through: the save is pending *)
      destruct Hcase as [Heff|[_ Hsec]].
      2: {
        injection Hstep as <-.
        rewrite Hsec in Hp.
        pose proof (writer_alone calls m w i th Hinv Hth Hsec Hp) as Halone.
        unfold concurrent_inv, mapping_now in *.
        cbn [gate_system shared_store inside history] in *.
        split; [assumption|]. split; [rewrite length_insert; assumption|].
        split; [|split; [|split; [|split; [|assumption]]]].
        * intros j thj prj Hj Hprj Hin. inside_cases i j.
          -- simplify_eq. rewrite Hsec. assumption.
          -- eapply Hc; eassumption.
        * intros Hno. exfalso. apply (Hno i).
          apply list_lookup_insert_eq. eapply lookup_lt_Some; eassumption.
        * intros j thj Hj Hprj. inside_cases i j.
          -- simplify_eq. split; [assumption|].
             split; [apply holds_mapping_file_holds in Hm; exact Hm|].
             split; [reflexivity|assumption].
          -- pose proof (Hsaving j Hprj). congruence.
        * intros j Hj. inside_cases i j; [discriminate|].
          exfalso. apply n. eapply Halone; [eassumption|left; reflexivity]. }
      (* a writer whose mapping is unchanged: the save is pending all the same *)
      assert (section_of th = Writing) as Hsec.
      { unfold reply_of in Hreply. destruct th; [discriminate|reflexivity|reflexivity]. }
      injection Hstep as <-.
      rewrite Hsec in Hp.
      pose proof (writer_alone calls m w i th Hinv Hth Hsec Hp) as Halone.
      unfold concurrent_inv, mapping_now in *.
      cbn [gate_system shared_store inside history] in *.
      split; [assumption|]. split; [rewrite length_insert; assumption|].
      split; [|split; [|split; [|split; [|assumption]]]].
      * intros j thj prj Hj Hprj Hin. inside_cases i j.
        -- simplify_eq. rewrite Hsec. assumption.
        -- eapply Hc; eassumption.
      * intros Hno. exfalso. apply (Hno i).
        apply list_lookup_insert_eq. eapply lookup_lt_Some; eassumption.
      * intros j thj Hj Hprj. inside_cases i j.
        -- simplify_eq. split; [assumption|].
           split; [apply holds_mapping_file_holds in Hm; exact Hm|].
           split; [reflexivity|assumption].
        -- pose proof (Hsaving j Hprj). congruence.
      * intros j Hj. inside_cases i j; [discriminate|].
        exfalso. apply n. eapply Halone; [eassumption|left; reflexivity].
    + (* del_value found nothing to remove *)
      destruct Hcase as [Heff|[? _]]; [|discriminate].
      injection Hstep as <-.
      unfold concurrent_inv, mapping_now, returned in *.
      cbn [gate_system shared_store inside history] in *.
      rewrite !map_app. cbn [map fst snd]. rewrite effects_snoc, replies_of_snoc.
      rewrite Heff in *.
      split; [assumption|]. split; [rewrite length_insert; assumption|].
      split; [|split; [|split; [|split]]].
      * intros j thj prj Hj Hprj Hin. inside_cases i j.
        -- destruct Hin; congruence.
        -- eapply Hc; eassumption.
      * intros _. destruct Hm as [Hf Hfile]. split; [assumption|].
        cbn [file base Database.DB] in *. destruct f; [assumption|reflexivity].
      * intros j thj Hj Hprj. inside_cases i j; [discriminate|].
        pose proof (Hsaving j Hprj). congruence.
      * intros j Hj. reflexivity.
      * rewrite Hr, Hreply. reflexivity.
  - (* the save *)
    destruct (H2 i th Hth Hpr) as (Hsec & Hfile & Hdb & Hreply).
    destruct (save_serves _ _ _ Hfile Hdb) as (st' & E & Hm'). rewrite E in Hstep.
    injection Hstep as <-.
    rewrite Hsec in Hp.
    pose proof (writer_alone calls m w i th Hinv Hth Hsec Hp) as Halone.
    unfold concurrent_inv, mapping_now, returned in *.
    cbn [gate_system shared_store inside history] in *.
    rewrite !map_app. cbn [map fst snd]. rewrite effects_snoc, replies_of_snoc.
    split; [assumption|]. split; [rewrite length_insert; assumption|].
    split; [|split; [|split; [|split]]].
    + intros j thj prj Hj Hprj Hin. inside_cases i j.
      * destruct Hin; congruence.
      * eapply Hc; eassumption.
    + intros _. assumption.
    + intros j thj Hj Hprj. inside_cases i j; [discriminate|].
      pose proof (Hsaving j Hprj). congruence.
    + intros j Hj. inside_cases i j; [discriminate|].
      exfalso. apply n. eapply Halone; [eassumption|left; reflexivity].
    + rewrite Hr, Hreply. reflexivity.
  - discriminate.
Qed.

End ConcurrentSteps.

Module ConcurrentRuns.
Import Pickle Concurrent ConcurrentFacts ConcurrentSteps.

(** What a step of the store does to the threads and to the history. *)
Lemma store_step_shape calls i w w' :
  store_step calls i w = Some w' ->
  exists th pr,
    calls !! i = Some th /\ inside w !! i = Some pr /\ pr <> Done /\
    ((exists pr', pr' <> Done /\ inside w' = <[i:=pr']> (inside w) /\
                  history w' = history w) \/
     (exists o, inside w' = <[i:=Done]> (inside w) /\
                history w' = history w ++ [(th, o)])).
Proof.
  unfold store_step. intros H.
  destruct (calls !! i) as [th|]; [|discriminate]. cbn in H.
  destruct (inside w !! i) as [pr|]; [|discriminate]. cbn in H.
  destruct (threads (gate_system w) !! i) as [p|]; [|discriminate]. cbn in H.
  destruct (decide (p = section_of th)) as [Hp|]; [|discriminate].
  exists th, pr. split; [reflexivity|]. split; [reflexivity|].
  destruct pr; (split; [discriminate || (exfalso; discriminate)|]).
  - destruct (FileDatabase.load_from_file _) as [[[]|e|] st]; simplify_eq.
    + left. exists Loaded. split; [discriminate|]. split; reflexivity.
    + right. eexists. split; reflexivity.
  - destruct (operate th _) as [[[r|[]]|e|] st]; simplify_eq.
    + right. eexists. split; reflexivity.
    + left. exists Saving. split; [discriminate|]. split; reflexivity.
    + right. eexists. split; reflexivity.
    + right. eexists. split; reflexivity.
  - destruct (FileDatabase.save_to_file _) as [[[]|e|] st]; simplify_eq.
    + right. eexists. split; reflexivity.
    + right. eexists. split; reflexivity.
  - discriminate.
Qed.

Lemma store_step_history calls i w w' :
  history_inv calls w -> store_step calls i w = Some w' -> history_inv calls w'.
Proof.
  intros (ids & Hnd & Hin & Hall) Hstep.
  destruct (store_step_shape _ _ _ _ Hstep)
    as (th & pr & Hth & Hpr & Hne & [(pr' & Hne' & Hi & Hh)|(o & Hi & Hh)]);
    unfold history_inv; rewrite Hi, Hh.
  - exists ids. split; [assumption|]. split; [|assumption].
    intros j. rewrite Hin. destruct (decide (j = i)) as [->|Hji].
    + rewrite list_lookup_insert_eq by (eapply lookup_lt_Some; eassumption).
      rewrite Hpr. split; congruence.
    + rewrite list_lookup_insert_ne by congruence. reflexivity.
  - exists (ids ++ [i]). split; [|split].
    + apply NoDup_app. split; [assumption|]. split; [|apply NoDup_singleton].
      intros j Hj Hji. apply list_elem_of_singleton in Hji as ->.
      apply Hin in Hj. congruence.
    + intros j. rewrite elem_of_app, list_elem_of_singleton, Hin.
      destruct (decide (j = i)) as [->|Hji].
      * rewrite list_lookup_insert_eq by (eapply lookup_lt_Some; eassumption).
        split; auto.
      * rewrite list_lookup_insert_ne by congruence. split; [|auto].
        intros [?|?]; [assumption|contradiction].
    + apply Forall2_app; [assumption|]. apply Forall2_cons_2; [exact Hth|apply Forall2_nil_2].
Qed.

Lemma step_world_inv calls m ev w w' :
  concurrent_inv calls m w /\ history_inv calls w ->
  step_world calls ev w = Some w' ->
  concurrent_inv calls m w' /\ history_inv calls w'.
Proof.
  intros [Hinv Hhist] Hstep. destruct ev as [i|i]; cbn in Hstep.
  - split; [eapply gate_step_inv; eassumption|].
    unfold gate_step in Hstep.
    destruct (calls !! i); [|discriminate]. cbn in Hstep.
    destruct (inside w !! i); [|discriminate]. cbn in Hstep.
    destruct (step _ _); [|discriminate]. cbn in Hstep. injection Hstep as <-.
    exact Hhist.
  - split; [eapply store_step_inv|eapply store_step_history]; eassumption.
Qed.

Lemma run_inv calls m sched w w' :
  concurrent_inv calls m w /\ history_inv calls w ->
  run calls sched w = Some w' ->
  concurrent_inv calls m w' /\ history_inv calls w'.
Proof.
  revert w. induction sched as [|ev sched IH]; intros w Hinv H; cbn [run] in H.
  - congruence.
  - destruct (step_world calls ev w) as [w1|] eqn:Hs; [|discriminate]. cbn in H.
    eapply IH; [|exact H]. eapply step_world_inv; eassumption.
Qed.

Lemma start_inv calls N m st :
  holds_mapping m st ->
  concurrent_inv calls m (start calls N st) /\ history_inv calls (start calls N st).
Proof.
  intros Hm. split.
  - unfold concurrent_inv, mapping_now, start. cbn.
    split; [apply PickleInvariantFacts.pickle_initial_inv|].
    split; [apply length_replicate|].
    split; [|split; [intros _; exact Hm|split; [|split; [|reflexivity]]]].
    + intros i th pr _ Hpr Hin. apply lookup_replicate in Hpr as [-> _].
      destruct Hin; discriminate.
    + intros i th _ Hpr. apply lookup_replicate in Hpr as [? _]. discriminate.
    + intros i Hpr. apply lookup_replicate in Hpr as [? _]. discriminate.
  - exists []. split; [apply NoDup_nil_2|]. split; [|apply Forall2_nil_2].
    intros i. cbn. split.
    + intros H. apply elem_of_nil in H. contradiction.
    + intros Hpr. apply lookup_replicate in Hpr as [? _]. discriminate.
Qed.

(** *** When all the threads have returned *)

Lemma omap_lookup_seq {A} (pre l : list A) :
  omap (fun i => (pre ++ l) !! i) (seq (length pre) (length l)) = l.
Proof.
  revert pre. induction l as [|x l IH]; intros pre; [reflexivity|].
  cbn [length seq omap list_omap]. rewrite list_lookup_middle by reflexivity.
  f_equal. specialize (IH (pre ++ [x])).
  rewrite <- app_assoc, length_app in IH. cbn in IH.
  rewrite Nat.add_1_r in IH. exact IH.
Qed.

Lemma omap_history {A B} (f : nat -> option A) (ids : list nat) (h : list (A * B)) :
  Forall2 (fun i e => f i = Some e.1) ids h -> omap f ids = map fst h.
Proof.
  induction 1 as [|i e ids h Hi _ IH]; [reflexivity|].
  cbn [omap list_omap map]. rewrite Hi, <- IH. reflexivity.
Qed.

Lemma finished_history calls w :
  history_inv calls w -> finished calls w -> map fst (history w) ≡ₚ calls.
Proof.
  intros (ids & Hnd & Hin & Hall) [_ Hdone].
  rewrite <- (omap_history (fun i => calls !! i) _ _ Hall).
  pose proof (omap_lookup_seq [] calls) as Hseq. cbn [app length] in Hseq.
  assert (ids ≡ₚ seq 0 (length calls)) as Hperm.
  { apply NoDup_Permutation; [assumption|apply NoDup_seq|].
    intros i. rewrite Hin, Hdone, elem_of_seq. split.
    - intros H. apply lookup_replicate in H as [_ ?]. lia.
    - intros H. apply lookup_replicate. split; [reflexivity|lia]. }
  rewrite Hperm, Hseq. reflexivity.
Qed.

End ConcurrentRuns.

(** X25. Every interleaved run of threads that share one object of
    sync_Database.py is a serial run.  A step is a primitive of the gate
    or, inside a critical section, one of the calls the [FileDatabase]
    method makes (the reload, the method of [Database], the save).  From
    a store that serves the mapping [m], for any threads, any number of
    units and any schedule: the calls that have returned returned what
    they return when they run one after another from [m], in the order
    in which they returned; while no save is pending the store serves the
    mapping that serial run leaves; and once all the threads have
    finished, every call has returned exactly once. *)
Theorem every_run_is_serial calls max_readers m st sched w :
  holds_mapping m st ->
  Concurrent.run calls sched (Concurrent.start calls max_readers st) = Some w ->
  map snd (Concurrent.history w) = replies_of (map fst (Concurrent.history w)) m /\
  ((forall i, Concurrent.inside w !! i <> Some Concurrent.Saving) ->
   holds_mapping (effects (map fst (Concurrent.history w)) m) (Concurrent.shared_store w)) /\
  (Concurrent.finished calls w -> map fst (Concurrent.history w) ≡ₚ calls).
Proof.
  intros Hm Hrun.
  destruct (ConcurrentRuns.run_inv calls m sched _ w
              (ConcurrentRuns.start_inv calls max_readers m st Hm) Hrun)
    as [(_ & _ & _ & H1 & _ & _ & Hr) Hhist].
  split; [exact Hr|]. split; [exact H1|].
  apply ConcurrentRuns.finished_history. assumption.
Qed.

(** X26. The 35 threads of [assert_synchronizer_threading], interleaved
    in any way on a store that serves the seeded mapping: once they have
    all finished, [get_value] answers by a mapping in which the keys 0 to
    4 are deleted, the keys 5 to 9 are as seeded and a key [k] from 10 to
    19 is bound to [k - 10] or to [k], as after the serial runs. *)
Theorem harness_outcome_interleaved sched (st : file_database) w :
  holds_mapping ThreadsTest.db st ->
  Concurrent.run ThreadsTest.threads sched
    (Concurrent.start ThreadsTest.threads ThreadsTest.MAX_READERS st) = Some w ->
  Concurrent.finished ThreadsTest.threads w ->
  exists m,
    outcome_of_threads m /\
    forall i, exists st',
      Pickle.FileDatabase.get_value i (Concurrent.shared_store w) =
        (Return (answer m i), st').
Proof.
  intros Hm Hrun Hfin.
  destruct (ConcurrentRuns.run_inv _ _ sched _ w
              (ConcurrentRuns.start_inv ThreadsTest.threads ThreadsTest.MAX_READERS _ st Hm)
              Hrun)
    as [(_ & _ & _ & H1 & _ & _ & Hr) Hhist].
  pose proof (ConcurrentRuns.finished_history _ _ Hhist Hfin) as Hperm.
  exists (effects (map fst (Concurrent.history w)) ThreadsTest.db).
  split; [apply effects_of_threads; assumption|].
  assert (holds_mapping (effects (map fst (Concurrent.history w)) ThreadsTest.db)
            (Concurrent.shared_store w)) as Hserved.
  { apply H1. intros i Hi. destruct Hfin as [_ Hdone]. rewrite Hdone in Hi.
    apply lookup_replicate in Hi as [? _]. discriminate. }
  intros i. destruct (holds_mapping_get_value _ _ i Hserved) as (st' & E & _).
  exists st'. exact E.
Qed.

Lemma every_run_is_serial_witness :
  exists w,
    Concurrent.run sample_calls sample_schedule (Concurrent.start sample_calls 2 sample_store)
      = Some w /\
    Concurrent.history w =
      [(ThreadsTest.Reader 1, Return (Concurrent.Got (Value 10)));
       (ThreadsTest.Writer 1 5, Return (Concurrent.Did true));
       (ThreadsTest.Deleter 7, Return (Concurrent.Did false))]%Z /\
    map snd (Concurrent.history w) =
      replies_of (map fst (Concurrent.history w)) {[1%Z := 10%Z]} /\
    ((forall i, Concurrent.inside w !! i <> Some Concurrent.Saving) ->
     holds_mapping (effects (map fst (Concurrent.history w)) {[1%Z := 10%Z]})
       (Concurrent.shared_store w)) /\
    (Concurrent.finished sample_calls w -> map fst (Concurrent.history w) ≡ₚ sample_calls).
Proof.
  eexists. split; [vm_compute; reflexivity|]. split; [reflexivity|].
  apply (every_run_is_serial sample_calls 2 {[1%Z := 10%Z]} sample_store sample_schedule).
  - split; reflexivity.
  - vm_compute. reflexivity.
Defined.

Lemma harness_outcome_interleaved_witness :
  exists w,
    Concurrent.run ThreadsTest.threads readers_together
      (Concurrent.start ThreadsTest.threads ThreadsTest.MAX_READERS
         (Pickle.FileDatabase.init (PyDict ThreadsTest.db) (fresh None [])).2)
      = Some w /\
    Concurrent.finished ThreadsTest.threads w /\
    exists m,
      outcome_of_threads m /\
      forall i, exists st',
        Pickle.FileDatabase.get_value i (Concurrent.shared_store w) =
          (Return (answer m i), st').
Proof.
  eexists. split; [vm_compute; reflexivity|].
  split; [split; reflexivity|].
  apply (harness_outcome_interleaved readers_together
           (Pickle.FileDatabase.init (PyDict ThreadsTest.db) (fresh None [])).2).
  - split; reflexivity.
  - vm_compute. reflexivity.
  - split; reflexivity.
Defined.

Module ConcurrentProgress.
Import Pickle Concurrent ConcurrentFacts ConcurrentSteps ConcurrentRuns.

(** *** One primitive of the gate *)

Lemma thread_step_phase th pr p g p' g' :
  thread_step (if decide (pr = Done) then release_of th else acquire_of th) p g
    = Some (p', g') ->
  max_readers g' = max_readers g /\
  steps_left (max_readers g) th pr p' < steps_left (max_readers g) th pr p /\
  (phase_ok th pr p -> phase_ok th pr p').
Proof.
  intros Ht. destruct g as [v w N]. cbn [max_readers].
  destruct th, pr, p; cbn -[Nat.ltb] in Ht; try discriminate;
    unfold returns, Semaphore_acquire, Semaphore_release, Lock_acquire,
      Lock_release, modify in Ht;
    destruct v as [|v], w; cbn -[Nat.ltb] in Ht;
    repeat (case_match; cbn -[Nat.ltb] in Ht);
    simplify_eq;
    repeat match goal with
    | H : (_ <? _) = true |- _ => apply Nat.ltb_lt in H
    | H : (_ <? _) = false |- _ => apply Nat.ltb_ge in H
    end;
    cbn [max_readers steps_left release_steps phase_ok section_of];
    (split; [reflexivity|]); (split; [lia|]); try tauto; try discriminate.
Qed.

Lemma steps_left_all_insert N calls prs ps i th pr p pr' p' :
  calls !! i = Some th -> prs !! i = Some pr -> ps !! i = Some p ->
  steps_left N th pr' p' < steps_left N th pr p ->
  steps_left_all N calls (<[i:=pr']> prs) (<[i:=p']> ps) < steps_left_all N calls prs ps.
Proof.
  revert prs ps i. induction calls as [|th0 calls IH]; intros [|pr0 prs] [|p0 ps] [|i];
    intros Hth Hpr Hp Hlt; simplify_eq/=.
  - lia.
  - specialize (IH prs ps i Hth Hpr Hp Hlt). lia.
Qed.

Lemma step_max_readers ev s s' :
  step ev s = Some s' -> max_readers (shared s') = max_readers (shared s).
Proof.
  intros H. apply (pickle_exec_max_readers [ev]). cbn. rewrite H. reflexivity.
Qed.

(** What a primitive of the gate does to the thread that takes it. *)
Lemma gate_step_shape calls i w w' :
  gate_step calls i w = Some w' ->
  exists th pr p p' g',
    calls !! i = Some th /\ inside w !! i = Some pr /\
    threads (gate_system w) !! i = Some p /\
    thread_step (if decide (pr = Done) then release_of th else acquire_of th) p
      (shared (gate_system w)) = Some (p', g') /\
    w' = World (System g' (<[i:=p']> (threads (gate_system w))))
           (shared_store w) (inside w) (history w).
Proof.
  unfold gate_step, step. cbn [fst snd]. intros H.
  destruct (calls !! i) as [th|]; [|discriminate]. cbn in H.
  destruct (inside w !! i) as [pr|]; [|discriminate]. cbn in H.
  destruct (threads (gate_system w) !! i) as [p|]; [|discriminate]. cbn in H.
  destruct (thread_step _ p _) as [[p' g']|] eqn:Ht; [|discriminate]. cbn in H.
  injection H as <-. exists th, pr, p, p', g'. repeat split; try reflexivity. exact Ht.
Qed.

(** What a call of the method does to the thread that makes it. *)
Lemma store_step_moves calls i w w' :
  store_step calls i w = Some w' ->
  exists th pr pr',
    calls !! i = Some th /\ inside w !! i = Some pr /\
    threads (gate_system w) !! i = Some (section_of th) /\
    gate_system w' = gate_system w /\ inside w' = <[i:=pr']> (inside w) /\
    ((pr = Before /\ pr' = Loaded) \/ (pr = Loaded /\ pr' = Saving) \/
     (pr <> Done /\ pr' = Done)).
Proof.
  unfold store_step. intros H.
  destruct (calls !! i) as [th|]; [|discriminate]. cbn in H.
  destruct (inside w !! i) as [pr|]; [|discriminate]. cbn in H.
  destruct (threads (gate_system w) !! i) as [p|]; [|discriminate]. cbn in H.
  destruct (decide (p = section_of th)) as [->|]; [|discriminate].
  exists th, pr. destruct pr.
  - destruct (FileDatabase.load_from_file _) as [[[]|e|] st]; simplify_eq.
    + exists Loaded. repeat split; auto.
    + exists Done. repeat split; auto; right; right; split; first [discriminate|reflexivity].
  - destruct (operate th _) as [[[r|[]]|e|] st]; simplify_eq.
    + exists Done. repeat split; auto; right; right; split; first [discriminate|reflexivity].
    + exists Saving. repeat split; auto.
    + exists Done. repeat split; auto; right; right; split; first [discriminate|reflexivity].
    + exists Done. repeat split; auto; right; right; split; first [discriminate|reflexivity].
  - destruct (FileDatabase.save_to_file _) as [[[]|e|] st]; simplify_eq.
    + exists Done. repeat split; auto; right; right; split; first [discriminate|reflexivity].
    + exists Done. repeat split; auto; right; right; split; first [discriminate|reflexivity].
  - discriminate.
Qed.

(** *** Every step uses up one of the steps left *)

Lemma step_world_steps calls ev w w' :
  phase_inv calls w -> step_world calls ev w = Some w' ->
  phase_inv calls w' /\ steps_of calls w' < steps_of calls w /\
  max_readers (shared (gate_system w')) = max_readers (shared (gate_system w)).
Proof.
  intros [Hlen Hph] Hstep. destruct ev as [i|i]; cbn [step_world] in Hstep.
  - destruct (gate_step_shape _ _ _ _ Hstep)
      as (th & pr & p & p' & g' & Hth & Hpr & Hp & Ht & ->).
    destruct (thread_step_phase _ _ _ _ _ _ Ht) as (HN & Hlt & Hok).
    unfold phase_inv, steps_of. cbn [gate_system inside shared threads].
    split; [split|split].
    + rewrite length_insert. assumption.
    + intros j thj prj pj Hj Hprj Hpj. destruct (decide (j = i)) as [->|Hne].
      * rewrite list_lookup_insert_eq in Hpj by (eapply lookup_lt_Some; eassumption).
        simplify_eq. apply Hok. eapply Hph; eassumption.
      * rewrite list_lookup_insert_ne in Hpj by congruence. eapply Hph; eassumption.
    + rewrite HN. rewrite <- (list_insert_id (inside w) i pr Hpr) at 1.
      eapply steps_left_all_insert; eassumption.
    + assumption.
  - destruct (store_step_moves _ _ _ _ Hstep)
      as (th & pr & pr' & Hth & Hpr & Hp & Hg & Hin & Hmove).
    unfold phase_inv, steps_of. rewrite Hg, Hin.
    split; [split|split].
    + assumption.
    + intros j thj prj pj Hj Hprj Hpj. destruct (decide (j = i)) as [->|Hne].
      * rewrite list_lookup_insert_eq in Hprj by (eapply lookup_lt_Some; eassumption).
        rewrite Hth in Hj. rewrite Hp in Hpj.
        injection Hj as <-. injection Hpj as <-. injection Hprj as <-.
        destruct pr', th; cbn; auto.
      * rewrite list_lookup_insert_ne in Hprj by congruence. eapply Hph; eassumption.
    + rewrite <- (list_insert_id (threads (gate_system w)) i _ Hp) at 1.
      eapply steps_left_all_insert; try eassumption.
      destruct Hmove as [[-> ->]|[[-> ->]|[Hne ->]]]; destruct th; cbn; try lia;
        destruct pr; cbn; try lia; congruence.
    + reflexivity.
Qed.

End ConcurrentProgress.

Module ConcurrentEnd.
Import Pickle Concurrent ConcurrentFacts ConcurrentSteps ConcurrentRuns ConcurrentProgress.

Lemma not_all_lookup {A} `{EqDecision A} (l : list A) (x : A) :
  l <> replicate (length l) x -> exists i y, l !! i = Some y /\ y <> x.
Proof.
  induction l as [|z l IH]; cbn; intros H; [congruence|].
  destruct (decide (z = x)) as [->|Hz].
  - destruct IH as (i & y & Hi & Hy); [congruence|]. exists (S i), y. auto.
  - exists 0, z. auto.
Qed.

(** *** A thread inside its critical section can make its next call *)

Lemma store_enabled calls m w j th pr :
  concurrent_inv calls m w ->
  calls !! j = Some th -> inside w !! j = Some pr -> pr <> Done ->
  threads (gate_system w) !! j = Some (section_of th) ->
  exists w', store_step calls j w = Some w'.
Proof.
  intros Hinv Hth Hpr Hne Hp. unfold store_step.
  rewrite Hth, Hpr. cbn. rewrite Hp. cbn. rewrite decide_True by reflexivity.
  pose proof (nobody_saving calls m w j th Hinv Hth Hp) as Hsaving.
  pose proof Hinv as (Hg & Hlen & Hc & H1 & H2 & H3 & Hr).
  destruct pr.
  - assert (holds_mapping (mapping_now m w) (shared_store w)) as Hm.
    { apply H1. intros i Hi. pose proof (Hsaving i Hi) as ->. congruence. }
    destruct (load_serves _ _ Hm) as (st' & -> & _). eauto.
  - pose proof (H3 j Hpr) as Hdb.
    destruct (shared_store w) as [[db l] f fl] eqn:Hst.
    cbn [base Database.DB] in Hdb.
    rewrite (operate_on_mapping th _ db l f fl Hdb).
    unfold reply_of. destruct th; [eauto|eauto|]. case_bool_decide; eauto.
  - destruct (H2 j th Hth Hpr) as (Hsec & Hfile & Hdb & Hreply).
    destruct (save_serves _ _ _ Hfile Hdb) as (st' & -> & _). eauto.
  - congruence.
Qed.

(** *** A primitive the gate lets through is the next one of its thread *)

Lemma gate_enabled calls w j th pr q o s' :
  calls !! j = Some th -> inside w !! j = Some pr ->
  threads (gate_system w) !! j = Some q ->
  phase_ok th pr q -> q <> Idle -> (pr = Done \/ q <> section_of th) ->
  step (j, o) (gate_system w) = Some s' ->
  exists w', gate_step calls j w = Some w'.
Proof.
  intros Hth Hpr Hq Hok Hbusy Hout Hstep. unfold gate_step.
  rewrite Hth, Hpr. cbn [mbind option_bind].
  assert (o = if decide (pr = Done) then release_of th else acquire_of th) as <-.
  { unfold step in Hstep. cbn [fst snd] in Hstep. rewrite Hq in Hstep. cbn in Hstep.
    destruct (thread_step o q _) as [x|] eqn:Ht; [|discriminate]. clear Hstep.
    destruct th, pr, q; cbn in Hok; try contradiction; try discriminate;
      try (exfalso; apply Hbusy; reflexivity);
      try (destruct Hout as [?|Hout]; [discriminate|exfalso; apply Hout; reflexivity]);
      destruct o; cbn -[Nat.ltb] in Ht; try discriminate; reflexivity. }
  rewrite Hstep. cbn. eauto.
Qed.

(** *** While a thread has not finished, some thread can move *)

Lemma some_thread_moves calls m w :
  concurrent_inv calls m w -> phase_inv calls w ->
  0 < max_readers (shared (gate_system w)) ->
  finished calls w \/ exists ev w', step_world calls ev w = Some w'.
Proof.
  intros Hinv [Hlen Hph] HN.
  pose proof Hinv as (Hg & Hlen' & Hc & _).
  destruct (decide (threads (gate_system w) = replicate (length calls) Idle)) as [Hidle|Hbusy].
  - destruct (decide (inside w = replicate (length calls) Done)) as [Hdone|Hleft].
    + left. split; assumption.
    + right. rewrite <- Hlen' in Hleft.
      destruct (not_all_lookup _ _ Hleft) as (i & pr & Hpr & Hne).
      assert (is_Some (calls !! i)) as [th Hth].
      { apply lookup_lt_is_Some. rewrite <- Hlen'. eapply lookup_lt_Some; eassumption. }
      assert (threads (gate_system w) !! i = Some Idle) as Hp.
      { rewrite Hidle. apply lookup_replicate. split; [reflexivity|].
        eapply lookup_lt_Some; eassumption. }
      pose proof (Hph i th pr Idle Hth Hpr Hp) as Hok.
      exists (Gate i). cbn [step_world]. unfold gate_step, step.
      rewrite Hth, Hpr. cbn. rewrite Hp. cbn.
      destruct pr; try congruence; destruct th; cbn in Hok |- *;
        try discriminate; eauto.
  - right. rewrite <- Hlen in Hbusy.
    destruct (not_all_lookup _ _ Hbusy) as (i & p & Hp & Hne).
    destruct (PickleProgress.inv_progress _ i p Hg HN Hp Hne)
      as (j & q & o & s' & Hq & Hqb & Hstep).
    assert (is_Some (calls !! j)) as [th Hth].
    { apply lookup_lt_is_Some. rewrite <- Hlen. eapply lookup_lt_Some; eassumption. }
    assert (is_Some (inside w !! j)) as [pr Hpr].
    { apply lookup_lt_is_Some. rewrite Hlen'. eapply lookup_lt_Some; eassumption. }
    pose proof (Hph j th pr q Hth Hpr Hq) as Hok.
    destruct (decide (pr = Done)) as [Hd|Hd].
    + destruct (gate_enabled calls w j th pr q o s') as [w' Hw']; auto.
      exists (Gate j), w'. exact Hw'.
    + destruct (decide (q = section_of th)) as [->|Hsec].
      * destruct (store_enabled calls m w j th pr) as [w' Hw']; auto.
        exists (Store j), w'. exact Hw'.
      * destruct (gate_enabled calls w j th pr q o s') as [w' Hw']; auto.
        exists (Gate j), w'. exact Hw'.
Qed.

(** *** Runs *)

Lemma run_app calls sched rest w :
  run calls (sched ++ rest) w = w' ← run calls sched w; run calls rest w'.
Proof.
  revert w. induction sched as [|ev sched IH]; intros w; cbn; [reflexivity|].
  destruct (step_world calls ev w) as [w1|]; cbn; [apply IH|reflexivity].
Qed.

Lemma step_world_ready calls m N ev w w' :
  ready calls m N w -> step_world calls ev w = Some w' ->
  ready calls m N w' /\ steps_of calls w' < steps_of calls w.
Proof.
  intros (Hinv & Hph & HN) Hstep.
  destruct (step_world_steps _ _ _ _ Hph Hstep) as (Hph' & Hlt & HN').
  split; [|assumption]. split; [|split; [assumption|congruence]].
  destruct ev as [i|i]; cbn [step_world] in Hstep.
  - eapply gate_step_inv; eassumption.
  - eapply store_step_inv; eassumption.
Qed.

Lemma run_ready calls m N sched w w' :
  ready calls m N w -> run calls sched w = Some w' ->
  ready calls m N w' /\ length sched + steps_of calls w' <= steps_of calls w.
Proof.
  revert w. induction sched as [|ev sched IH]; intros w Hw H; cbn [run] in H.
  - simplify_eq. split; [assumption|]. cbn. lia.
  - destruct (step_world calls ev w) as [w1|] eqn:Hs; [|discriminate]. cbn in H.
    destruct (step_world_ready _ _ _ _ _ _ Hw Hs) as [Hw1 Hlt].
    destruct (IH _ Hw1 H) as [Hw' Hle]. split; [assumption|]. cbn [length]. lia.
Qed.

Lemma start_ready calls m N st :
  holds_mapping m st -> ready calls m N (start calls N st).
Proof.
  intros Hm. split; [apply start_inv; assumption|]. split; [|reflexivity].
  split; [apply length_replicate|].
  intros i th pr p _ Hpr Hp. cbn in Hpr, Hp.
  apply lookup_replicate in Hpr as [-> _]. apply lookup_replicate in Hp as [-> _].
  destruct th; exact I.
Qed.

Lemma steps_left_all_start N calls :
  steps_left_all N calls (replicate (length calls) Before) (replicate (length calls) Idle)
    <= length calls * (2 * N + 9).
Proof.
  induction calls as [|th calls IH]; cbn [length replicate steps_left_all]; [lia|].
  destruct th; cbn [steps_left release_steps]; lia.
Qed.

Lemma can_finish calls m N n w :
  0 < N -> ready calls m N w -> steps_of calls w <= n ->
  exists rest w', run calls rest w = Some w' /\ finished calls w'.
Proof.
  intros HN. revert w. induction n as [|n IH]; intros w Hw Hn.
  - destruct Hw as (Hinv & Hph & Hmax).
    destruct (some_thread_moves calls m w Hinv Hph) as [Hfin|(ev & w' & Hs)]; [lia| |].
    + exists [], w. split; [reflexivity|assumption].
    + destruct (step_world_steps _ _ _ _ Hph Hs) as (_ & Hlt & _). lia.
  - pose proof Hw as (Hinv & Hph & Hmax).
    destruct (some_thread_moves calls m w Hinv Hph) as [Hfin|(ev & w1 & Hs)]; [lia| |].
    + exists [], w. split; [reflexivity|assumption].
    + destruct (step_world_ready _ _ _ _ _ _ Hw Hs) as [Hw1 Hlt].
      destruct (IH w1 Hw1) as (rest & w' & Hrun & Hfin); [lia|].
      exists (ev :: rest), w'. split; [|assumption]. cbn [run]. rewrite Hs. exact Hrun.
Qed.

End ConcurrentEnd.

(** X27. Interleaved runs end.  With [max_readers] at least 1, from a
    store that serves a mapping: a run takes at most
    [2 * max_readers + 9] steps for each thread; after any schedule
    either all the threads have finished or some thread can take a step;
    and every run can be continued to one where all the threads have
    finished. *)
Theorem every_run_can_finish calls max_readers m st sched w :
  0 < max_readers -> holds_mapping m st ->
  Concurrent.run calls sched (Concurrent.start calls max_readers st) = Some w ->
  length sched <= length calls * (2 * max_readers + 9) /\
  (Concurrent.finished calls w \/
   exists ev w', Concurrent.step_world calls ev w = Some w') /\
  exists rest w',
    Concurrent.run calls (sched ++ rest) (Concurrent.start calls max_readers st) = Some w' /\
    Concurrent.finished calls w'.
Proof.
  intros HN Hm Hrun.
  destruct (ConcurrentEnd.run_ready calls m max_readers sched _ w
              (ConcurrentEnd.start_ready calls m max_readers st Hm) Hrun) as [Hw Hle].
  split; [|split].
  - pose proof (ConcurrentEnd.steps_left_all_start max_readers calls) as Hstart.
    unfold steps_of in Hle at 2. cbn in Hle. lia.
  - destruct Hw as (Hinv & Hph & Hmax). eapply ConcurrentEnd.some_thread_moves; try eassumption. lia.
  - destruct (ConcurrentEnd.can_finish calls m max_readers _ w HN Hw (le_n _))
      as (rest & w' & Hrest & Hfin).
    exists rest, w'. split; [|assumption].
    rewrite ConcurrentEnd.run_app, Hrun. exact Hrest.
Qed.

Lemma every_run_can_finish_witness :
  exists w,
    Concurrent.run sample_calls (take 6 sample_schedule)
      (Concurrent.start sample_calls 2 sample_store) = Some w /\
    Pickle.threads (Concurrent.gate_system w) =
      [Pickle.AcquireWrite_loop 1; Pickle.Reading; Pickle.AcquireWrite_lock] /\
    length (take 6 sample_schedule) <= length sample_calls * (2 * 2 + 9) /\
    (Concurrent.finished sample_calls w \/
     exists ev w', Concurrent.step_world sample_calls ev w = Some w') /\
    exists rest w',
      Concurrent.run sample_calls (take 6 sample_schedule ++ rest)
        (Concurrent.start sample_calls 2 sample_store) = Some w' /\
      Concurrent.finished sample_calls w'.
Proof.
  eexists. split; [vm_compute; reflexivity|]. split; [reflexivity|].
  apply (every_run_can_finish sample_calls 2 {[1%Z := 10%Z]} sample_store
           (take 6 sample_schedule)).
  - lia.
  - split; reflexivity.
  - vm_compute. reflexivity.
Defined.
